(** * Field-extraction heuristics of the cover-letter backend (backend2.js)

    A shallow embedding of [extractResumeData], [analyzeJobDescription],
    the [/analyze-jd] handler and the [verifyPayment] middleware, together
    with the part of the JavaScript runtime they rely on: strings as
    sequences of UTF-16 code units, [String.prototype.split], [trim],
    [includes], and the backtracking regular-expression matcher of
    ECMAScript (continuation-passing, as in the language definition). *)

From Stdlib Require Import String Ascii.
From Stdlib Require Import List NArith Bool Arith Lia.
Import ListNotations.

Local Open Scope N_scope.
Local Open Scope list_scope.

(** ** JavaScript strings *)

(** A JavaScript string is a sequence of 16-bit code units. *)
Definition char := N.
Definition jsstring := list char.

(** Source literals are written as Rocq strings and read as code units. *)
Definition u (s : string) : jsstring :=
  map N_of_ascii (list_ascii_of_string s).

Definition ch (a : ascii) : char := N_of_ascii a.

Definition in_range (lo hi c : char) : bool := (lo <=? c) && (c <=? hi).

Fixpoint str_eqb (a b : jsstring) : bool :=
  match a, b with
  | [], [] => true
  | x :: a', y :: b' => (x =? y) && str_eqb a' b'
  | _, _ => false
  end.

(** WhiteSpace and LineTerminator code units: what [trim] strips and what
    the class escape [\s] accepts. *)
Definition is_space (c : char) : bool :=
  in_range 9 13 c || (c =? 32) || (c =? 160) || (c =? 5760)
  || in_range 8192 8202 c || (c =? 8232) || (c =? 8233) || (c =? 8239)
  || (c =? 8287) || (c =? 12288) || (c =? 65279).

Definition is_digit (c : char) : bool := in_range 48 57 c.
Definition is_upper (c : char) : bool := in_range 65 90 c.
Definition is_lower (c : char) : bool := in_range 97 122 c.
Definition is_letter (c : char) : bool := is_upper c || is_lower c.

(** The class escape [\w], also used by the assertion [\b]. *)
Definition is_word (c : char) : bool :=
  is_letter c || is_digit c || (c =? 95).

Fixpoint trim_start (s : jsstring) : jsstring :=
  match s with
  | c :: s' => if is_space c then trim_start s' else s
  | [] => []
  end.

Definition trim_end (s : jsstring) : jsstring := rev (trim_start (rev s)).

(** [String.prototype.trim] *)
Definition trim (s : jsstring) : jsstring := trim_end (trim_start s).

(** [a.startsWith(p)] as a test on the remaining input *)
Fixpoint starts_with (p s : jsstring) : bool :=
  match p, s with
  | [], _ => true
  | x :: p', y :: s' => (x =? y) && starts_with p' s'
  | _ :: _, [] => false
  end.

(** [String.prototype.includes]: plain substring containment. *)
Fixpoint includes (s p : jsstring) : bool :=
  starts_with p s ||
  match s with
  | [] => false
  | _ :: s' => includes s' p
  end.

(** [s.split('\n')]: the pieces between separators; never empty. *)
Fixpoint split_on (sep : char) (s : jsstring) : list jsstring :=
  match s with
  | [] => [[]]
  | c :: s' =>
      if c =? sep then [] :: split_on sep s'
      else match split_on sep s' with
           | piece :: more => (c :: piece) :: more
           | [] => [[c]]
           end
  end.

Definition NL : char := 10.

(** A value is truthy as a string when it is not empty. *)
Definition truthy (s : jsstring) : bool :=
  match s with [] => false | _ => true end.

(** ** Regular expressions *)

Inductive cesc := EscS | EscW | EscD.

Inductive citem :=
| CChar (c : char)
| CRange (lo hi : char)
| CEsc (e : cesc).

Inductive regex :=
| REmpty
| RChar (c : char)
| RClass (neg : bool) (items : list citem)
| RSeq (r1 r2 : regex)
| RAlt (r1 r2 : regex)
| RGroup (n : nat) (r : regex)
| RRep (r : regex) (min : nat) (max : option nat) (greedy : bool)
| RLookahead (r : regex)
| RWordB
| REnd.

(** Canonicalize for the [i] flag without the [u] flag: the upper-case
    image of a single code unit.  A code unit of 128 or more is never
    taken to one below 128, and every pattern of this program is written
    with code units below 128 or with case-less ones, so only the ASCII
    letters are folded here. *)
Definition canon (c : char) : char := if is_lower c then c - 32 else c.

Definition to_lower (c : char) : char := if is_upper c then c + 32 else c.

Definition esc_mem (e : cesc) (c : char) : bool :=
  match e with
  | EscS => is_space c
  | EscW => is_word c
  | EscD => is_digit c
  end.

Definition item_mem (it : citem) (c : char) : bool :=
  match it with
  | CChar a => a =? c
  | CRange lo hi => in_range lo hi c
  | CEsc e => esc_mem e c
  end.

(** With [i], a class accepts [c] when some member has the same
    canonical form; the members with the canonical form of [c] are [c],
    its upper-case and its lower-case image. *)
Definition class_mem (ic : bool) (items : list citem) (c : char) : bool :=
  existsb (fun it =>
    item_mem it c || (ic && (item_mem it (canon c) || item_mem it (to_lower c))))
    items.

Definition char_match (ic : bool) (a c : char) : bool :=
  if ic then canon a =? canon c else a =? c.

(** Match state: the input consumed so far (most recent first), the
    remaining input, and the captures. *)
Record MState := mkState {
  before : list char;
  rest : list char;
  caps : list (nat * jsstring)
}.

Definition Cont := MState -> option MState.
Definition Matcher := MState -> Cont -> option MState.

Definition advance (x : MState) : MState :=
  match rest x with
  | c :: tl => mkState (c :: before x) tl (caps x)
  | [] => x
  end.

Definition remaining (x : MState) : nat := length (rest x).

(** The input consumed between state [x] and a later state [y]. *)
Definition taken (x y : MState) : jsstring :=
  firstn (remaining x - remaining y) (rest x).

Definition set_cap (n : nat) (s : jsstring) (y : MState) : MState :=
  mkState (before y) (rest y) ((n, s) :: caps y).

Fixpoint cap_get (n : nat) (cs : list (nat * jsstring)) : option jsstring :=
  match cs with
  | [] => None
  | (i, s) :: cs' => if Nat.eqb i n then Some s else cap_get n cs'
  end.

Definition or_else {A} (a : option A) (b : option A) : option A :=
  match a with Some _ => a | None => b end.

Definition max_is_zero (max : option nat) : bool :=
  match max with Some O => true | _ => false end.

Definition max_pred (max : option nat) : option nat :=
  match max with Some n => Some (Nat.pred n) | None => None end.

(** RepeatMatcher.  [fuel] bounds the number of iterations; an iteration
    either lowers [min] or consumes input, so [remaining x + min + 1]
    is never exhausted (see [rep_fuel]).  No pattern of this program
    has a capture group under a quantifier whose capture is read, so the
    captures are not cleared between iterations. *)
Fixpoint rep (mr : Matcher) (fuel min : nat) (max : option nat)
    (greedy : bool) (x : MState) (k : Cont) {struct fuel} : option MState :=
  match fuel with
  | O => None
  | S f =>
      if max_is_zero max then k x else
      let d : Cont := fun y =>
        if Nat.eqb min 0 && Nat.eqb (remaining y) (remaining x) then None
        else rep mr f (Nat.pred min) (max_pred max) greedy y k in
      if negb (Nat.eqb min 0) then mr x d
      else if greedy then or_else (mr x d) (k x)
      else or_else (k x) (mr x d)
  end.

Definition word_at (o : option char) : bool :=
  match o with Some c => is_word c | None => false end.

(** The matcher of a pattern, by recursion on the pattern. *)
Fixpoint m (ic : bool) (r : regex) (x : MState) (k : Cont) {struct r}
  : option MState :=
  match r with
  | REmpty => k x
  | RChar a =>
      match rest x with
      | c :: _ => if char_match ic a c then k (advance x) else None
      | [] => None
      end
  | RClass neg items =>
      match rest x with
      | c :: _ => if xorb neg (class_mem ic items c) then k (advance x) else None
      | [] => None
      end
  | RSeq r1 r2 => m ic r1 x (fun y => m ic r2 y k)
  | RAlt r1 r2 => or_else (m ic r1 x k) (m ic r2 x k)
  | RGroup n r1 => m ic r1 x (fun y => k (set_cap n (taken x y) y))
  | RRep r1 min max greedy =>
      rep (m ic r1) (remaining x + min + 1) min max greedy x k
  | RLookahead r1 =>
      match m ic r1 x Some with
      | Some y => k (mkState (before x) (rest x) (caps y))
      | None => None
      end
  | RWordB =>
      if xorb (word_at (hd_error (before x))) (word_at (hd_error (rest x)))
      then k x else None
  | REnd => match rest x with [] => k x | _ :: _ => None end
  end.

(** A compiled pattern with its flags. *)
Record RegExp := mkRegExp { pattern : regex; ignoreCase : bool }.

Record MatchResult := mkMatch {
  index : nat;
  matched : jsstring;          (* result[0] *)
  groups : list (nat * jsstring)  (* result[n], absent when undefined *)
}.

(** One attempt at the position of state [x]. *)
Definition match_at (re : RegExp) (x : MState) : option MState :=
  m (ignoreCase re) (pattern re) x Some.

(** RegExpBuiltinExec without [g] and [y]: the first start position, from
    the left, at which the matcher succeeds. *)
Fixpoint scan (re : RegExp) (bef : list char) (s : jsstring)
  : option MatchResult :=
  let x := mkState bef s [] in
  match match_at re x with
  | Some y => Some (mkMatch (length bef) (taken x y) (caps y))
  | None =>
      match s with
      | [] => None
      | c :: s' => scan re (c :: bef) s'
      end
  end.

(** [text.match(re)] for a pattern without the [g] flag. *)
Definition str_match (text : jsstring) (re : RegExp) : option MatchResult :=
  scan re [] text.

(** [text.split(re)]: [piece] is the text since the last separator (most
    recent first).  An empty match at the start of a piece is skipped.
    A step consumes input or closes a piece that is not empty, so the fuel
    given by [split_re] is never exhausted (see [split_loop_fuel]). *)
Fixpoint split_loop (fuel : nat) (re : RegExp) (bef piece : list char)
    (s : jsstring) {struct fuel} : list jsstring :=
  match fuel with
  | O => [rev piece ++ s]
  | S f =>
      match s with
      | [] => [rev piece]
      | c :: s' =>
          let x := mkState bef s [] in
          match match_at re x with
          | Some y =>
              if Nat.eqb (remaining y) (remaining x) && negb (truthy piece)
              then split_loop f re (c :: bef) (c :: piece) s'
              else rev piece :: split_loop f re (before y) [] (rest y)
          | None => split_loop f re (c :: bef) (c :: piece) s'
          end
      end
  end.

Definition split_re (s : jsstring) (re : RegExp) : list jsstring :=
  match s with
  | [] => match match_at re (mkState [] [] []) with
          | Some _ => []
          | None => [[]]
          end
  | _ => split_loop (2 * length s + 1) re [] [] s
  end.

(** ** Writing patterns *)

Arguments ch a%_char.

Fixpoint seq (rs : list regex) : regex :=
  match rs with
  | [] => REmpty
  | [r] => r
  | r :: rs' => RSeq r (seq rs')
  end.

(** A run of literal characters *)
Definition lit (s : string) : regex := seq (map RChar (u s)).

Definition star (r : regex) : regex := RRep r 0 None true.
Definition plus (r : regex) : regex := RRep r 1 None true.
Definition plus_lazy (r : regex) : regex := RRep r 1 None false.
Definition opt (r : regex) : regex := RRep r 0 (Some 1%nat) true.
Definition times (r : regex) (lo hi : nat) : regex := RRep r lo (Some hi) true.
Definition at_least (r : regex) (lo : nat) : regex := RRep r lo None true.

Definition esc (e : cesc) : regex := RClass false [CEsc e].
Definition any_char : regex := RClass true [].           (* [^] *)
Definition not_newline : regex := RClass true [CChar NL]. (* [^\n] *)

(** ** The patterns of the program *)

(** [[A-Za-z0-9._%+-]] *)
Definition local_class : list citem :=
  [CRange (ch "A") (ch "Z"); CRange (ch "a") (ch "z"); CRange (ch "0") (ch "9");
   CChar (ch "."); CChar (ch "_"); CChar (ch "%"); CChar (ch "+"); CChar (ch "-")].

(** [[A-Za-z0-9.-]] *)
Definition domain_class : list citem :=
  [CRange (ch "A") (ch "Z"); CRange (ch "a") (ch "z"); CRange (ch "0") (ch "9");
   CChar (ch "."); CChar (ch "-")].

(** [[A-Z|a-z]]: the bar is a member of the class. *)
Definition tld_class : list citem :=
  [CRange (ch "A") (ch "Z"); CChar (ch "|"); CRange (ch "a") (ch "z")].

(** [/\b[A-Za-z0-9._%+-]+@[A-Za-z0-9.-]+\.[A-Z|a-z]{2,}\b/] *)
Definition re_email : RegExp :=
  mkRegExp
    (seq [RWordB; plus (RClass false local_class); RChar (ch "@");
          plus (RClass false domain_class); RChar (ch ".");
          at_least (RClass false tld_class) 2; RWordB])
    false.

(** [[\s.-]] *)
Definition phone_sep : regex :=
  RClass false [CEsc EscS; CChar (ch "."); CChar (ch "-")].

(** [/(\+?\d{1,2}\s?)?\(?\d{3}\)?[\s.-]?\d{3}[\s.-]?\d{4}\b/] *)
Definition re_phone : RegExp :=
  mkRegExp
    (seq [opt (RGroup 1 (seq [opt (RChar (ch "+")); times (esc EscD) 1 2;
                              opt (esc EscS)]));
          opt (RChar (ch "(")); times (esc EscD) 3 3; opt (RChar (ch ")"));
          opt phone_sep; times (esc EscD) 3 3; opt phone_sep;
          times (esc EscD) 4 4; RWordB])
    false.

(** [(?=\n\w+:|$)] *)
Definition next_heading : regex :=
  RLookahead (RAlt (seq [RChar NL; plus (esc EscW); RChar (ch ":")]) REnd).

(** [/(h1|h2|h3):?\s*([^]+?)(?=\n\w+:|$)/i] *)
Definition section_re (h1 h2 h3 : string) : RegExp :=
  mkRegExp
    (seq [RGroup 1 (RAlt (lit h1) (RAlt (lit h2) (lit h3)));
          opt (RChar (ch ":")); star (esc EscS);
          RGroup 2 (plus_lazy any_char); next_heading])
    true.

Definition re_skills : RegExp :=
  section_re "skills" "technical skills" "key skills".
Definition re_experience : RegExp :=
  section_re "experience" "work history" "employment history".
Definition re_education : RegExp :=
  section_re "education" "academic background" "qualifications".

(** [/[,;â€¢]+\s*/]: the three code units after the semicolon are U+00E2,
    U+20AC and U+00A2, as the source file has them. *)
Definition re_skill_sep : RegExp :=
  mkRegExp
    (seq [plus (RClass false [CChar (ch ","); CChar (ch ";");
                              CChar 226; CChar 8364; CChar 162]);
          star (esc EscS)])
    false.

(** [[A-Z][a-zA-Z0-9\s-]*] *)
Definition capitalized_phrase : regex :=
  seq [RClass false [CRange (ch "A") (ch "Z")];
       star (RClass false [CRange (ch "a") (ch "z"); CRange (ch "A") (ch "Z");
                           CRange (ch "0") (ch "9"); CEsc EscS; CChar (ch "-")])].

(** [/at\s+(P)/i], with [P] the pattern of [capitalized_phrase] *)
Definition re_at : RegExp :=
  mkRegExp (seq [lit "at"; plus (esc EscS); RGroup 1 capitalized_phrase]) true.

(** [/about\s+(P)/i], with [P] the pattern of [capitalized_phrase] *)
Definition re_about : RegExp :=
  mkRegExp (seq [lit "about"; plus (esc EscS); RGroup 1 capitalized_phrase]) true.

(** [/label\s*([^\n]+)/i] *)
Definition label_re (label : string) : RegExp :=
  mkRegExp (seq [lit label; star (esc EscS); RGroup 1 (plus not_newline)]) true.

(** [/phrase\s+([^\n]+)/i] *)
Definition phrase_re (phrase : string) : RegExp :=
  mkRegExp (seq [lit phrase; plus (esc EscS); RGroup 1 (plus not_newline)]) true.

Definition re_company : RegExp := label_re "company:".
Definition re_position : RegExp := label_re "position:".
Definition re_role : RegExp := label_re "role:".
Definition re_looking : RegExp := phrase_re "looking for a".
Definition re_seeking : RegExp := phrase_re "seeking a".

(** ** Outcomes of JavaScript code *)

Inductive JsError := TypeError | ReferenceError.

Inductive Outcome (A : Type) :=
| Ok (a : A)
| Throw (e : JsError).
Arguments Ok {A} a.
Arguments Throw {A} e.

Definition bind {A B} (o : Outcome A) (f : A -> Outcome B) : Outcome B :=
  match o with
  | Ok a => f a
  | Throw e => Throw e
  end.

Notation "x <- c ;; k" := (bind c (fun x => k))
  (at level 61, c at next level, right associativity).

(** [v.trim()] on a value that may be [undefined] *)
Definition trim_of (v : option jsstring) : Outcome jsstring :=
  match v with
  | Some s => Ok (trim s)
  | None => Throw TypeError
  end.

(** ** extractResumeData *)

Record ResumeRecord := mkResume {
  name : jsstring;
  email : jsstring;
  phone : jsstring;
  experience : list jsstring;
  education : list jsstring;
  skills : list jsstring
}.

(** [xs.length ? xs : [fallback]] *)
Definition or_placeholder (xs : list jsstring) (fallback : string)
  : list jsstring :=
  match xs with
  | [] => [u fallback]
  | _ :: _ => xs
  end.

Definition matched_or_empty (r : option MatchResult) : jsstring :=
  match r with
  | Some res => matched res
  | None => []
  end.

Definition extract_skills (text : jsstring) : list jsstring :=
  match str_match text re_skills with
  | Some skillsSection =>
      map trim
        (filter (fun skill =>
                   truthy (trim skill) && Nat.ltb 2 (length (trim skill)))
           (flat_map (fun line => split_re line re_skill_sep)
              (skipn 1 (split_on NL (matched skillsSection)))))
  | None => []
  end.

(** The lines of a section after its first, kept when longer than ten. *)
Definition extract_lines (text : jsstring) (re : RegExp) : list jsstring :=
  match str_match text re with
  | Some section =>
      map trim
        (filter (fun line =>
                   truthy (trim line) && Nat.ltb 10 (length (trim line)))
           (skipn 1 (split_on NL (matched section))))
  | None => []
  end.

Definition extractResumeData (text : jsstring) : Outcome ResumeRecord :=
  let lines := filter (fun line => truthy (trim line)) (split_on NL text) in
  name <- trim_of (nth_error lines 0) ;;
  let email := matched_or_empty (str_match text re_email) in
  let phone := matched_or_empty (str_match text re_phone) in
  let skills := extract_skills text in
  let experience := extract_lines text re_experience in
  let education := extract_lines text re_education in
  Ok (mkResume name email phone
        (or_placeholder experience "Various professional experiences")
        (or_placeholder education "Relevant educational background")
        (or_placeholder skills "Various professional skills")).

(** ** analyzeJobDescription *)

Record JobRecord := mkJob {
  company : jsstring;
  role : jsstring;
  requirements : list jsstring
}.

(** [if (jdText.includes(trigger)) requirements.push(phrase)] *)
Definition push_if (jdText : jsstring) (requirements : list jsstring)
    (check : string * string) : list jsstring :=
  if includes jdText (u (fst check))
  then requirements ++ [u (snd check)]
  else requirements.

Definition trigger_checks : list (string * string) :=
  [("experience", "X years of experience");
   ("degree", "Bachelor's degree or higher");
   ("communication", "Strong communication skills");
   ("team", "Team player");
   ("leadership", "Leadership abilities")]%string.

Definition skillKeywords : list string :=
  ["JavaScript"; "Python"; "Java"; "C++"; "React"; "Angular";
   "Node.js"; "SQL"; "NoSQL"; "AWS"; "Azure"; "Docker";
   "Kubernetes"; "CI/CD"; "Agile"; "Scrum"; "Figma";
   "Photoshop"; "Illustrator"; "SEO"; "SEM"; "Google Analytics";
   "Email Marketing"; "Social Media"; "Content Creation"]%string.

Definition build_requirements (jdText : jsstring) : list jsstring :=
  let requirements := fold_left (push_if jdText) trigger_checks [] in
  fold_left (push_if jdText) (map (fun skill => (skill, skill)) skillKeywords)
    requirements.

(** [m ? m[1].trim() : fallback] *)
Definition group1_or (r : option MatchResult) (fallback : string)
  : Outcome jsstring :=
  match r with
  | Some res => trim_of (cap_get 1 (groups res))
  | None => Ok (u fallback)
  end.

Definition analyzeJobDescription (jdText : jsstring) : Outcome JobRecord :=
  let companyMatch :=
    or_else (str_match jdText re_at)
      (or_else (str_match jdText re_company) (str_match jdText re_about)) in
  let roleMatch :=
    or_else (str_match jdText re_position)
      (or_else (str_match jdText re_role)
         (or_else (str_match jdText re_looking) (str_match jdText re_seeking))) in
  let requirements := build_requirements jdText in
  company <- group1_or companyMatch "the company" ;;
  role <- group1_or roleMatch "the position" ;;
  Ok (mkJob company role
        (or_placeholder requirements "Various skills and experiences")).

Definition jd_example : jsstring :=
  u "We are looking for a Backend Engineer at Acme Corp. Must have experience with Docker and AWS.".

(** ** Requests, responses and the module scope *)

#[local] Unset Elimination Schemes.
(** JSON values; a number is kept as a natural, of which only being
    zero matters here. *)
Inductive JsValue :=
| VUndefined
| VNull
| VBool (b : bool)
| VNum (n : N)
| VStr (s : jsstring)
| VArr (items : list JsValue)
| VObj (fields : list (string * JsValue)).
#[local] Set Elimination Schemes.

(** [obj.field]; [undefined] when the object has no such field. *)
Fixpoint get_field (fields : list (string * JsValue)) (field : string)
  : JsValue :=
  match fields with
  | [] => VUndefined
  | (f, v) :: more => if String.eqb f field then v else get_field more field
  end.

(** [!v] is false exactly on the truthy values. *)
Definition is_truthy (v : JsValue) : bool :=
  match v with
  | VUndefined | VNull => false
  | VBool b => b
  | VNum n => negb (n =? 0)
  | VStr s => truthy s
  | VArr _ | VObj _ => true
  end.

(** [v === 'literal'] *)
Definition strict_eq_str (v : JsValue) (literal : string) : bool :=
  match v with
  | VStr s => str_eqb s (u literal)
  | _ => false
  end.

Record Response := mkResponse { status : nat; json : JsValue }.

Definition str (s : string) : JsValue := VStr (u s).

(** The names bound at the top level of the module.  [RequestLog] and
    [Payment] are not among them: their declarations are commented out. *)
Definition module_scope : list string :=
  ["express"; "multer"; "pdf"; "mammoth"; "axios"; "cors"; "bodyParser";
   "rateLimit"; "winston"; "body"; "validationResult"; "Razorpay";
   "mongoose"; "app"; "PORT"; "GEMINI_API_KEY"; "RAZORPAY_KEY_ID";
   "RAZORPAY_KEY_SECRET"; "MONGODB_URI"; "ALLOWED_FILE_TYPES"; "razorpay";
   "logger"; "limiter"; "storage"; "upload"; "verifyPayment";
   "extractResumeData"; "analyzeJobDescription"; "generateCoverLetter"]%string.

Definition declared (scope : list string) (name : string) : bool :=
  existsb (String.eqb name) scope.

(** Reading an identifier: the value of a local, or a ReferenceError
    when neither the function nor the module binds the name. *)
Definition read_var (locals : list (string * JsValue)) (name : string)
  : Outcome JsValue :=
  if declared (map fst locals ++ module_scope) name
  then Ok (get_field locals name)
  else Throw ReferenceError.

Definition error_message (e : JsError) (what : string) : JsValue :=
  match e with
  | ReferenceError => VStr (u what ++ u " is not defined")
  | TypeError => VStr (u "Cannot read properties of undefined")
  end.

(** ** POST /analyze-jd *)

Definition job_to_json (jd : JobRecord) : JsValue :=
  VObj [("company", VStr (company jd)); ("role", VStr (role jd));
        ("requirements", VArr (map VStr (requirements jd)))]%string.

(** Calling [analyzeJobDescription] on a value: only a string has
    [match] and [includes]. *)
Definition call_analyze (v : JsValue) : Outcome JobRecord :=
  match v with
  | VStr s => analyzeJobDescription s
  | _ => Throw TypeError
  end.

Section AnalyzeJd.
(** [process.env.NODE_ENV === 'development'] *)
Variable development : bool.
(** What the validation library reports on a request for the chain
    [body('jobDescription').isLength({ min: 20 })]: the list that
    [validationResult(req).array()] gives, empty when the check passes.
    The library is not part of the program; how it counts characters and
    what it makes of a value that is no string is its own matter. *)
Variable validation_errors : list (string * JsValue) -> list JsValue.

Definition analyze_jd_handler (body : list (string * JsValue)) : Response :=
  let errors := validation_errors body in
  if negb (match errors with [] => true | _ :: _ => false end)
  then mkResponse 400
         (VObj [("error", str "Invalid job description");
                ("message", str "Job description must be at least 20 characters long");
                ("errors", VArr errors)]%string)
  else
    let jobDescription := get_field body "jobDescription" in
    let locals := [("req", VObj [("body", VObj body)]); ("res", VObj []);
                   ("errors", VArr errors);
                   ("jobDescription", jobDescription)]%string in
    match (jdText <- read_var locals "jdText" ;; call_analyze jdText) with
    | Ok jdData =>
        mkResponse 200
          (VObj [("success", VBool true); ("data", job_to_json jdData)]%string)
    | Throw error =>
        mkResponse 500
          (VObj [("error", str "Error analyzing job description");
                 ("message", str "Could not process the job description");
                 ("details", if development
                             then error_message error "jdText"
                             else VUndefined)]%string)
    end.
End AnalyzeJd.

(** ** verifyPayment *)

(** What the middleware does to the outside, in order. *)
Inductive Effect :=
| LogInfo (msg : string)
| LogError (msg : string)
| PaymentsFetch (paymentId : JsValue).

(** How the middleware ends: it hands over to the next handler, or it
    answers the request itself. *)
Inductive Control :=
| Next
| Respond (r : Response).

Definition payment_error (code : nat) (error message : string) : Control :=
  Respond (mkResponse code
             (VObj [("error", str error); ("message", str message)]%string)).

Section VerifyPayment.
(** [razorpay.payments.fetch]: the payment object, or a rejection. *)
Variable fetch : JsValue -> option (list (string * JsValue)).

Definition verifyPayment (body : list (string * JsValue))
  : list Effect * Control :=
  let paymentId := get_field body "paymentId" in
  let promoCode := get_field body "promoCode" in
  if strict_eq_str promoCode "070605"
  then ([LogInfo "Promo code used for free access"], Next)
  else if negb (is_truthy paymentId)
  then ([], payment_error 403 "Payment required"
              "Please complete payment to generate cover letter")
  else
    let failed :=
      payment_error 500 "Payment verification failed"
        "Could not verify your payment" in
    match fetch paymentId with
    | None =>
        ([PaymentsFetch paymentId; LogError "Payment verification failed:"],
         failed)
    | Some payment =>
        if negb (strict_eq_str (get_field payment "status") "captured")
        then ([PaymentsFetch paymentId],
              payment_error 403 "Payment not completed"
                "Your payment was not successful")
        else if declared module_scope "Payment"
        then ([PaymentsFetch paymentId], Next)
        else ([PaymentsFetch paymentId;
               LogError "Payment verification failed:"], failed)
    end.
End VerifyPayment.

(** ** Vocabulary of the properties *)

(** [reach x y]: state [y] is state [x] after consuming some input [s]. *)
Definition reach (x y : MState) : Prop :=
  exists s, rest x = s ++ rest y /\ before y = rev s ++ before x.

(** A matcher answers only through its continuation, on a state further
    along the same input. *)
Definition forward (mr : Matcher) : Prop :=
  forall x k z, mr x k = Some z -> exists y, reach x y /\ k y = Some z.

(** A matcher looks at its continuation only on such states. *)
Definition local (mr : Matcher) : Prop :=
  forall x k k', (forall y, reach x y -> k y = k' y) -> mr x k = mr x k'.

Definition ends_in_group1 (re : RegExp) : Prop :=
  exists r1 r2 r3, pattern re = RSeq r1 (RSeq r2 (RGroup 1 r3)).

(** The value of capture [n] of a result, empty when undefined. *)
Definition group (n : nat) (res : MatchResult) : jsstring :=
  match cap_get n (groups res) with
  | Some s => s
  | None => []
  end.

(** The checks of [analyzeJobDescription] in the order the code makes
    them: the five trigger phrases, then the curated keywords. *)
Definition check_order : list (string * string) :=
  trigger_checks ++ map (fun skill => (skill, skill)) skillKeywords.

Definition present (text : jsstring) (check : string * string) : bool :=
  includes text (u (fst check)).

Definition phrase (check : string * string) : jsstring := u (snd check).

(** [subseq xs ys]: [xs] is [ys] with some entries left out, order kept. *)
Inductive subseq {A : Type} : list A -> list A -> Prop :=
| subseq_nil : subseq [] []
| subseq_skip x xs ys : subseq xs ys -> subseq xs (x :: ys)
| subseq_keep x xs ys : subseq xs ys -> subseq (x :: xs) (x :: ys).

(** Every line of the text is blank. *)
Definition all_blank (text : jsstring) : Prop :=
  forall line, In line (split_on NL text) -> trim line = [].

(** A request body that carries the job text of the example. *)
Definition example_request : list (string * JsValue) :=
  [("jobDescription"%string, VStr jd_example)].

(** The company as the three patterns give it, first match first. *)
Definition company_by_precedence (text : jsstring) : jsstring :=
  match str_match text re_at with
  | Some res => trim (group 1 res)
  | None =>
      match str_match text re_company with
      | Some res => trim (group 1 res)
      | None =>
          match str_match text re_about with
          | Some res => trim (group 1 res)
          | None => u "the company"
          end
      end
  end.

(** [skip n x]: state [x] after consuming [n] more characters. *)
Fixpoint skip (n : nat) (x : MState) : MState :=
  match n with
  | O => x
  | S n' => skip n' (advance x)
  end.

(** The length of the longest prefix of [s] made of characters in [p]. *)
Fixpoint run_len (p : char -> bool) (s : jsstring) : nat :=
  match s with
  | c :: s' => if p c then S (run_len p s') else O
  | [] => O
  end.

(** The order in which a greedy quantifier over one-character patterns
    offers its continuation the input: after [n] characters first, then
    after fewer, never fewer than [lo]. *)
Fixpoint try_down (k : Cont) (n lo : nat) (x : MState) : option MState :=
  match n with
  | O => if Nat.eqb lo 0 then k x else None
  | S n' =>
      match lo with
      | O => or_else (try_down k n' 0 (advance x)) (k x)
      | S lo' => try_down k n' lo' (advance x)
      end
  end.

(** A pattern that consumes exactly one character, one accepted by [p]. *)
Definition one_char (ic : bool) (r : regex) (p : char -> bool) : Prop :=
  forall x k,
    m ic r x k =
    match rest x with
    | c :: _ => if p c then k (advance x) else None
    | [] => None
    end.

(** [s] begins with the literal [l], up to case when [ic] is set. *)
Fixpoint lit_at (ic : bool) (l s : jsstring) : bool :=
  match l, s with
  | [], _ => true
  | a :: l', c :: s' => char_match ic a c && lit_at ic l' s'
  | _ :: _, [] => false
  end.

(** The order in which a lazy quantifier offers its continuation the
    input: after [lo] characters first, then after more, up to [n]. *)
Fixpoint try_up (k : Cont) (n lo : nat) (x : MState) : option MState :=
  match n with
  | O => if Nat.eqb lo 0 then k x else None
  | S n' =>
      match lo with
      | O => or_else (k x) (try_up k n' 0 (advance x))
      | S lo' => try_up k n' lo' (advance x)
      end
  end.

(** [s] is one of the three skills headings, in any letter case. *)
Definition same_ci (a b : jsstring) : Prop := map canon a = map canon b.








(** The text made of the given lines. *)
Fixpoint unlines (ls : list string) : jsstring :=
  match ls with
  | [] => []
  | [l] => u l
  | l :: more => u l ++ NL :: unlines more
  end.

(** A resume with the skills on the line after the heading. *)
Definition resume_skills_below : jsstring :=
  unlines ["Jane Roe"; "Skills:"; "Go, Rust; Python"; "Education:";
           "B.S. Computer Science, MIT"]%string.



(** ** Vocabulary of the email property *)

(** Letters, digits and [._%+-] *)
Definition is_local (c : char) : bool :=
  is_letter c || is_digit c || (ch "." =? c) || (ch "_" =? c)
  || (ch "%" =? c) || (ch "+" =? c) || (ch "-" =? c).

(** Letters, digits and [.-] *)
Definition is_domain (c : char) : bool :=
  is_letter c || is_digit c || (ch "." =? c) || (ch "-" =? c).

(** The last class of the pattern as the code has it: letters and the bar *)
Definition is_tld (c : char) : bool := is_letter c || (ch "|" =? c).

(** [s] reads local part, at sign, domain, dot, and two or more
    characters of the class [tld]. *)
Definition email_shape (tld : char -> bool) (s : jsstring) : Prop :=
  exists l d t,
    s = l ++ ch "@" :: d ++ ch "." :: t /\
    l <> [] /\ Forall (fun c => is_local c = true) l /\
    d <> [] /\ Forall (fun c => is_domain c = true) d /\
    (2 <= length t)%nat /\ Forall (fun c => tld c = true) t.

(** The assertion [\b] between the text [bef] read so far and the text
    [aft] still to come. *)
Definition boundary (bef aft : jsstring) : bool :=
  xorb (word_at (hd_error (rev bef))) (word_at (hd_error aft)).

(** [s] stands in the text between [pre] and [post], has the shape of an
    email address, and begins and ends at a word boundary. *)
Definition bounded_email (tld : char -> bool) (pre s post : jsstring) : Prop :=
  email_shape tld s /\
  boundary pre (s ++ post) = true /\ boundary (pre ++ s) post = true.

(** The pattern, from the at sign on and from the dot on *)
Definition email_tail3 : Cont := fun y => m false RWordB y Some.
Definition email_tail2 : Cont := fun y =>
  m false (RChar (ch ".")) y
    (fun y' => m false (at_least (RClass false tld_class) 2) y' email_tail3).
Definition email_tail1 : Cont := fun y =>
  m false (RChar (ch "@")) y
    (fun y' => m false (plus (RClass false domain_class)) y' email_tail2).

(** [\b] at the position of a state *)
Definition bnd (y : MState) : bool :=
  xorb (word_at (hd_error (before y))) (word_at (hd_error (rest y))).

(** The next character of a state is [a]. *)
Definition next_is (a : char) (y : MState) : bool :=
  match rest y with
  | c :: _ => a =? c
  | [] => false
  end.

(** [okT y nt]: from state [y], [nt] characters form the last part of an
    address: two or more of the class, ending at a word boundary. *)
Definition okT (y : MState) (nt : nat) : Prop :=
  (2 <= nt <= run_len is_tld (rest y))%nat /\ bnd (skip nt y) = true.

(** [okD y nd nt]: from state [y], a domain of [nd] characters, a dot,
    and a last part of [nt] characters. *)
Definition okD (y : MState) (nd nt : nat) : Prop :=
  (1 <= nd <= run_len is_domain (rest y))%nat /\
  next_is (ch ".") (skip nd y) = true /\
  okT (skip (S nd) y) nt.

(** [okL x nl nd nt]: an address begins at state [x], with a local part
    of [nl] characters, a domain of [nd] and a last part of [nt]. *)
Definition okL (x : MState) (nl nd nt : nat) : Prop :=
  bnd x = true /\
  (1 <= nl <= run_len is_local (rest x))%nat /\
  next_is (ch "@") (skip nl x) = true /\
  okD (skip (S nl) x) nd nt.

(** A line of contact details. *)
Definition contact_line : jsstring :=
  u "Jane Roe <jane.roe@example.co.uk>".

(** ** The company patterns as the specification words them *)

(** "at" followed by a capitalized phrase: the pattern of [re_at] read
    without the [i] flag, so that the phrase begins with a capital. *)
Definition re_at_as_stated : RegExp := mkRegExp (pattern re_at) false.

(** "about" followed by a capitalized phrase, likewise. *)
Definition re_about_as_stated : RegExp := mkRegExp (pattern re_about) false.

Definition company_as_stated (text : jsstring) : jsstring :=
  match str_match text re_at_as_stated with
  | Some res => trim (group 1 res)
  | None =>
      match str_match text re_company with
      | Some res => trim (group 1 res)
      | None =>
          match str_match text re_about_as_stated with
          | Some res => trim (group 1 res)
          | None => u "the company"
          end
      end
  end.

(** A job description in which "at" is followed by a phrase in lower case. *)
Definition jd_lower_case : jsstring := u "we work at home. company: Acme".

(** ** Vocabulary of the further properties *)

(** [s] has no white space at either end. *)
Definition trimmed (s : jsstring) : Prop :=
  (forall c tl, s = c :: tl -> is_space c = false) /\
  (forall c tl, rev s = c :: tl -> is_space c = false).

(** The literal [l] occurs somewhere in [s], in any letter case. *)
Fixpoint occurs_ci (l s : jsstring) : bool :=
  lit_at true l s ||
  match s with
  | [] => false
  | _ :: s' => occurs_ci l s'
  end.

(** The members of the separator class of [re_skill_sep] *)
Definition is_skill_sep (c : char) : bool :=
  (ch "," =? c) || (ch ";" =? c) || (226 =? c) || (8364 =? c) || (162 =? c).

(** The role as the four patterns give it, first match first. *)
Definition role_by_precedence (text : jsstring) : jsstring :=
  match str_match text re_position with
  | Some res => trim (group 1 res)
  | None =>
      match str_match text re_role with
      | Some res => trim (group 1 res)
      | None =>
          match str_match text re_looking with
          | Some res => trim (group 1 res)
          | None =>
              match str_match text re_seeking with
              | Some res => trim (group 1 res)
              | None => u "the position"
              end
          end
      end
  end.

(** A job text whose position label stands alone on its line *)
Definition jd_label_alone : jsstring :=
  (u "Hiring now." ++ [NL]) ++ u "Position:" ++ (u " " ++ [NL; NL] ++ u "  ") ++
  u "Senior Developer " ++ (NL :: u "Role: other").

(** ** POST /upload *)

Record UploadedFile := mkFile {
  mimetype : jsstring;
  buffer : list N
}.

Definition ALLOWED_FILE_TYPES : list string :=
  ["application/pdf";
   "application/vnd.openxmlformats-officedocument.wordprocessingml.document"]%string.

(** The [fileFilter] of the upload: [true] for [cb(null, true)], [false]
    for the error "Invalid file type". *)
Definition fileFilter (file : UploadedFile) : bool :=
  existsb (fun t => str_eqb (u t) (mimetype file)) ALLOWED_FILE_TYPES.

(** What a document parser answers: the text, or a rejection with its
    message. *)
Inductive Parsed :=
| ParsedText (text : jsstring)
| ParseFailed (message : JsValue).

Definition resume_to_json (r : ResumeRecord) : JsValue :=
  VObj [("name", VStr (name r)); ("email", VStr (email r));
        ("phone", VStr (phone r));
        ("experience", VArr (map VStr (experience r)));
        ("education", VArr (map VStr (education r)));
        ("skills", VArr (map VStr (skills r)))]%string.

Section Upload.
(** [process.env.NODE_ENV === 'development'] *)
Variable development : bool.
(** [pdf(buffer)], read at [data.text], and
    [mammoth.extractRawText({ buffer })], read at [result.value] *)
Variable pdf : list N -> Parsed.
Variable extractRawText : list N -> Parsed.
(** The message the engine gives a TypeError *)
Variable type_error_message : JsError -> JsValue.

Definition upload_failed (message : JsValue) : Response :=
  mkResponse 500
    (VObj [("error", str "Error processing resume");
           ("message", str "Could not parse your resume file");
           ("details", if development then message else VUndefined)]%string).

Definition parse_file (file : UploadedFile) : Parsed :=
  if str_eqb (mimetype file) (u "application/pdf")
  then pdf (buffer file)
  else extractRawText (buffer file).

Definition upload_handler (file : option UploadedFile) : Response :=
  match file with
  | None =>
      mkResponse 400
        (VObj [("error", str "No file uploaded");
               ("message", str "Please upload your resume file");
               ("allowedTypes", VArr (map str ALLOWED_FILE_TYPES))]%string)
  | Some f =>
      match parse_file f with
      | ParseFailed message => upload_failed message
      | ParsedText textContent =>
          match extractResumeData textContent with
          | Ok resumeData =>
              mkResponse 200
                (VObj [("success", VBool true);
                       ("data", resume_to_json resumeData)]%string)
          | Throw error => upload_failed (type_error_message error)
          end
      end
  end.
End Upload.

(** ** Values as the generation handler reads them *)

(** [v.key] for the property names read below, on a value that is neither
    [undefined] nor [null]: only an object has such a property. *)
Definition prop (v : JsValue) (key : string) : JsValue :=
  match v with
  | VObj fields => get_field fields key
  | _ => VUndefined
  end.

(** [v?.key] *)
Definition opt_prop (v : JsValue) (key : string) : JsValue :=
  match v with
  | VUndefined | VNull => VUndefined
  | _ => prop v key
  end.

(** [v?.[0]] *)
Definition opt_first (v : JsValue) : JsValue :=
  match v with
  | VArr (x :: _) => x
  | VStr (c :: _) => VStr [c]
  | VObj fields => get_field fields "0"
  | _ => VUndefined
  end.

(** [pieces.join(sep)] on strings *)
Fixpoint join_with (sep : jsstring) (pieces : list jsstring) : jsstring :=
  match pieces with
  | [] => []
  | [p] => p
  | p :: more => p ++ sep ++ join_with sep more
  end.

(** All the answers of a list, when none is missing. *)
Fixpoint all_some {A} (l : list (option A)) : option (list A) :=
  match l with
  | [] => Some []
  | None :: _ => None
  | Some a :: more =>
      match all_some more with
      | Some rest => Some (a :: rest)
      | None => None
      end
  end.

(** The object has a field of its own with this name. *)
Definition has_field (fields : list (string * JsValue)) (field : string)
  : bool :=
  existsb (fun entry => String.eqb (fst entry) field) fields.

(** What went wrong in the generation, as the catch clause sees it: a
    TypeError raised at a place of the code on a value, the model's
    answer without a text, or the rejected request. *)
Inductive Failure :=
| TypeErrorAt (site : string) (value : JsValue)
| UnexpectedFormat
| RequestFailed (response : JsValue) (message : JsValue).

Inductive Attempt (A : Type) :=
| Done (a : A)
| Failed (f : Failure).
Arguments Done {A} a.
Arguments Failed {A} f.

(** What [axios.post] answers: the data of the response, or a rejection
    with [error.response] ([undefined] when there was no response) and
    [error.message]. *)
Inductive PostResult :=
| PostOk (data : JsValue)
| PostRejected (response : JsValue) (message : JsValue).

Section Generate.
(** [process.env.GEMINI_API_KEY] and [NODE_ENV === 'development'] *)
Variable GEMINI_API_KEY : option jsstring.
Variable development : bool.
(** [new Date().toISOString()] at the time of the answer *)
Variable now : jsstring.
(** The POST to the model with a prompt *)
Variable post : jsstring -> PostResult.
(** The decimal form the engine gives a number, and the message it gives
    the TypeError raised at a place of the code on a value *)
Variable number_to_string : N -> jsstring.
Variable type_error_text : string -> JsValue -> JsValue.

(** ToString on a JSON value; [None] when it raises a TypeError. An
    array is joined with commas, [undefined] and [null] entries giving
    the empty string. An object gives "[object Object]" by the inherited
    [toString]; a field of its own with that name hides the inherited
    one and, not being callable, leaves no way to a primitive value. *)
Fixpoint to_string (v : JsValue) : option jsstring :=
  match v with
  | VUndefined => Some (u "undefined")
  | VNull => Some (u "null")
  | VBool true => Some (u "true")
  | VBool false => Some (u "false")
  | VNum n => Some (number_to_string n)
  | VStr s => Some s
  | VArr items =>
      option_map (join_with (u ","))
        (all_some
           (map (fun x => match x with
                          | VUndefined | VNull => Some []
                          | _ => to_string x
                          end) items))
  | VObj fields =>
      if has_field fields "toString" then None
      else Some (u "[object Object]")
  end.

(** The text of an array entry in [join] *)
Definition piece (x : JsValue) : option jsstring :=
  match x with
  | VUndefined | VNull => Some []
  | _ => to_string x
  end.

(** [`${v}`] at a place of the code *)
Definition string_of (site : string) (v : JsValue) : Attempt jsstring :=
  match to_string v with
  | Some s => Done s
  | None => Failed (TypeErrorAt site v)
  end.

(** [v.join(sep)]: only an array has [join]. *)
Definition join_of (site : string) (v : JsValue) (sep : string)
  : Attempt jsstring :=
  match v with
  | VArr items =>
      match all_some (map piece items) with
      | Some pieces => Done (join_with (u sep) pieces)
      | None => Failed (TypeErrorAt site v)
      end
  | _ => Failed (TypeErrorAt site v)
  end.

Definition then_ {A B} (a : Attempt A) (f : A -> Attempt B) : Attempt B :=
  match a with
  | Done x => f x
  | Failed e => Failed e
  end.

(** The prompt of [generateCoverLetter], piece by piece, the values
    turned into text in the order of the template. *)
Definition build_prompt (resumeData : JsValue) (jdData : JobRecord)
    (tone : JsValue) : Attempt jsstring :=
  then_ (string_of "name" (prop resumeData "name"))
    (fun name =>
  then_ (string_of "email" (prop resumeData "email"))
    (fun email =>
  then_ (string_of "phone"
           (if is_truthy (prop resumeData "phone")
            then prop resumeData "phone" else str "Not specified"))
    (fun phone =>
  then_ (join_of "experience" (prop resumeData "experience") "; ")
    (fun experience =>
  then_ (join_of "education" (prop resumeData "education") "; ")
    (fun education =>
  then_ (join_of "skills" (prop resumeData "skills") ", ")
    (fun skills =>
  let requirements :=
    join_with (NL :: u "- ") (requirements jdData) in
  then_ (string_of "tone" tone)
    (fun tone =>
  Done (
      [NL] ++ u "    Write a professional cover letter for " ++
      name ++ u " applying for the " ++ (role jdData) ++
      u " position at " ++ (company jdData) ++ u "." ++ [NL] ++ u "    " ++
      [NL] ++ u "    Resume Information:" ++ [NL] ++ u "    - Name: " ++
      name ++ [NL] ++ u "    - Email: " ++ email ++
      [NL] ++ u "    - Phone: " ++ phone ++ [NL] ++
      u "    - Experience: " ++ experience ++ [NL] ++ u "    - Education: " ++
      education ++ [NL] ++ u "    - Skills: " ++ skills ++ [NL] ++ u "    " ++
      [NL] ++ u "    Job Requirements:" ++ [NL] ++ u "    " ++ requirements ++
      [NL] ++ u "    " ++ [NL] ++ u "    Tone: " ++ tone ++ [NL] ++
      u "    " ++ [NL] ++ u "    Requirements:" ++ [NL] ++
      u "    - Keep it between 250-400 words" ++ [NL] ++
      u "    - Address the hiring manager professionally" ++ [NL] ++
      u "    - Highlight 2-3 most relevant skills from the resume" ++ [NL] ++
      u "    - Mention the company name 2-3 times" ++ [NL] ++
      u "    - Include 1-2 specific achievements" ++ [NL] ++
      u "    - Use a " ++ tone ++ u " tone" ++ [NL] ++
      u "    - Format with proper paragraphs" ++ [NL] ++ u "    " ++ [NL] ++
      u "    Output only the cover letter content (no headings or explanations)." ++
      [NL] ++ u "  ")))))))).

(** [response.data?.candidates?.[0]?.content?.parts?.[0]?.text] *)
Definition candidate_text (data : JsValue) : JsValue :=
  opt_prop
    (opt_first
       (opt_prop (opt_prop (opt_first (opt_prop data "candidates")) "content")
          "parts"))
    "text".

Definition generateCoverLetter (resumeData : JsValue) (jdData : JobRecord)
    (tone : JsValue) : list jsstring * Attempt JsValue :=
  match build_prompt resumeData jdData tone with
  | Failed e => ([], Failed e)
  | Done prompt =>
      match post prompt with
      | PostOk data =>
          if is_truthy (candidate_text data)
          then ([prompt], Done (candidate_text data))
          else ([prompt], Failed UnexpectedFormat)
      | PostRejected response message =>
          ([prompt], Failed (RequestFailed response message))
      end
  end.

(** [error.response?.data?.error] and [error.message] of a failure *)
Definition api_error (f : Failure) : JsValue :=
  match f with
  | RequestFailed response _ => opt_prop (opt_prop response "data") "error"
  | _ => VUndefined
  end.

Definition failure_message (f : Failure) : JsValue :=
  match f with
  | TypeErrorAt site value => type_error_text site value
  | UnexpectedFormat => str "Unexpected response format from Gemini API"
  | RequestFailed _ message => message
  end.

(** The catch clause of the handler; [None] when the clause itself
    raises a TypeError, on an error message that has no text, and the
    handler sends no answer. *)
Definition generation_failed (f : Failure) : option Response :=
  let details := if development then failure_message f else VUndefined in
  if is_truthy (api_error f)
  then
    match to_string (prop (api_error f) "message") with
    | Some message =>
        let errorMessage := u "AI API Error: " ++ message in
        Some (mkResponse 400
                (VObj [("error", VStr errorMessage);
                       ("message",
                        str "There was an issue with the AI service");
                       ("details", details)]%string))
    | None => None
    end
  else Some (mkResponse 500
               (VObj [("error", str "Error generating cover letter");
                      ("message", str "Could not generate your cover letter");
                      ("details", details)]%string)).

Definition simple_error (code : nat) (error message : string) : Response :=
  mkResponse code
    (VObj [("error", str error); ("message", str message)]%string).

(** The handler of POST /generate, after the payment middleware: the
    prompts it posted and the answer it sent, if any. *)
Definition generate_handler (body : list (string * JsValue))
  : list jsstring * option Response :=
  let resumeData := get_field body "resumeData" in
  let jobDescription := get_field body "jobDescription" in
  let tone := match get_field body "tone" with
              | VUndefined => str "formal"
              | t => t
              end in
  if negb (is_truthy resumeData) || negb (is_truthy jobDescription)
  then ([], Some (simple_error 400 "Missing data"
                    "Both resume data and job description are required"))
  else if negb (is_truthy (prop resumeData "name"))
          || negb (is_truthy (prop resumeData "email"))
  then ([], Some (simple_error 400 "Incomplete resume"
                    "Resume must include name and email"))
  else if negb (match GEMINI_API_KEY with Some k => truthy k | None => false end)
  then ([], Some (simple_error 500 "Configuration error"
                    "Service is currently unavailable"))
  else
    match call_analyze jobDescription with
    | Throw _ =>
        ([], generation_failed (TypeErrorAt "jobDescription" jobDescription))
    | Ok jdData =>
        match generateCoverLetter resumeData jdData tone with
        | (posted, Failed f) => (posted, generation_failed f)
        | (posted, Done coverLetter) =>
            (posted,
             Some (mkResponse 200
                     (VObj [("success", VBool true);
                            ("data", VObj [("coverLetter", coverLetter);
                                           ("generatedAt", VStr now)])]%string)))
        end
    end.

(** The route: the payment middleware, then the handler. *)
Definition generate_route
    (fetch : JsValue -> option (list (string * JsValue)))
    (body : list (string * JsValue)) : list jsstring * option Response :=
  match snd (verifyPayment fetch body) with
  | Next => generate_handler body
  | Respond r => ([], Some r)
  end.
End Generate.

(** ** Vocabulary of the generation properties *)

Definition is_array (v : JsValue) : bool :=
  match v with VArr _ => true | _ => false end.

Definition is_string (v : JsValue) : bool :=
  match v with VStr _ => true | _ => false end.

Definition key_set (key : option jsstring) : bool :=
  match key with Some k => truthy k | None => false end.

(** ToString answers on the value: it is not an object with a [toString]
    field of its own, nor an array with such an object among its
    entries or the entries of its nested arrays. *)
Fixpoint printable (v : JsValue) : bool :=
  match v with
  | VArr items => forallb printable items
  | VObj fields => negb (has_field fields "toString")
  | _ => true
  end.

(** [join] answers on the value: an array of printable entries. *)
Definition joinable (v : JsValue) : bool :=
  is_array v && printable v.

(** The values the prompt is made of all have a text. *)
Definition prompt_ready (resumeData tone : JsValue) : bool :=
  printable (prop resumeData "name")
  && printable (prop resumeData "email")
  && printable (prop resumeData "phone")
  && joinable (prop resumeData "experience")
  && joinable (prop resumeData "education")
  && joinable (prop resumeData "skills")
  && printable tone.

(** A body that the handler takes as far as the model: resume data with
    a name and an email, a job description that is a string, the key
    configured, and the values of the prompt with a text. *)
Definition ready_to_generate (key : option jsstring)
    (body : list (string * JsValue)) : bool :=
  let resumeData := get_field body "resumeData" in
  let jobDescription := get_field body "jobDescription" in
  is_truthy resumeData && is_truthy jobDescription
  && is_truthy (prop resumeData "name") && is_truthy (prop resumeData "email")
  && key_set key && is_string jobDescription
  && prompt_ready resumeData (get_field body "tone").

(** The body that carries a record of [extractResumeData] and a job
    description. *)
Definition body_of (r : ResumeRecord) (jobDescription : jsstring)
  : list (string * JsValue) :=
  [("resumeData", resume_to_json r);
   ("jobDescription", VStr jobDescription)]%string.

(** ** A worked generation *)

(** The record of [contact_line] *)
Definition contact_record : ResumeRecord :=
  mkResume contact_line (u "jane.roe@example.co.uk") []
    [u "Various professional experiences"]
    [u "Relevant educational background"]
    [u "Various professional skills"].

(** An answer of the model with one candidate of one part *)
Definition model_answer : JsValue :=
  VObj [("candidates",
         VArr [VObj [("content",
                      VObj [("parts",
                             VArr [VObj [("text",
                                          str "Dear Hiring Manager")]])])]])]%string.

(** A rejection whose error message is an object that hides [toString] *)
Definition rejection_without_text : JsValue :=
  VObj [("data",
         VObj [("error",
                VObj [("message",
                       VObj [("toString", VNull)])])])]%string.

(** ** The request log *)

Section RequestLogging.
(** Whether [RequestLog.create] resolves, once it is called *)
Variable create_resolves : bool.

(** The logging middleware: what it logs and how it ends. The name
    [RequestLog] is read before the arguments of the call. *)
Definition log_request : list Effect * Control :=
  let locals := [("req", VObj []); ("res", VObj []);
                 ("next", VObj [])]%string in
  match read_var locals "RequestLog" with
  | Ok _ =>
      if create_resolves then ([], Next)
      else ([LogError "Request logging failed:"], Next)
  | Throw _ => ([LogError "Request logging failed:"], Next)
  end.
End RequestLogging.

(** * The second server of the file *)

(** ** Vocabulary *)

(** The pieces of [s] between the characters that pass the test [p] *)
Fixpoint split_when (p : char -> bool) (s : jsstring) : list jsstring :=
  match s with
  | [] => [[]]
  | c :: s' =>
      if p c then [] :: split_when p s'
      else match split_when p s' with
           | piece :: more => (c :: piece) :: more
           | [] => [[c]]
           end
  end.

(** Capture [n] has a value in state [x]. *)
Definition defined (n : nat) (x : MState) : Prop :=
  exists s, cap_get n (caps x) = Some s.

(** A matcher that answers through its continuation on a later state in
    which every capture that had a value still has one. *)
Definition keeps (mr : Matcher) : Prop :=
  forall x k z, mr x k = Some z ->
    exists y, reach x y /\ (forall n, defined n x -> defined n y) /\
              k y = Some z.

(** A hyphen or a bullet *)
Definition is_bullet (c : char) : bool := (ch "-" =? c) || (8226 =? c).

Definition QUOTE : char := 34.

(** White space or a colon: what may stand after a section word *)
Definition is_gap (c : char) : bool := is_space c || (ch ":" =? c).

(** The text is at its end or at a blank line: where a section stops. *)
Definition stops (tail : jsstring) : bool :=
  match tail with
  | [] => true
  | a :: b :: _ => (NL =? a) && (NL =? b)
  | [_] => false
  end.

(** The literal [l] begins, in any letter case, at no place of [pre]
    in the text [pre ++ s]. *)
Fixpoint word_not_before (l pre s : jsstring) : bool :=
  match pre with
  | [] => true
  | c :: p => negb (lit_at true l (pre ++ s)) && word_not_before l p s
  end.

(** The text [s ++ tail] stops at no place of [s]. *)
Fixpoint never_stops (s tail : jsstring) : bool :=
  match s with
  | [] => true
  | c :: s' => negb (stops (s ++ tail)) && never_stops s' tail
  end.

(** A resume with an education section that a blank line ends *)
Definition resume_with_education : jsstring :=
  (u "Jane Roe" ++ [NL]) ++ u "EDUCATION" ++ (u ":" ++ [NL]) ++
  (u "B.S. Computer Science, MIT" ++ [NL] ++ u "2015") ++
  ([NL; NL] ++ u "Hobbies: chess").

(** [e] is a point of the line: the trimmed text, not empty, between a
    hyphen or bullet and the next one or the end of the line. *)
Definition point_of (line e : jsstring) : Prop :=
  exists pre c piece post,
    line = pre ++ c :: piece ++ post /\ is_bullet c = true /\
    (forall a, In a piece -> is_bullet a = false) /\
    (post = [] \/ exists c' t, post = c' :: t /\ is_bullet c' = true) /\
    e = trim piece /\ e <> [].

(** The request of the second server passes the checks of its
    generation handler: resume data and job description are there, and
    the tone, "formal" when left out, is one of the three. *)
Definition passes_checks (body : list (string * JsValue)) : bool :=
  is_truthy (get_field body "resumeData")
  && is_truthy (get_field body "jobDescription")
  && match get_field body "tone" with
     | VUndefined => true
     | t => existsb (strict_eq_str t) ["friendly"; "formal"; "confident"]%string
     end.

(** A section word made of letters, digits and underscores: in a
    pattern each of them stands for itself. *)
Definition plain_word (section : string) : bool :=
  forallb is_word (u section).

(** What [extractName] asks of a trimmed line: it is not empty, holds a
    space and holds no digit. *)
Definition looks_like_name (t : jsstring) : Prop :=
  t <> [] /\ In (ch " ") t /\ (forall c, In c t -> is_digit c = false).

Module Variant2.

(** ** extractName *)

(** [/[0-9]/] *)
Definition re_digit : RegExp :=
  mkRegExp (RClass false [CRange (ch "0") (ch "9")]) false.

(** [trimmed && trimmed.split(' ').length >= 2 && !trimmed.match(/[0-9]/)] *)
Definition name_like (trimmed : jsstring) : bool :=
  truthy trimmed
  && Nat.leb 2 (length (split_on (ch " ") trimmed))
  && negb (match str_match trimmed re_digit with
           | Some _ => true
           | None => false
           end).

(** The loop over the lines, with its early return *)
Fixpoint first_name_like (lines : list jsstring) : jsstring :=
  match lines with
  | [] => u "Your Name"
  | line :: more =>
      let trimmed := trim line in
      if name_like trimmed then trimmed else first_name_like more
  end.

Definition extractName (text : jsstring) : jsstring :=
  first_name_like (split_on NL text).

(** ** extractSection *)

(** The pattern built from the section word, with the flag [i]: the
    word, one or more of white space and colon, a lazy capture of one or
    more characters of any kind ([\s\S] holds every code unit), and a
    blank line or the end of the text. The section words of the program
    hold no character that is special in a pattern. *)
Definition sectionRegex (section : string) : RegExp :=
  mkRegExp
    (seq [lit section;
          plus (RClass false [CEsc EscS; CChar (ch ":")]);
          RGroup 1 (plus_lazy any_char);
          RAlt (seq [RChar NL; RChar NL]) REnd])
    true.

Definition extractSection (text : jsstring) (section : string)
  : Outcome jsstring :=
  match str_match text (sectionRegex section) with
  | Some res => trim_of (cap_get 1 (groups res))
  | None => Ok (u section ++ u " section not detected")
  end.

(** ** parseResumeText *)

(** [[-.\s]] *)
Definition phone_sep : regex :=
  RClass false [CChar (ch "-"); CChar (ch "."); CEsc EscS].

(** [/(\+?\d{1,3}[-.\s]?)?\(?\d{3}\)?[-.\s]?\d{3}[-.\s]?\d{4}\b/] *)
Definition re_phone : RegExp :=
  mkRegExp
    (seq [opt (RGroup 1 (seq [opt (RChar (ch "+")); times (esc EscD) 1 3;
                              opt phone_sep]));
          opt (RChar (ch "(")); times (esc EscD) 3 3; opt (RChar (ch ")"));
          opt phone_sep; times (esc EscD) 3 3; opt phone_sep;
          times (esc EscD) 4 4; RWordB])
    false.

Definition commonSkills : list string :=
  ["JavaScript"; "Python"; "Java"; "React"; "Node.js"; "SQL"; "AWS"; "HTML";
   "CSS"]%string.

(** The parsed resume; [None] stands for [null]. *)
Record ResumeData := mkData {
  name : jsstring;
  email : option jsstring;
  phone : option jsstring;
  skills : list jsstring;
  experience : jsstring;
  education : jsstring
}.

Definition parseResumeText (text : jsstring) : Outcome ResumeData :=
  let emailMatch := str_match text re_email in
  let phoneMatch := str_match text re_phone in
  let skills :=
    filter (fun skill => includes text skill) (map u commonSkills) in
  let name := extractName text in
  experience <- extractSection text "experience" ;;
  education <- extractSection text "education" ;;
  Ok (mkData name (option_map matched emailMatch)
        (option_map matched phoneMatch)
        (or_placeholder skills "Skills not detected")
        experience education).

(** ** analyzeJobDescription *)

(** [[a-zA-Z0-9\s&-]] *)
Definition company_class : list citem :=
  [CRange (ch "a") (ch "z"); CRange (ch "A") (ch "Z");
   CRange (ch "0") (ch "9"); CEsc EscS; CChar (ch "&"); CChar (ch "-")].

(** [/(?:at|from)\s+([A-Z][a-zA-Z0-9\s&-]+)(?:\s|$)/i] *)
Definition re_company : RegExp :=
  mkRegExp
    (seq [RAlt (lit "at") (lit "from");
          plus (esc EscS);
          RGroup 1 (seq [RClass false [CRange (ch "A") (ch "Z")];
                         plus (RClass false company_class)]);
          RAlt (esc EscS) REnd])
    true.

(** [/(?:looking for|seeking|position of)\s+([a-zA-Z\s]+)(?:\sto|$)/i] *)
Definition re_role : RegExp :=
  mkRegExp
    (seq [RAlt (lit "looking for") (RAlt (lit "seeking") (lit "position of"));
          plus (esc EscS);
          RGroup 1 (plus (RClass false [CRange (ch "a") (ch "z");
                                        CRange (ch "A") (ch "Z"); CEsc EscS]));
          RAlt (seq [esc EscS; RChar (ch "t"); RChar (ch "o")]) REnd])
    true.

(** [/[-\u2022]/]: a hyphen or a bullet *)
Definition re_bullet : RegExp :=
  mkRegExp (RClass false [CChar (ch "-"); CChar 8226]) false.

Section Analyze.
(** [String.prototype.toLowerCase] of the engine *)
Variable toLowerCase : jsstring -> jsstring.

Definition mentions_requirement (line : jsstring) : bool :=
  includes (toLowerCase line) (u "require")
  || includes (toLowerCase line) (u "must have")
  || includes (toLowerCase line) (u "qualification").

(** The points of a line: what follows each hyphen or bullet, trimmed,
    the empty ones left out. *)
Definition points (line : jsstring) : list jsstring :=
  filter truthy (map trim (skipn 1 (split_re line re_bullet))).

Definition analyzeJobDescription (jd : jsstring) : Outcome JobRecord :=
  let companyMatch := str_match jd re_company in
  let roleMatch := str_match jd re_role in
  let reqLines := filter mentions_requirement (split_on NL jd) in
  let requirements := flat_map points reqLines in
  company <- group1_or companyMatch "Company Name Not Found" ;;
  role <- group1_or roleMatch "Job Role Not Found" ;;
  Ok (mkJob company role
        (or_placeholder requirements
           "Key requirements not explicitly listed")).
End Analyze.

(** ** The handlers *)

Definition or_null (v : option jsstring) : JsValue :=
  match v with
  | Some s => VStr s
  | None => VNull
  end.

Definition resume_to_json (r : ResumeData) : JsValue :=
  VObj [("name", VStr (name r)); ("email", or_null (email r));
        ("phone", or_null (phone r));
        ("skills", VArr (map VStr (skills r)));
        ("experience", VStr (experience r));
        ("education", VStr (education r))]%string.

(** [res.status(code).json({ error })] *)
Definition error_response (code : nat) (error : JsValue) : Response :=
  mkResponse code (VObj [("error", error)]%string).

(** [error.message || fallback] *)
Definition message_or (message : JsValue) (fallback : string) : JsValue :=
  if is_truthy message then message else str fallback.

(** What [generateCoverLetter] comes to: the text of the model, or the
    error it throws. *)
Inductive Generated :=
| Text (text : JsValue)
| GenerationError (message : string).

Section Server.
(** [pdf(buffer)] read at [data.text], and
    [mammoth.extractRawText({ buffer })] read at [result.value] *)
Variable pdf : list N -> Parsed.
Variable extractRawText : list N -> Parsed.
Variable toLowerCase : jsstring -> jsstring.
(** The message the engine gives a TypeError *)
Variable type_error_message : JsError -> JsValue.
(** The model asked with a prompt: the text of its response, or [None]
    when a call of the client library throws or rejects *)
Variable generateContent : jsstring -> option JsValue.
Variable number_to_string : N -> jsstring.

Definition upload_handler (file : option UploadedFile) : Response :=
  match file with
  | None => error_response 400 (str "No file uploaded")
  | Some f =>
      match parse_file pdf extractRawText f with
      | ParseFailed message =>
          error_response 500 (message_or message "Failed to process resume")
      | ParsedText text =>
          if negb (truthy text)
          then error_response 400 (str "Could not extract text from file")
          else
            match parseResumeText text with
            | Ok resumeData => mkResponse 200 (resume_to_json resumeData)
            | Throw error =>
                error_response 500
                  (message_or (type_error_message error)
                     "Failed to process resume")
            end
      end
  end.

Definition analyze_jd_handler (body : list (string * JsValue)) : Response :=
  let jobDescription := get_field body "jobDescription" in
  match jobDescription with
  | VStr jd =>
      if negb (truthy jd)
      then error_response 400 (str "Invalid job description format")
      else
        match analyzeJobDescription toLowerCase jd with
        | Ok jobData => mkResponse 200 (job_to_json jobData)
        | Throw error =>
            error_response 500
              (message_or (type_error_message error)
                 "Failed to analyze job description")
        end
  | _ => error_response 400 (str "Invalid job description format")
  end.

(** The prompt of [generateCoverLetter], the values turned into text in
    the order of the template. *)
Definition build_prompt (resumeData jobDescription tone : JsValue)
  : Attempt jsstring :=
  then_ (string_of number_to_string "tone" tone)
    (fun tone =>
  then_ (string_of number_to_string "name" (prop resumeData "name"))
    (fun name =>
  then_ (join_of number_to_string "skills" (prop resumeData "skills") ", ")
    (fun skills =>
  then_ (string_of number_to_string "experience"
           (prop resumeData "experience"))
    (fun experience =>
  then_ (string_of number_to_string "education"
           (prop resumeData "education"))
    (fun education =>
  then_ (string_of number_to_string "jobDescription" jobDescription)
    (fun jobDescription =>
  Done (
      [NL] ++
      u "      Write a professional cover letter (250-400 words) with a " ++
      tone ++ u " tone using the following details:" ++ [NL] ++ u "      " ++
      [NL] ++ u "      Applicant Information:" ++ [NL] ++
      u "      - Name: " ++ name ++ [NL] ++ u "      - Skills: " ++ skills ++
      [NL] ++ u "      - Experience: " ++ experience ++ [NL] ++
      u "      - Education: " ++ education ++ [NL] ++ u "      " ++ [NL] ++
      u "      Job Description:" ++ [NL] ++ u "      " ++ jobDescription ++
      [NL] ++ u "      " ++ [NL] ++ u "      Guidelines:" ++ [NL] ++
      u "      1. Address the hiring manager appropriately (use " ++
      [QUOTE] ++ u "Dear Hiring Manager" ++ [QUOTE] ++
      u " if name is unknown)" ++ [NL] ++
      u "      2. Highlight relevant skills and experiences that match the job requirements" ++
      [NL] ++ u "      3. Maintain a " ++ tone ++ u " tone throughout" ++
      [NL] ++ u "      4. Keep it concise (3-4 paragraphs)" ++ [NL] ++
      u "      5. End with a professional closing" ++ [NL] ++ u "    "))))))).

(** Whatever goes wrong inside the [try], building the prompt or asking
    the model, is thrown on as one error. *)
Definition generateCoverLetter (resumeData jobDescription tone : JsValue)
  : Generated :=
  let failed :=
    GenerationError
      "Failed to generate cover letter. Please check your API key and try again." in
  match build_prompt resumeData jobDescription tone with
  | Failed _ => failed
  | Done prompt =>
      match generateContent prompt with
      | Some text => Text text
      | None => failed
      end
  end.

Definition validTones : list string :=
  ["friendly"; "formal"; "confident"]%string.

Definition generate_handler (body : list (string * JsValue)) : Response :=
  let resumeData := get_field body "resumeData" in
  let jobDescription := get_field body "jobDescription" in
  let tone := match get_field body "tone" with
              | VUndefined => str "formal"
              | t => t
              end in
  if negb (is_truthy resumeData) || negb (is_truthy jobDescription)
  then error_response 400 (str "Missing required fields")
  else if negb (existsb (strict_eq_str tone) validTones)
  then error_response 400 (str "Invalid tone specified")
  else
    match generateCoverLetter resumeData jobDescription tone with
    | Text coverLetter =>
        mkResponse 200 (VObj [("coverLetter", coverLetter)]%string)
    | GenerationError message =>
        error_response 500
          (message_or (str message) "Failed to generate cover letter")
    end.
End Server.

End Variant2.

(** A job text with one requirement line that has bullets and one that
    has none *)
Definition jd_with_bullets : jsstring :=
  u "Requirements: - Docker - AWS " ++ [NL] ++ u "Must have Python".

(** A generation request whose resume data have a name and no skills *)
Definition request_without_skills : list (string * JsValue) :=
  [("resumeData", VObj [("name", str "Jane Roe")]);
   ("jobDescription", VStr jd_with_bullets)]%string.

(** * The extractors and the objects they make *)

(** A call of an extractor makes pattern objects, each with its
    [lastIndex], and [analyzeJobDescription] fills an array by [push].
    Here the two functions are written over the store that holds such
    objects, in the order of the source, so that what a call reads from
    the store and what it leaves there can be stated.  The cells of the
    store are the objects with a state that an operation of the
    extractors reads or changes; the arrays that [split], [filter] and
    [map] build, which are read and never changed, are values. *)
Module Stateful.

Inductive Cell :=
| PatternCell (compiled : RegExp) (global sticky : bool) (lastIndex : nat)
| ArrayCell (items : list jsstring).

(** The objects alive, by address *)
Definition Store := list Cell.

(** A computation: from a store to its outcome and the store it leaves *)
Definition Run (A : Type) := Store -> Outcome A * Store.

Definition ret {A} (a : A) : Run A := fun st => (Ok a, st).

Definition lift {A} (o : Outcome A) : Run A := fun st => (o, st).

Definition and_then {A B} (c : Run A) (f : A -> Run B) : Run B :=
  fun st =>
    match c st with
    | (Ok a, st') => f a st'
    | (Throw e, st') => (Throw e, st')
    end.

Notation "x <~ c ;; k" := (and_then c (fun x => k))
  (at level 61, c at next level, right associativity).

(** A new object, at the next address *)
Definition alloc (c : Cell) : Run nat :=
  fun st => (Ok (length st), st ++ [c]).

Fixpoint update (a : nat) (c : Cell) (st : Store) : Store :=
  match st, a with
  | [], _ => []
  | _ :: more, O => c :: more
  | x :: more, S a' => x :: update a' c more
  end.

(** A pattern literal makes a new object each time it is evaluated,
    with [lastIndex] 0.  No literal of the extractors has the flag [g]
    or [y]. *)
Definition literal (re : RegExp) : Run nat :=
  alloc (PatternCell re false false 0).

(** RegExpBuiltinExec: the search starts at [lastIndex] when the object
    has [g] or [y], and at 0 otherwise; with [y] only that position is
    tried; with [g] or [y] the object's [lastIndex] is moved to the end
    of the match, or back to 0 when there is none. *)
Definition exec (rx : nat) (text : jsstring) : Run (option MatchResult) :=
  fun st =>
    match nth_error st rx with
    | Some (PatternCell re g y lastIndex) =>
        let start := if g || y then lastIndex else O in
        let x := mkState (rev (firstn start text)) (skipn start text) [] in
        let found :=
          if Nat.ltb (length text) start then None
          else if y
          then match match_at re x with
               | Some z => Some (mkMatch start (taken x z) (caps z))
               | None => None
               end
          else scan re (rev (firstn start text)) (skipn start text) in
        let moved := fun i =>
          if g || y then update rx (PatternCell re g y i) st else st in
        match found with
        | Some res =>
            (Ok (Some res), moved (index res + length (matched res))%nat)
        | None => (Ok None, moved O)
        end
    | _ => (Throw TypeError, st)
    end.

(** [text.match(/re/)]: the literal has no [g], so [match] is one [exec]
    on the new object. *)
Definition match_literal (text : jsstring) (re : RegExp)
  : Run (option MatchResult) :=
  rx <~ literal re ;; exec rx text.

(** [s.split(rx)]: the pieces by the pattern of the object.  The copy of
    the pattern that [split] searches with is its own and is dropped at
    the end; the object [rx] is only read. *)
Definition split_by (rx : nat) (s : jsstring) : Run (list jsstring) :=
  fun st =>
    match nth_error st rx with
    | Some (PatternCell re _ _ _) => (Ok (split_re s re), st)
    | _ => (Throw TypeError, st)
    end.

(** [lines.flatMap(f)] *)
Fixpoint flat_map_run {A B} (f : A -> Run (list B)) (l : list A)
  : Run (list B) :=
  match l with
  | [] => ret []
  | x :: more =>
      ys <~ f x ;; zs <~ flat_map_run f more ;; ret (ys ++ zs)
  end.

(** [items.forEach(f)], and a run of statements *)
Fixpoint for_each {A} (f : A -> Run unit) (l : list A) : Run unit :=
  match l with
  | [] => ret tt
  | x :: more => _ <~ f x ;; for_each f more
  end.

(** An array literal *)
Definition new_array (items : list jsstring) : Run nat :=
  alloc (ArrayCell items).

(** [array.push(item)] *)
Definition push (array : nat) (item : jsstring) : Run unit :=
  fun st =>
    match nth_error st array with
    | Some (ArrayCell items) =>
        (Ok tt, update array (ArrayCell (items ++ [item])) st)
    | _ => (Throw TypeError, st)
    end.

(** The elements of an array *)
Definition read (array : nat) : Run (list jsstring) :=
  fun st =>
    match nth_error st array with
    | Some (ArrayCell items) => (Ok items, st)
    | _ => (Throw TypeError, st)
    end.

(** [a || b] on matches: [b] is evaluated only when [a] is null. *)
Definition or_match (a b : Run (option MatchResult))
  : Run (option MatchResult) :=
  r <~ a ;;
  match r with
  | Some _ => ret r
  | None => b
  end.

Definition extract_skills (text : jsstring) : Run (list jsstring) :=
  skillsSection <~ match_literal text re_skills ;;
  match skillsSection with
  | Some section =>
      pieces <~ flat_map_run
                  (fun line => rx <~ literal re_skill_sep ;; split_by rx line)
                  (skipn 1 (split_on NL (matched section))) ;;
      ret (map trim
             (filter (fun skill =>
                        truthy (trim skill) && Nat.ltb 2 (length (trim skill)))
                pieces))
  | None => ret []
  end.

Definition extract_lines (text : jsstring) (re : RegExp)
  : Run (list jsstring) :=
  found <~ match_literal text re ;;
  match found with
  | Some section =>
      ret (map trim
             (filter (fun line =>
                        truthy (trim line) && Nat.ltb 10 (length (trim line)))
                (skipn 1 (split_on NL (matched section)))))
  | None => ret []
  end.

Definition extractResumeData (text : jsstring) : Run ResumeRecord :=
  let lines := filter (fun line => truthy (trim line)) (split_on NL text) in
  name <~ lift (trim_of (nth_error lines 0)) ;;
  emailMatch <~ match_literal text re_email ;;
  phoneMatch <~ match_literal text re_phone ;;
  skills <~ extract_skills text ;;
  experience <~ extract_lines text re_experience ;;
  education <~ extract_lines text re_education ;;
  ret (mkResume name (matched_or_empty emailMatch)
         (matched_or_empty phoneMatch)
         (or_placeholder experience "Various professional experiences")
         (or_placeholder education "Relevant educational background")
         (or_placeholder skills "Various professional skills")).

(** [if (jdText.includes(word)) requirements.push(entry)] *)
Definition push_if (jdText : jsstring) (requirements : nat)
    (word entry : jsstring) : Run unit :=
  if includes jdText word then push requirements entry else ret tt.

Definition analyzeJobDescription (jdText : jsstring) : Run JobRecord :=
  companyMatch <~
    or_match (match_literal jdText re_at)
      (or_match (match_literal jdText re_company)
         (match_literal jdText re_about)) ;;
  roleMatch <~
    or_match (match_literal jdText re_position)
      (or_match (match_literal jdText re_role)
         (or_match (match_literal jdText re_looking)
            (match_literal jdText re_seeking))) ;;
  requirements <~ new_array [] ;;
  _ <~ for_each (fun check =>
                   push_if jdText requirements (u (fst check)) (u (snd check)))
         trigger_checks ;;
  skillKeywords <~ new_array (map u skillKeywords) ;;
  skills <~ read skillKeywords ;;
  _ <~ for_each (fun skill => push_if jdText requirements skill skill)
         skills ;;
  company <~ lift (group1_or companyMatch "the company") ;;
  role <~ lift (group1_or roleMatch "the position") ;;
  items <~ read requirements ;;
  ret (mkJob company role
         (or_placeholder items "Various skills and experiences")).

End Stateful.

(** A run ends with [v] and leaves every object that was there as it
    was, new ones after them. *)
Definition leaves_alone {A} (c : Stateful.Run A) (v : Outcome A) : Prop :=
  forall st, exists made, c st = (v, st ++ made).
(** ** The matcher only moves forward *)

Lemma reach_refl x : reach x x.
Proof. exists []; auto. Qed.

Lemma reach_trans x y z : reach x y -> reach y z -> reach x z.
Proof.
  intros [s [H1 H2]] [t [H3 H4]]. exists (s ++ t). split.
  - rewrite H1, H3, app_assoc; reflexivity.
  - rewrite H4, H2, rev_app_distr, app_assoc; reflexivity.
Qed.

Lemma reach_remaining x y : reach x y -> (remaining y <= remaining x)%nat.
Proof.
  intros [s [H _]]. unfold remaining. rewrite H, length_app. lia.
Qed.

Lemma reach_advance x c tl : rest x = c :: tl -> reach x (advance x).
Proof.
  intros H. exists [c]. unfold advance. rewrite H. simpl. auto.
Qed.

Lemma reach_same_pos x y cs :
  reach x (mkState (before y) (rest y) cs) <-> reach x y.
Proof. unfold reach; simpl; tauto. Qed.

Lemma reach_taken x y s :
  rest x = s ++ rest y -> taken x y = s.
Proof.
  intros H. unfold taken, remaining. rewrite H, length_app.
  replace (length s + length (rest y) - length (rest y))%nat with (length s) by lia.
  rewrite firstn_app, firstn_all, Nat.sub_diag. simpl. apply app_nil_r.
Qed.

Lemma or_else_some {A} (a b : option A) z :
  or_else a b = Some z -> a = Some z \/ (a = None /\ b = Some z).
Proof. destruct a; simpl; auto. Qed.

Lemma rep_forward mr : forward mr ->
  forall fuel min max greedy, forward (rep mr fuel min max greedy).
Proof.
  intros Hm fuel. induction fuel as [|f IH]; intros min max greedy x k z H.
  - discriminate.
  - simpl in H. destruct (max_is_zero max).
    + exists x. split; [apply reach_refl | exact H].
    + assert (Hd : forall z,
        mr x (fun y => if Nat.eqb min 0 && Nat.eqb (remaining y) (remaining x)
                       then None
                       else rep mr f (Nat.pred min) (max_pred max) greedy y k)
          = Some z -> exists y, reach x y /\ k y = Some z).
      { intros z' H'. apply Hm in H'. destruct H' as [y [Hxy Hy]].
        destruct (Nat.eqb min 0 && Nat.eqb (remaining y) (remaining x));
          [discriminate|].
        apply IH in Hy. destruct Hy as [y' [Hyy' Hk]].
        exists y'. split; [eapply reach_trans; eauto | exact Hk]. }
      destruct (negb (Nat.eqb min 0)); [auto|].
      destruct greedy; apply or_else_some in H;
        destruct H as [H | [_ H]]; auto;
        exists x; (split; [apply reach_refl | exact H]).
Qed.

Lemma m_forward ic r : forward (m ic r).
Proof.
  induction r; intros x k z H; simpl in H.
  - exists x; split; [apply reach_refl | exact H].
  - destruct (rest x) as [|c' tl] eqn:E; [discriminate|].
    destruct (char_match ic c c'); [|discriminate].
    exists (advance x); split; [eapply reach_advance; eauto | exact H].
  - destruct (rest x) as [|c tl] eqn:E; [discriminate|].
    destruct (xorb neg (class_mem ic items c)); [|discriminate].
    exists (advance x); split; [eapply reach_advance; eauto | exact H].
  - apply IHr1 in H. destruct H as [y [Hxy H]].
    apply IHr2 in H. destruct H as [y' [Hyy' H]].
    exists y'; split; [eapply reach_trans; eauto | exact H].
  - apply or_else_some in H. destruct H as [H | [_ H]]; auto.
  - apply IHr in H. destruct H as [y [Hxy H]].
    exists (set_cap n (taken x y) y). split; [|exact H].
    unfold set_cap. apply reach_same_pos. exact Hxy.
  - eapply rep_forward; eauto.
  - destruct (m ic r x Some) as [y|]; [|discriminate].
    exists (mkState (before x) (rest x) (caps y)). split; [|exact H].
    exists []; simpl; auto.
  - destruct (xorb _ _); [|discriminate].
    exists x; split; [apply reach_refl | exact H].
  - destruct (rest x); [|discriminate].
    exists x; split; [apply reach_refl | exact H].
Qed.

Lemma rep_local mr : local mr ->
  forall fuel min max greedy, local (rep mr fuel min max greedy).
Proof.
  intros Hm fuel. induction fuel as [|f IH]; intros min max greedy x k k' H.
  - reflexivity.
  - simpl. rewrite <- (H x (reach_refl x)).
    destruct (max_is_zero max); [reflexivity|].
    assert (Hd : mr x (fun y =>
        if Nat.eqb min 0 && Nat.eqb (remaining y) (remaining x) then None
        else rep mr f (Nat.pred min) (max_pred max) greedy y k)
      = mr x (fun y =>
        if Nat.eqb min 0 && Nat.eqb (remaining y) (remaining x) then None
        else rep mr f (Nat.pred min) (max_pred max) greedy y k')).
    { apply Hm. intros y Hxy.
      destruct (Nat.eqb min 0 && Nat.eqb (remaining y) (remaining x));
        [reflexivity|].
      apply IH. intros y' Hyy'. apply H. eapply reach_trans; eauto. }
    rewrite Hd. reflexivity.
Qed.

Lemma m_local ic r : local (m ic r).
Proof.
  induction r; intros x k k' H; simpl.
  - apply H, reach_refl.
  - destruct (rest x) as [|c' tl] eqn:E; [reflexivity|].
    destruct (char_match ic c c'); [|reflexivity].
    apply H. eapply reach_advance; eauto.
  - destruct (rest x) as [|c tl] eqn:E; [reflexivity|].
    destruct (xorb neg (class_mem ic items c)); [|reflexivity].
    apply H. eapply reach_advance; eauto.
  - apply IHr1. intros y Hxy. apply IHr2. intros y' Hyy'.
    apply H. eapply reach_trans; eauto.
  - rewrite (IHr1 x k k' H), (IHr2 x k k' H). reflexivity.
  - apply IHr. intros y Hxy. apply H. unfold set_cap.
    apply reach_same_pos. exact Hxy.
  - apply rep_local; auto.
  - destruct (m ic r x Some) as [y|]; [|reflexivity].
    apply H. exists []; simpl; auto.
  - destruct (xorb _ _); [|reflexivity]. apply H, reach_refl.
  - destruct (rest x); [|reflexivity]. apply H, reach_refl.
Qed.

(** The fuel given to [rep] by the matcher is never exhausted: any
    larger amount gives the same answer. *)
Lemma rep_fuel mr : local mr ->
  forall f f' min max greedy x k,
    (remaining x + min + 1 <= f)%nat -> (remaining x + min + 1 <= f')%nat ->
    rep mr f min max greedy x k = rep mr f' min max greedy x k.
Proof.
  intros Hm f. induction f as [|f IH]; intros f' min max greedy x k Hf Hf'.
  - lia.
  - destruct f' as [|f']; [lia|]. simpl.
    destruct (max_is_zero max); [reflexivity|].
    assert (Hd : mr x (fun y =>
        if Nat.eqb min 0 && Nat.eqb (remaining y) (remaining x) then None
        else rep mr f (Nat.pred min) (max_pred max) greedy y k)
      = mr x (fun y =>
        if Nat.eqb min 0 && Nat.eqb (remaining y) (remaining x) then None
        else rep mr f' (Nat.pred min) (max_pred max) greedy y k)).
    { apply Hm. intros y Hxy. apply reach_remaining in Hxy.
      destruct (Nat.eqb min 0) eqn:E0; simpl.
      - destruct (Nat.eqb (remaining y) (remaining x)) eqn:E1; [reflexivity|].
        apply Nat.eqb_eq in E0. apply Nat.eqb_neq in E1. subst min.
        apply IH; simpl; lia.
      - apply Nat.eqb_neq in E0. apply IH; lia. }
    rewrite Hd. reflexivity.
Qed.

(** The step equation of a quantified pattern, free of fuel. *)
Lemma m_rep ic r min max greedy x k :
  m ic (RRep r min max greedy) x k =
  if max_is_zero max then k x else
  let d : Cont := fun y =>
    if Nat.eqb min 0 && Nat.eqb (remaining y) (remaining x) then None
    else m ic (RRep r (Nat.pred min) (max_pred max) greedy) y k in
  if negb (Nat.eqb min 0) then m ic r x d
  else if greedy then or_else (m ic r x d) (k x)
  else or_else (k x) (m ic r x d).
Proof.
  cbn [m]. replace (remaining x + min + 1)%nat with (S (remaining x + min)) by lia.
  cbn [rep]. destruct (max_is_zero max); [reflexivity|].
  assert (Hd : m ic r x (fun y =>
      if Nat.eqb min 0 && Nat.eqb (remaining y) (remaining x) then None
      else rep (m ic r) (remaining x + min) (Nat.pred min) (max_pred max) greedy y k)
    = m ic r x (fun y =>
      if Nat.eqb min 0 && Nat.eqb (remaining y) (remaining x) then None
      else rep (m ic r) (remaining y + Nat.pred min + 1) (Nat.pred min)
             (max_pred max) greedy y k)).
  { apply m_local. intros y Hxy. apply reach_remaining in Hxy.
    destruct (Nat.eqb min 0) eqn:E0; simpl.
    - destruct (Nat.eqb (remaining y) (remaining x)) eqn:E1; [reflexivity|].
      apply Nat.eqb_eq in E0. apply Nat.eqb_neq in E1. subst min.
      apply rep_fuel; [apply m_local | simpl; lia | simpl; lia].
    - apply Nat.eqb_neq in E0.
      apply rep_fuel; [apply m_local | lia | lia]. }
  cbv zeta. rewrite Hd. reflexivity.
Qed.

(** ** Captures of the job-description patterns *)

(** A pattern that ends in a capture group sets that group whenever it
    matches. *)
Lemma last_group_set ic r1 r2 n r3 x z :
  m ic (RSeq r1 (RSeq r2 (RGroup n r3))) x Some = Some z ->
  exists s, cap_get n (caps z) = Some s.
Proof.
  cbn [m]. intros H.
  apply m_forward in H. destruct H as [y1 [_ H]].
  apply m_forward in H. destruct H as [y2 [_ H]].
  apply m_forward in H. destruct H as [y3 [_ H]].
  injection H as <-. exists (taken y2 y3). simpl.
  rewrite Nat.eqb_refl. reflexivity.
Qed.

Lemma scan_result re bef s res :
  scan re bef s = Some res ->
  exists bef' s' y, match_at re (mkState bef' s' []) = Some y /\
    res = mkMatch (length bef') (taken (mkState bef' s' []) y) (caps y).
Proof.
  revert bef. induction s as [|c s IH]; intros bef H; simpl in H.
  - destruct (match_at re (mkState bef [] [])) as [y|] eqn:E; [|discriminate].
    injection H as <-. eauto.
  - destruct (match_at re (mkState bef (c :: s) [])) as [y|] eqn:E.
    + injection H as <-. eauto.
    + eauto.
Qed.

Lemma group1_defined text re res :
  ends_in_group1 re -> str_match text re = Some res ->
  exists s, cap_get 1 (groups res) = Some s.
Proof.
  intros [r1 [r2 [r3 Hp]]] H. apply scan_result in H.
  destruct H as [bef [s [y [Hm ->]]]]. unfold match_at in Hm.
  rewrite Hp in Hm. simpl. eapply last_group_set; eauto.
Qed.

Lemma group1_or_ok text (res : option MatchResult) fallback :
  (forall r, res = Some r -> exists re, ends_in_group1 re /\ str_match text re = Some r) ->
  exists s, group1_or res fallback = Ok s.
Proof.
  intros H. destruct res as [r|]; simpl.
  - destruct (H r eq_refl) as [re [He Hm]].
    destruct (group1_defined text re r He Hm) as [s ->]. simpl. eauto.
  - eauto.
Qed.

Ltac group1_shape := do 3 eexists; reflexivity.

Lemma company_patterns_group1 :
  ends_in_group1 re_at /\ ends_in_group1 re_company /\ ends_in_group1 re_about.
Proof. repeat split; group1_shape. Qed.

Lemma role_patterns_group1 :
  ends_in_group1 re_position /\ ends_in_group1 re_role /\
  ends_in_group1 re_looking /\ ends_in_group1 re_seeking.
Proof. repeat split; group1_shape. Qed.

Lemma or_else_cases {A} (a b : option A) r :
  or_else a b = Some r -> a = Some r \/ b = Some r.
Proof. destruct a; simpl; auto. Qed.

(** [analyzeJobDescription] returns a record on every text. *)
Lemma analyzeJobDescription_total text :
  exists company role,
    analyzeJobDescription text =
    Ok (mkJob company role
          (or_placeholder (build_requirements text)
             "Various skills and experiences")).
Proof.
  unfold analyzeJobDescription.
  destruct company_patterns_group1 as [Ha [Hc Hb]].
  destruct role_patterns_group1 as [Hp [Hr [Hl Hs]]].
  edestruct (group1_or_ok text) as [c Hcomp]; [|rewrite Hcomp; simpl].
  { intros r H. apply or_else_cases in H. destruct H as [H|H]; [eauto|].
    apply or_else_cases in H. destruct H as [H|H]; eauto. }
  edestruct (group1_or_ok text) as [c' Hrole]; [|rewrite Hrole; simpl].
  { intros r H. apply or_else_cases in H. destruct H as [H|H]; [eauto|].
    apply or_else_cases in H. destruct H as [H|H]; [eauto|].
    apply or_else_cases in H. destruct H as [H|H]; eauto. }
  eauto.
Qed.

(** ** Stepping lemmas *)

Lemma skip_rest n x s tl :
  rest x = s ++ tl -> length s = n ->
  skip n x = mkState (rev s ++ before x) tl (caps x).
Proof.
  revert x s. induction n as [|n IH]; intros x s H Hl.
  - destruct s; [|discriminate]. simpl in *. destruct x; simpl in *; subst; reflexivity.
  - destruct s as [|c s]; [discriminate|]. simpl in *. injection Hl as Hl.
    rewrite (IH (advance x) s).
    + unfold advance. rewrite H. simpl. rewrite <- app_assoc. reflexivity.
    + unfold advance. rewrite H. reflexivity.
    + exact Hl.
Qed.

Lemma skip_advance n x : skip n (advance x) = skip (S n) x.
Proof. reflexivity. Qed.

Lemma remaining_advance x c tl :
  rest x = c :: tl -> Nat.eqb (remaining (advance x)) (remaining x) = false.
Proof.
  intros H. unfold advance, remaining. rewrite H. simpl.
  apply Nat.eqb_neq. lia.
Qed.

Lemma one_char_class ic neg items :
  one_char ic (RClass neg items) (fun c => xorb neg (class_mem ic items c)).
Proof. intros x k. reflexivity. Qed.


(** A greedy quantifier without upper bound over a one-character
    pattern tries the longest run first. *)
Lemma greedy_run ic r p : one_char ic r p ->
  forall s x min k, rest x = s ->
    m ic (RRep r min None true) x k = try_down k (run_len p s) min x.
Proof.
  intros Hr s. induction s as [|c s IH]; intros x min k Hs;
    rewrite m_rep; cbn [max_is_zero max_pred]; cbv zeta; rewrite !Hr, !Hs.
  - destruct min; reflexivity.
  - cbn [run_len]. destruct (p c) eqn:Ep.
    + rewrite (remaining_advance x c s Hs), andb_false_r.
      assert (Ha : rest (advance x) = s) by (unfold advance; rewrite Hs; reflexivity).
      destruct min as [|min]; cbn [Nat.eqb negb Nat.pred try_down];
        rewrite (IH (advance x) _ k Ha); reflexivity.
    + destruct min; reflexivity.
Qed.

Lemma try_down_none k n lo x :
  try_down k n lo x = None <->
  (forall j, (lo <= j <= n)%nat -> k (skip j x) = None).
Proof.
  revert lo x. induction n as [|n IH]; intros lo x; cbn [try_down].
  - destruct lo; cbn [Nat.eqb]; split.
    + intros H j Hj. replace j with O by lia. exact H.
    + intros H. apply (H O). lia.
    + intros _ j Hj. lia.
    + reflexivity.
  - destruct lo as [|lo].
    + split.
      * intros H j Hj.
        destruct (try_down k n 0 (advance x)) eqn:E; [discriminate|].
        simpl in H. destruct j as [|j]; [exact H|].
        rewrite <- skip_advance. apply (proj1 (IH O (advance x)) E). lia.
      * intros H.
        assert (E : try_down k n 0 (advance x) = None).
        { apply IH. intros j Hj. rewrite skip_advance. apply H. lia. }
        rewrite E. simpl. apply (H O). lia.
    + rewrite IH. split; intros H j Hj.
      * destruct j as [|j]; [lia|]. rewrite <- skip_advance. apply H. lia.
      * rewrite skip_advance. apply H. lia.
Qed.

Lemma try_down_some k n lo x z :
  try_down k n lo x = Some z <->
  (exists j, (lo <= j <= n)%nat /\ k (skip j x) = Some z /\
             forall j', (j < j' <= n)%nat -> k (skip j' x) = None).
Proof.
  revert lo x. induction n as [|n IH]; intros lo x; cbn [try_down].
  - destruct lo; cbn [Nat.eqb]; split.
    + intros H. exists O. repeat split; [lia|lia|exact H|intros; lia].
    + intros [j [Hj [H _]]]. replace j with O in H by lia. exact H.
    + discriminate.
    + intros [j [Hj _]]. lia.
  - destruct lo as [|lo].
    + split.
      * intros H. apply or_else_some in H. destruct H as [H|[E H]].
        -- apply IH in H. destruct H as [j [Hj [H Hn]]].
           exists (S j). repeat split; [lia|lia|exact H|].
           intros j' Hj'. destruct j' as [|j']; [lia|].
           rewrite <- skip_advance. apply Hn. lia.
        -- exists O. repeat split; [lia|lia|exact H|].
           intros j' Hj'. destruct j' as [|j']; [lia|].
           rewrite <- skip_advance.
           apply (proj1 (try_down_none k n 0 (advance x)) E). lia.
      * intros [j [Hj [H Hn]]]. destruct j as [|j].
        -- assert (E : try_down k n 0 (advance x) = None).
           { apply try_down_none. intros j Hj'. rewrite skip_advance.
             apply Hn. lia. }
           rewrite E. exact H.
        -- assert (E : try_down k n 0 (advance x) = Some z).
           { apply IH. exists j. repeat split; [lia|lia|exact H|].
             intros j' Hj'. rewrite skip_advance. apply Hn. lia. }
           rewrite E. reflexivity.
    + rewrite IH. split; intros [j [Hj [H Hn]]].
      * exists (S j). repeat split; [lia|lia|exact H|].
        intros j' Hj'. destruct j' as [|j']; [lia|].
        rewrite <- skip_advance. apply Hn. lia.
      * destruct j as [|j]; [lia|]. exists j.
        repeat split; [lia|lia|exact H|].
        intros j' Hj'. rewrite skip_advance. apply Hn. lia.
Qed.

(** A run of literal characters matches exactly when the input begins
    with it. *)
Lemma m_lit ic l x k :
  l <> [] ->
  m ic (seq (map RChar l)) x k =
  if lit_at ic l (rest x) then k (skip (length l) x) else None.
Proof.
  revert x. induction l as [|a l IH]; intros x Hne; [contradiction|].
  destruct l as [|b l].
  - cbn [map seq m lit_at length skip].
    destruct (rest x) as [|c tl]; [reflexivity|].
    destruct (char_match ic a c); reflexivity.
  - change (seq (map RChar (a :: b :: l)))
      with (RSeq (RChar a) (seq (map RChar (b :: l)))).
    cbn [m]. cbn [lit_at].
    destruct (rest x) as [|c tl] eqn:E; [reflexivity|].
    destruct (char_match ic a c); [|reflexivity].
    rewrite IH by discriminate.
    assert (Ha : rest (advance x) = tl) by (unfold advance; rewrite E; reflexivity).
    rewrite Ha. reflexivity.
Qed.

(** ** Where [scan] stops *)

Lemma scan_here re bef s y :
  match_at re (mkState bef s []) = Some y ->
  scan re bef s =
  Some (mkMatch (length bef) (taken (mkState bef s []) y) (caps y)).
Proof. intros H. destruct s; simpl; rewrite H; reflexivity. Qed.

Lemma scan_skip re pre : forall bef s,
  (forall p1 c p2, pre = p1 ++ c :: p2 ->
     match_at re (mkState (rev p1 ++ bef) (c :: p2 ++ s) []) = None) ->
  scan re bef (pre ++ s) = scan re (rev pre ++ bef) s.
Proof.
  induction pre as [|c pre IH]; intros bef s H; [reflexivity|].
  pose proof (H [] c pre eq_refl) as H0. cbn [rev app] in H0.
  cbn [app scan]. rewrite H0.
  rewrite IH.
  - simpl. rewrite <- app_assoc. reflexivity.
  - intros p1 c' p2 ->. specialize (H (c :: p1) c' p2 eq_refl).
    simpl in H. rewrite <- app_assoc in H. exact H.
Qed.

Lemma scan_none re : forall s bef,
  (forall p1 p2, s = p1 ++ p2 ->
     match_at re (mkState (rev p1 ++ bef) p2 []) = None) ->
  scan re bef s = None.
Proof.
  induction s as [|c s IH]; intros bef H.
  - pose proof (H [] [] eq_refl) as H0. cbn [rev app] in H0.
    cbn [scan]. rewrite H0. reflexivity.
  - pose proof (H [] (c :: s) eq_refl) as H0. cbn [rev app] in H0.
    cbn [scan]. rewrite H0.
    apply IH. intros p1 p2 ->. specialize (H (c :: p1) p2 eq_refl).
    simpl in H. rewrite <- app_assoc in H. exact H.
Qed.

(** [scan] answers with the first position, from the left, at which the
    matcher succeeds. *)
Lemma scan_some re : forall s bef res,
  scan re bef s = Some res ->
  exists p1 p2 y,
    s = p1 ++ p2 /\
    match_at re (mkState (rev p1 ++ bef) p2 []) = Some y /\
    res = mkMatch (length p1 + length bef)
            (taken (mkState (rev p1 ++ bef) p2 []) y) (caps y) /\
    (forall q1 c q2, p1 = q1 ++ c :: q2 ->
       match_at re (mkState (rev q1 ++ bef) (c :: q2 ++ p2) []) = None).
Proof.
  induction s as [|c s IH]; intros bef res H.
  - simpl in H.
    destruct (match_at re (mkState bef [] [])) as [y|] eqn:E; [|discriminate].
    injection H as <-. exists [], [], y. repeat split; auto.
    intros q1 c q2 Hq. destruct q1; discriminate.
  - cbn [scan] in H.
    destruct (match_at re (mkState bef (c :: s) [])) as [y|] eqn:E.
    + injection H as <-. exists [], (c :: s), y. repeat split; auto.
      intros q1 c' q2 Hq. destruct q1; discriminate.
    + apply IH in H. destruct H as [p1 [p2 [y [-> [Hm [-> Hn]]]]]].
      exists (c :: p1), p2, y. simpl. rewrite <- app_assoc. simpl.
      repeat split; auto.
      * f_equal. rewrite ?length_app; simpl; lia.
      * intros q1 c' q2 Hq. destruct q1 as [|c0 q1]; simpl in Hq.
        -- injection Hq as <- <-. exact E.
        -- injection Hq as <- ->. specialize (Hn q1 c' q2 eq_refl).
           simpl. rewrite <- app_assoc. exact Hn.
Qed.

(** ** Character classes under the [i] flag *)

Lemma is_space_cases c :
  is_space c = true -> (9 <= c <= 13) \/ c = 32 \/ 160 <= c.
Proof.
  unfold is_space, in_range.
  rewrite !orb_true_iff, !andb_true_iff, !N.leb_le, !N.eqb_eq. lia.
Qed.

Lemma is_lower_range c : is_lower c = true <-> 97 <= c <= 122.
Proof. unfold is_lower, in_range. rewrite andb_true_iff, !N.leb_le. tauto. Qed.

Lemma is_upper_range c : is_upper c = true <-> 65 <= c <= 90.
Proof. unfold is_upper, in_range. rewrite andb_true_iff, !N.leb_le. tauto. Qed.

Lemma letter_not_space c : 65 <= c <= 122 -> is_space c = false.
Proof.
  intros H. destruct (is_space c) eqn:E; [|reflexivity].
  apply is_space_cases in E. lia.
Qed.

Lemma canon_cases c :
  (is_lower c = true /\ canon c = c - 32) \/ (is_lower c = false /\ canon c = c).
Proof. unfold canon. destruct (is_lower c); auto. Qed.

Lemma to_lower_cases c :
  (is_upper c = true /\ to_lower c = c + 32) \/
  (is_upper c = false /\ to_lower c = c).
Proof. unfold to_lower. destruct (is_upper c); auto. Qed.

(** [\s] accepts the same characters with and without [i]. *)
Lemma space_class ic c : class_mem ic [CEsc EscS] c = is_space c.
Proof.
  unfold class_mem, existsb, item_mem, esc_mem. rewrite orb_false_r.
  destruct ic; cbn [andb]; [|apply orb_false_r].
  destruct (is_space c) eqn:E; [reflexivity|]. cbn [orb].
  destruct (canon_cases c) as [[Hl ->]|[_ ->]];
    destruct (to_lower_cases c) as [[Hu ->]|[_ ->]];
    rewrite ?E; try reflexivity;
    try apply is_lower_range in Hl; try apply is_upper_range in Hu;
    rewrite ?letter_not_space by lia; reflexivity.
Qed.



Lemma canon_fixes c a :
  a < 65 \/ (90 < a /\ a < 97) \/ 122 < a -> (canon a =? canon c) = (a =? c).
Proof.
  intros Ha.
  assert (Hla : is_lower a = false).
  { destruct (is_lower a) eqn:E; [apply is_lower_range in E; lia|reflexivity]. }
  unfold canon at 1. rewrite Hla.
  destruct (canon_cases c) as [[Hl ->]|[_ ->]]; [|reflexivity].
  apply is_lower_range in Hl.
  destruct (N.eqb_spec a (c - 32)), (N.eqb_spec a c); try reflexivity; lia.
Qed.

(** A character that is not a letter matches only itself. *)
Lemma char_match_plain ic a c :
  a < 65 \/ (90 < a /\ a < 97) \/ 122 < a -> char_match ic a c = (a =? c).
Proof.
  intros Ha. destruct ic; cbn [char_match]; [|reflexivity].
  apply canon_fixes. exact Ha.
Qed.

(** ** Bounded and lazy quantifiers *)



(** A lazy quantifier without upper bound over a one-character pattern
    tries the shortest run first. *)
Lemma lazy_run ic r p : one_char ic r p ->
  forall s x min k, rest x = s ->
    m ic (RRep r min None false) x k = try_up k (run_len p s) min x.
Proof.
  intros Hr s. induction s as [|c s IH]; intros x min k Hs;
    rewrite m_rep; cbn [max_is_zero max_pred]; cbv zeta; rewrite !Hr, !Hs.
  - destruct min; cbn [run_len try_up Nat.eqb negb]; [|reflexivity].
    destruct (k x); reflexivity.
  - cbn [run_len]. destruct (p c) eqn:Ep.
    + rewrite (remaining_advance x c s Hs), andb_false_r.
      assert (Ha : rest (advance x) = s) by (unfold advance; rewrite Hs; reflexivity).
      destruct min as [|min]; cbn [Nat.eqb negb Nat.pred try_up];
        rewrite (IH (advance x) _ k Ha); reflexivity.
    + destruct min; cbn [try_up Nat.eqb negb]; [|reflexivity].
      destruct (k x); reflexivity.
Qed.

Lemma try_up_first k n lo x j z :
  (lo <= j <= n)%nat ->
  (forall j', (lo <= j' < j)%nat -> k (skip j' x) = None) ->
  k (skip j x) = Some z ->
  try_up k n lo x = Some z.
Proof.
  revert lo x j. induction n as [|n IH]; intros lo x j Hj Hn Hk; cbn [try_up].
  - assert (lo = O) by lia. assert (j = O) by lia. subst. exact Hk.
  - destruct lo as [|lo].
    + destruct j as [|j].
      * cbn [skip] in Hk. rewrite Hk. reflexivity.
      * pose proof (Hn O ltac:(lia)) as H0. cbn [skip] in H0. rewrite H0.
        cbn [or_else]. apply (IH O (advance x) j); [lia| |exact Hk].
        intros j' Hj'. rewrite skip_advance. apply Hn. lia.
    + destruct j as [|j]; [lia|].
      apply (IH lo (advance x) j); [lia| |exact Hk].
      intros j' Hj'. rewrite skip_advance. apply Hn. lia.
Qed.

Lemma run_len_app p s tl :
  Forall (fun c => p c = true) s ->
  (tl = [] \/ exists c tl', tl = c :: tl' /\ p c = false) ->
  run_len p (s ++ tl) = length s.
Proof.
  intros Hs Htl. induction Hs as [|c s Hc Hs IH]; simpl.
  - destruct Htl as [->|[c [tl' [-> Hc]]]]; simpl; [reflexivity|].
    rewrite Hc. reflexivity.
  - rewrite Hc, IH. reflexivity.
Qed.

Lemma run_len_ge p s tl :
  Forall (fun c => p c = true) s -> (length s <= run_len p (s ++ tl))%nat.
Proof.
  intros Hs. induction Hs as [|c s Hc Hs IH]; simpl; [lia|].
  rewrite Hc. lia.
Qed.

(** ** The look-ahead for the next heading *)

Lemma advance_cons x c tl :
  rest x = c :: tl -> advance x = mkState (c :: before x) tl (caps x).
Proof. intros H. unfold advance. rewrite H. reflexivity. Qed.





(** ** The parts of a section pattern *)


(** [\s*] takes the whole run of white space when the rest then matches. *)
Lemma star_space ic y k ws r z :
  rest y = ws ++ r ->
  Forall (fun a => is_space a = true) ws ->
  (r = [] \/ exists c r', r = c :: r' /\ is_space c = false) ->
  k (skip (length ws) y) = Some z ->
  m ic (star (esc EscS)) y k = Some z.
Proof.
  intros Hy Hws Hr Hk. unfold star, esc.
  rewrite (greedy_run ic _ _ (one_char_class ic false [CEsc EscS]) _ y _ _ Hy).
  rewrite run_len_app.
  - apply try_down_some. exists (length ws).
    repeat split; [lia|lia|exact Hk|intros; lia].
  - eapply Forall_impl; [|exact Hws]. intros c Hc. cbv beta.
    rewrite space_class, Hc. reflexivity.
  - destruct Hr as [->|[c [r' [-> Hc]]]]; [left; reflexivity|].
    right. exists c, r'. split; [reflexivity|]. cbv beta.
    rewrite space_class, Hc. reflexivity.
Qed.

Lemma run_len_all p s :
  (forall c, p c = true) -> run_len p s = length s.
Proof.
  intros Hp. induction s as [|c s IH]; simpl; [reflexivity|].
  rewrite Hp, IH. reflexivity.
Qed.


(** ** The skills heading *)

Lemma same_ci_length h l : same_ci h l -> length h = length l.
Proof.
  unfold same_ci. intros H. apply (f_equal (@length _)) in H.
  rewrite !length_map in H. exact H.
Qed.

Lemma lit_at_same_ci l : forall h tl,
  same_ci h l -> lit_at true l (h ++ tl) = true.
Proof.
  induction l as [|a l IH]; intros h tl H; [reflexivity|].
  destruct h as [|c h]; [discriminate|].
  unfold same_ci in H. simpl in H. injection H as Hc Hh.
  cbn [app lit_at char_match]. rewrite Hc, N.eqb_refl. cbn [andb].
  apply IH. exact Hh.
Qed.





Lemma skip_rest_tail n x s tl :
  rest x = s ++ tl -> length s = n -> rest (skip n x) = tl.
Proof. intros H Hl. rewrite (skip_rest n x s tl H Hl). reflexivity. Qed.

(** ** A skills section found in a text *)



(** ** Lines *)



Lemma split_on_covers c : forall s,
  In c s -> c <> NL -> exists line, In line (split_on NL s) /\ In c line.
Proof.
  induction s as [|a s IH]; intros Hin Hc; [destruct Hin|].
  cbn [split_on]. destruct (N.eqb_spec a NL) as [->|Ha].
  - destruct Hin as [E|Hin]; [congruence|].
    destruct (IH Hin Hc) as [line [Hl Hcl]].
    exists line. split; [right; exact Hl|exact Hcl].
  - destruct (split_on NL s) as [|piece more] eqn:Es.
    + destruct Hin as [->|Hin]; [exists [c]; simpl; auto|].
      destruct (IH Hin Hc) as [line [[] _]].
    + destruct Hin as [->|Hin].
      * exists (c :: piece). simpl; auto.
      * destruct (IH Hin Hc) as [line [[<-|Hl] Hcl]].
        -- exists (a :: piece). simpl; auto.
        -- exists line. simpl; auto.
Qed.

Lemma trim_start_keeps c : forall s,
  In c s -> is_space c = false -> In c (trim_start s).
Proof.
  induction s as [|a s IH]; intros Hin Hc; [destruct Hin|].
  cbn [trim_start]. destruct (is_space a) eqn:Ea; [|exact Hin].
  destruct Hin as [->|Hin]; [congruence|]. apply IH; assumption.
Qed.

Lemma trim_keeps c s : In c s -> is_space c = false -> In c (trim s).
Proof.
  intros Hin Hc. unfold trim, trim_end.
  apply (proj1 (in_rev (trim_start (rev (trim_start s))) c)).
  apply trim_start_keeps; [|exact Hc].
  apply (proj1 (in_rev (trim_start s) c)).
  apply trim_start_keeps; assumption.
Qed.

Lemma space_NL c : is_space c = false -> c <> NL.
Proof. intros H ->. discriminate. Qed.

(** A text with a character that is not white space has a first
    non-blank line, and [extractResumeData] returns a record. *)
Lemma extractResumeData_ok text c :
  In c text -> is_space c = false ->
  exists name,
    extractResumeData text =
    Ok (mkResume name
          (matched_or_empty (str_match text re_email))
          (matched_or_empty (str_match text re_phone))
          (or_placeholder (extract_lines text re_experience)
             "Various professional experiences")
          (or_placeholder (extract_lines text re_education)
             "Relevant educational background")
          (or_placeholder (extract_skills text) "Various professional skills")).
Proof.
  intros Hin Hc. unfold extractResumeData.
  destruct (split_on_covers c text Hin (space_NL c Hc)) as [line [Hl Hcl]].
  assert (Hf : In line (filter (fun line => truthy (trim line)) (split_on NL text))).
  { apply filter_In. split; [exact Hl|].
    pose proof (trim_keeps c line Hcl Hc) as Ht.
    destruct (trim line); [destruct Ht|reflexivity]. }
  destruct (filter (fun line => truthy (trim line)) (split_on NL text)) as [|l0 ls];
    [destruct Hf|].
  cbn [nth_error trim_of bind]. eexists. reflexivity.
Qed.


(** ** The classes of the email pattern *)

Lemma local_class_mem c : class_mem false local_class c = is_local c.
Proof.
  unfold class_mem, local_class, is_local, is_letter, is_upper, is_lower,
    is_digit, existsb, item_mem.
  cbn [andb]. rewrite !orb_false_r, !orb_assoc. reflexivity.
Qed.

Lemma domain_class_mem c : class_mem false domain_class c = is_domain c.
Proof.
  unfold class_mem, domain_class, is_domain, is_letter, is_upper, is_lower,
    is_digit, existsb, item_mem.
  cbn [andb]. rewrite !orb_false_r, !orb_assoc. reflexivity.
Qed.

Lemma tld_class_mem c : class_mem false tld_class c = is_tld c.
Proof.
  unfold class_mem, tld_class, is_tld, is_letter, is_upper, is_lower,
    existsb, item_mem.
  cbn [andb]. rewrite !orb_false_r.
  change (in_range (ch "A") (ch "Z") c) with (in_range 65 90 c).
  change (in_range (ch "a") (ch "z") c) with (in_range 97 122 c).
  destruct (in_range 65 90 c), (ch "|" =? c), (in_range 97 122 c); reflexivity.
Qed.

Lemma match_at_email x :
  match_at re_email x =
  if xorb (word_at (hd_error (before x))) (word_at (hd_error (rest x)))
  then m false (plus (RClass false local_class)) x email_tail1
  else None.
Proof. reflexivity. Qed.

(** ** Runs of a class *)

Lemma run_len_ext p q s :
  (forall c, p c = q c) -> run_len p s = run_len q s.
Proof.
  intros H. induction s as [|c s IH]; simpl; [reflexivity|].
  rewrite H, IH. reflexivity.
Qed.

Lemma run_len_prefix p : forall s j,
  (j <= run_len p s)%nat ->
  exists l r, s = l ++ r /\ length l = j /\ Forall (fun c => p c = true) l.
Proof.
  induction s as [|c s IH]; intros j Hj; simpl in Hj.
  - exists [], []. assert (j = O) by lia. subst. auto.
  - destruct j as [|j]; [exists [], (c :: s); auto|].
    destruct (p c) eqn:Ec; [|lia].
    destruct (IH j ltac:(lia)) as [l [r [-> [Hl Hf]]]].
    exists (c :: l), r. simpl. auto.
Qed.

Lemma run_len_nth p : forall s i,
  (i < run_len p s)%nat -> exists c, nth_error s i = Some c /\ p c = true.
Proof.
  induction s as [|c s IH]; intros i Hi; simpl in Hi; [lia|].
  destruct (p c) eqn:Ec; [|lia].
  destruct i as [|i]; [exists c; auto|].
  apply IH. lia.
Qed.

Lemma rest_advance x : rest (advance x) = skipn 1 (rest x).
Proof. unfold advance. destruct (rest x) eqn:E; simpl; auto. Qed.

Lemma rest_skip n : forall x, rest (skip n x) = skipn n (rest x).
Proof.
  induction n as [|n IH]; intros x; [reflexivity|].
  cbn [skip]. rewrite IH, rest_advance, skipn_skipn.
  f_equal. lia.
Qed.

Lemma skip_add a : forall b x, skip a (skip b x) = skip (b + a) x.
Proof.
  intros b. induction b as [|b IH]; intros x; [reflexivity|].
  cbn [skip Nat.add]. apply IH.
Qed.

Lemma advance_skip n x : advance (skip n x) = skip (S n) x.
Proof.
  change (advance (skip n x)) with (skip 1 (skip n x)).
  rewrite skip_add. f_equal. lia.
Qed.

Lemma next_is_nth a n y :
  next_is a (skip n y) = true -> nth_error (rest y) n = Some a.
Proof.
  unfold next_is. rewrite rest_skip.
  destruct (skipn n (rest y)) as [|c tl] eqn:E; [discriminate|].
  intros H. apply N.eqb_eq in H. subst c.
  rewrite <- (Nat.add_0_r n), <- nth_error_skipn, E. reflexivity.
Qed.

Lemma m_char_next a y k :
  m false (RChar a) y k = if next_is a y then k (advance y) else None.
Proof. unfold next_is. cbn [m char_match]. destruct (rest y); reflexivity. Qed.

(** ** The email pattern, level by level *)

Lemma email_tail3_spec y : email_tail3 y = if bnd y then Some y else None.
Proof. reflexivity. Qed.

Lemma tld_run y k :
  m false (at_least (RClass false tld_class) 2) y k =
  try_down k (run_len is_tld (rest y)) 2 y.
Proof.
  unfold at_least.
  rewrite (greedy_run false _ _ (one_char_class false false tld_class) _ y _ _ eq_refl).
  f_equal. apply run_len_ext. intros c. cbn [xorb]. apply tld_class_mem.
Qed.

Lemma domain_run y k :
  m false (plus (RClass false domain_class)) y k =
  try_down k (run_len is_domain (rest y)) 1 y.
Proof.
  unfold plus.
  rewrite (greedy_run false _ _ (one_char_class false false domain_class) _ y _ _ eq_refl).
  f_equal. apply run_len_ext. intros c. cbn [xorb]. apply domain_class_mem.
Qed.

Lemma local_run y k :
  m false (plus (RClass false local_class)) y k =
  try_down k (run_len is_local (rest y)) 1 y.
Proof.
  unfold plus.
  rewrite (greedy_run false _ _ (one_char_class false false local_class) _ y _ _ eq_refl).
  f_equal. apply run_len_ext. intros c. cbn [xorb]. apply local_class_mem.
Qed.

Lemma levelT_some y z :
  m false (at_least (RClass false tld_class) 2) y email_tail3 = Some z ->
  exists nt, okT y nt /\ z = skip nt y /\ forall nt', okT y nt' -> (nt' <= nt)%nat.
Proof.
  rewrite tld_run. intros H. apply try_down_some in H.
  destruct H as [j [Hj [Hk Hmax]]]. rewrite email_tail3_spec in Hk.
  destruct (bnd (skip j y)) eqn:Eb; [|discriminate]. injection Hk as <-.
  exists j. split; [split; assumption|]. split; [reflexivity|].
  intros nt' [Hr Hb].
  destruct (Nat.le_gt_cases nt' j) as [Hle|Hgt]; [exact Hle|].
  specialize (Hmax nt' ltac:(lia)). rewrite email_tail3_spec, Hb in Hmax.
  discriminate.
Qed.

Lemma levelT_none y nt :
  m false (at_least (RClass false tld_class) 2) y email_tail3 = None ->
  ~ okT y nt.
Proof.
  rewrite tld_run. intros H [Hr Hb].
  pose proof (proj1 (try_down_none _ _ _ _) H nt Hr) as Hk.
  rewrite email_tail3_spec, Hb in Hk. discriminate.
Qed.

Lemma email_tail2_spec y :
  email_tail2 y =
  if next_is (ch ".") y
  then m false (at_least (RClass false tld_class) 2) (advance y) email_tail3
  else None.
Proof. unfold email_tail2. apply m_char_next. Qed.

Lemma levelD_some y z :
  m false (plus (RClass false domain_class)) y email_tail2 = Some z ->
  exists nd nt,
    okD y nd nt /\ z = skip (nd + 1 + nt) y /\
    forall nd' nt', okD y nd' nt' ->
      (nd' < nd)%nat \/ (nd' = nd /\ (nt' <= nt)%nat).
Proof.
  rewrite domain_run. intros H. apply try_down_some in H.
  destruct H as [j [Hj [Hk Hmax]]]. rewrite email_tail2_spec in Hk.
  destruct (next_is (ch ".") (skip j y)) eqn:En; [|discriminate].
  rewrite advance_skip in Hk. apply levelT_some in Hk.
  destruct Hk as [nt [HT [-> HTmax]]].
  exists j, nt. split; [exact (conj Hj (conj En HT))|].
  split; [rewrite skip_add; f_equal; lia|].
  intros nd' nt' [Hr [Hn' HT']].
  destruct (Nat.lt_trichotomy nd' j) as [Hlt|[->|Hgt]].
  - left. exact Hlt.
  - right. split; [reflexivity|]. apply HTmax. exact HT'.
  - exfalso. specialize (Hmax nd' ltac:(lia)).
    rewrite email_tail2_spec, Hn', advance_skip in Hmax.
    exact (levelT_none _ nt' Hmax HT').
Qed.

Lemma levelD_none y nd nt :
  m false (plus (RClass false domain_class)) y email_tail2 = None ->
  ~ okD y nd nt.
Proof.
  rewrite domain_run. intros H [Hr [Hn HT]].
  pose proof (proj1 (try_down_none _ _ _ _) H nd Hr) as Hk.
  rewrite email_tail2_spec, Hn, advance_skip in Hk.
  exact (levelT_none _ nt Hk HT).
Qed.

Lemma email_tail1_spec y :
  email_tail1 y =
  if next_is (ch "@") y
  then m false (plus (RClass false domain_class)) (advance y) email_tail2
  else None.
Proof. unfold email_tail1. apply m_char_next. Qed.

(** The local part is the whole run before the at sign. *)
Lemma local_part_run x nl :
  (nl <= run_len is_local (rest x))%nat ->
  next_is (ch "@") (skip nl x) = true ->
  nl = run_len is_local (rest x).
Proof.
  intros Hr Hn. apply next_is_nth in Hn.
  destruct (Nat.eq_dec nl (run_len is_local (rest x))) as [E|E]; [exact E|].
  destruct (run_len_nth is_local (rest x) nl ltac:(lia)) as [c [Hc Hp]].
  rewrite Hn in Hc. injection Hc as <-. discriminate.
Qed.

(** Where the pattern matches at a state, and what it prefers. *)
Lemma match_at_email_some x z :
  match_at re_email x = Some z ->
  exists nl nd nt,
    okL x nl nd nt /\ z = skip (nl + 1 + nd + 1 + nt) x /\
    forall nl' nd' nt', okL x nl' nd' nt' ->
      nl' = nl /\ ((nd' < nd)%nat \/ (nd' = nd /\ (nt' <= nt)%nat)).
Proof.
  rewrite match_at_email. fold (bnd x).
  destruct (bnd x) eqn:Eb; [|discriminate].
  rewrite local_run. intros H. apply try_down_some in H.
  destruct H as [j [Hj [Hk _]]]. rewrite email_tail1_spec in Hk.
  destruct (next_is (ch "@") (skip j x)) eqn:En; [|discriminate].
  rewrite advance_skip in Hk. apply levelD_some in Hk.
  destruct Hk as [nd [nt [HD [-> HDmax]]]].
  exists j, nd, nt. split; [exact (conj Eb (conj Hj (conj En HD)))|].
  split; [rewrite skip_add; f_equal; lia|].
  intros nl' nd' nt' [_ [Hr' [Hn' HD']]].
  assert (nl' = j).
  { rewrite (local_part_run x nl') by (lia || assumption).
    rewrite (local_part_run x j) by (lia || assumption). reflexivity. }
  subst nl'. split; [reflexivity|]. apply HDmax. exact HD'.
Qed.

Lemma match_at_email_none x nl nd nt :
  match_at re_email x = None -> ~ okL x nl nd nt.
Proof.
  rewrite match_at_email. fold (bnd x). intros H [Hb [Hr [Hn HD]]].
  rewrite Hb, local_run in H.
  pose proof (proj1 (try_down_none _ _ _ _) H nl Hr) as Hk.
  rewrite email_tail1_spec, Hn, advance_skip in Hk.
  exact (levelD_none _ nd nt Hk HD).
Qed.

(** ** Between the text and the levels *)

Lemma skip_state n x s tl :
  rest x = s ++ tl -> length s = n ->
  before (skip n x) = rev s ++ before x /\ rest (skip n x) = tl.
Proof. intros H Hl. rewrite (skip_rest n x s tl H Hl). split; reflexivity. Qed.

Lemma next_is_cons a y tl : rest y = a :: tl -> next_is a y = true.
Proof. intros H. unfold next_is. rewrite H. apply N.eqb_refl. Qed.

Lemma next_is_inv a y :
  next_is a y = true -> exists tl, rest y = a :: tl.
Proof.
  unfold next_is. destruct (rest y) as [|c tl]; [discriminate|].
  intros H. apply N.eqb_eq in H. subst. eauto.
Qed.

Lemma nonempty_length {A} (l : list A) : l <> [] -> (1 <= length l)%nat.
Proof. destruct l; [contradiction|simpl; lia]. Qed.

(** An address that stands at a state gives the three lengths. *)
Lemma shape_ok x pre l d t post :
  before x = rev pre ->
  rest x = (l ++ ch "@" :: d ++ ch "." :: t) ++ post ->
  l <> [] -> Forall (fun c => is_local c = true) l ->
  d <> [] -> Forall (fun c => is_domain c = true) d ->
  (2 <= length t)%nat -> Forall (fun c => is_tld c = true) t ->
  boundary pre ((l ++ ch "@" :: d ++ ch "." :: t) ++ post) = true ->
  boundary (pre ++ l ++ ch "@" :: d ++ ch "." :: t) post = true ->
  okL x (length l) (length d) (length t).
Proof.
  intros Hb Hr Hl Hfl Hd Hfd Ht Hft Hb1 Hb2. unfold okL, okD, okT.
  assert (Hr0 : rest x = l ++ ch "@" :: d ++ ch "." :: t ++ post).
  { rewrite Hr, <- app_assoc. simpl. rewrite <- app_assoc. reflexivity. }
  assert (Hr1 : rest x = (l ++ [ch "@"]) ++ d ++ ch "." :: t ++ post).
  { rewrite Hr0, <- app_assoc. reflexivity. }
  destruct (skip_state (length l) x l _ Hr0 eq_refl) as [_ Hrl].
  destruct (skip_state (S (length l)) x (l ++ [ch "@"]) _ Hr1) as [Hb1' Hr1'].
  { rewrite length_app. simpl. lia. }
  set (y1 := skip (S (length l)) x) in *.
  assert (Hr2 : rest y1 = (d ++ [ch "."]) ++ t ++ post).
  { rewrite Hr1', <- app_assoc. reflexivity. }
  destruct (skip_state (length d) y1 d _ Hr1' eq_refl) as [_ Hrd].
  destruct (skip_state (S (length d)) y1 (d ++ [ch "."]) _ Hr2) as [Hb2' Hr2'].
  { rewrite length_app. simpl. lia. }
  set (y2 := skip (S (length d)) y1) in *.
  destruct (skip_state (length t) y2 t post Hr2' eq_refl) as [Hb3 Hr3].
  split; [|split; [|split; [|split; [|split; [|split]]]]].
  - unfold bnd. rewrite Hb, Hr. exact Hb1.
  - split; [apply nonempty_length; exact Hl|].
    rewrite Hr0. apply run_len_ge. exact Hfl.
  - eapply next_is_cons. exact Hrl.
  - split; [apply nonempty_length; exact Hd|].
    rewrite Hr1'. apply run_len_ge. exact Hfd.
  - eapply next_is_cons. exact Hrd.
  - split; [exact Ht|]. rewrite Hr2'. apply run_len_ge. exact Hft.
  - unfold bnd. rewrite Hb3, Hr3, Hb2', Hb1', Hb.
    unfold boundary in Hb2.
    replace (rev t ++ rev (d ++ [ch "."]) ++ rev (l ++ [ch "@"]) ++ rev pre)
      with (rev (pre ++ l ++ ch "@" :: d ++ ch "." :: t)); [exact Hb2|].
    rewrite !rev_app_distr. simpl. rewrite !rev_app_distr. simpl.
    rewrite <- !app_assoc. reflexivity.
Qed.

(** The three lengths give an address that stands at the state. *)
Lemma ok_shape x nl nd nt :
  okL x nl nd nt ->
  exists l d t post,
    rest x = (l ++ ch "@" :: d ++ ch "." :: t) ++ post /\
    length l = nl /\ length d = nd /\ length t = nt /\
    email_shape is_tld (l ++ ch "@" :: d ++ ch "." :: t) /\
    bnd x = true /\
    xorb (word_at (hd_error (rev (l ++ ch "@" :: d ++ ch "." :: t) ++ before x)))
         (word_at (hd_error post)) = true /\
    rest (skip (nl + 1 + nd + 1 + nt) x) = post.
Proof.
  intros [Hb [[Hl1 Hl2] [Hn1 [[Hd1 Hd2] [Hn2 [[Ht1 Ht2] Hb3]]]]]].
  destruct (run_len_prefix is_local (rest x) nl Hl2) as [l [r1 [Hr [Hll Hfl]]]].
  destruct (skip_state nl x l r1 Hr Hll) as [_ Hrl].
  destruct (next_is_inv _ _ Hn1) as [r2 Hr2].
  rewrite Hr2 in Hrl. subst r1.
  assert (Hr1 : rest x = (l ++ [ch "@"]) ++ r2).
  { rewrite Hr, <- app_assoc. reflexivity. }
  destruct (skip_state (S nl) x (l ++ [ch "@"]) r2 Hr1) as [Hb1' Hr1'].
  { rewrite length_app. simpl. lia. }
  set (y1 := skip (S nl) x) in *.
  rewrite Hr1' in Hd2.
  destruct (run_len_prefix is_domain r2 nd Hd2) as [d [r3 [Hr3 [Hld Hfd]]]].
  rewrite Hr3 in Hr1'.
  destruct (skip_state nd y1 d r3 Hr1' Hld) as [_ Hrd].
  destruct (next_is_inv _ _ Hn2) as [r4 Hr4].
  rewrite Hr4 in Hrd. subst r3.
  assert (Hr2' : rest y1 = (d ++ [ch "."]) ++ r4).
  { rewrite Hr1', <- app_assoc. reflexivity. }
  destruct (skip_state (S nd) y1 (d ++ [ch "."]) r4 Hr2') as [Hb2' Hr4'].
  { rewrite length_app. simpl. lia. }
  set (y2 := skip (S nd) y1) in *.
  rewrite Hr4' in Ht2.
  destruct (run_len_prefix is_tld r4 nt Ht2) as [t [post [Hr5 [Hlt Hft]]]].
  rewrite Hr5 in Hr4'.
  destruct (skip_state nt y2 t post Hr4' Hlt) as [Hb3' Hr6].
  exists l, d, t, post.
  split; [|split; [exact Hll|split; [exact Hld|split; [exact Hlt|split; [|split; [exact Hb|split]]]]]].
  - rewrite Hr, Hr3, Hr5, <- app_assoc. simpl. rewrite <- app_assoc. reflexivity.
  - exists l, d, t. split; [reflexivity|].
    split; [intros ->; simpl in Hll; lia|]. split; [exact Hfl|].
    split; [intros ->; simpl in Hld; lia|]. split; [exact Hfd|].
    split; [lia|exact Hft].
  - unfold bnd in Hb3. rewrite Hb3', Hr6, Hb2', Hb1' in Hb3.
    replace (rev (l ++ ch "@" :: d ++ ch "." :: t) ++ before x)
      with (rev t ++ rev (d ++ [ch "."]) ++ rev (l ++ [ch "@"]) ++ before x);
      [exact Hb3|].
    rewrite !rev_app_distr. simpl. rewrite !rev_app_distr. simpl.
    rewrite <- !app_assoc. reflexivity.
  - unfold y2, y1 in Hr6. rewrite !skip_add in Hr6.
    replace (nl + 1 + nd + 1 + nt)%nat with (S nl + (S nd + nt))%nat by lia.
    exact Hr6.
Qed.

(** An address cannot run over the dot of a longer domain. *)
Lemma dot_barrier y nd nt nd' nt' :
  okD y nd nt -> okD y nd' nt' -> (nd' < nd)%nat -> (nd' + 1 + nt' <= nd)%nat.
Proof.
  intros [_ [Hn _]] [_ [_ [[_ Hr] _]]] Hlt.
  apply next_is_nth in Hn. rewrite rest_skip in Hr.
  destruct (Nat.le_gt_cases (nd' + 1 + nt') nd) as [Hle|Hgt]; [exact Hle|].
  destruct (run_len_nth is_tld (skipn (S nd') (rest y)) (nd - S nd')
              ltac:(lia)) as [c [Hc Hp]].
  rewrite nth_error_skipn in Hc.
  replace (S nd' + (nd - S nd'))%nat with nd in Hc by lia.
  rewrite Hn in Hc. injection Hc as <-. discriminate.
Qed.

Lemma app_same_length {A} (a c b d : list A) :
  a ++ b = c ++ d -> length a = length c -> a = c /\ b = d.
Proof.
  revert c. induction a as [|x a IH]; intros c H Hl; destruct c as [|y c];
    try discriminate; [auto|].
  simpl in *. injection H as -> H. injection Hl as Hl.
  destruct (IH c H Hl) as [-> ->]. auto.
Qed.

Lemma app_shorter {A} (a c b d : list A) :
  a ++ b = c ++ d -> (length a < length c)%nat ->
  exists x q, c = a ++ x :: q /\ b = x :: q ++ d.
Proof.
  revert c. induction a as [|x a IH]; intros c H Hl.
  - destruct c as [|y c]; [simpl in Hl; lia|].
    exists y, c. simpl in *. auto.
  - destruct c as [|y c]; [simpl in Hl; lia|].
    simpl in *. injection H as -> H.
    destruct (IH c H ltac:(lia)) as [x' [q [-> ->]]].
    exists x', q. auto.
Qed.

Lemma scan_none_inv re : forall s bef,
  scan re bef s = None ->
  forall p1 p2, s = p1 ++ p2 ->
    match_at re (mkState (rev p1 ++ bef) p2 []) = None.
Proof.
  induction s as [|c s IH]; intros bef H p1 p2 E.
  - destruct p1; [|discriminate]. simpl in E. subst p2. simpl in *.
    destruct (match_at re (mkState bef [] [])); [discriminate|reflexivity].
  - cbn [scan] in H.
    destruct (match_at re (mkState bef (c :: s) [])) eqn:Em; [discriminate|].
    destruct p1 as [|a p1]; simpl in E.
    + subst p2. exact Em.
    + injection E as <- E. simpl. rewrite <- app_assoc.
      apply (IH (c :: bef) H p1 p2 E).
Qed.

(** ** The email of a text *)

Lemma shape_ok_at pre s post :
  bounded_email is_tld pre s post ->
  exists nl nd nt,
    okL (mkState (rev pre ++ []) (s ++ post) []) nl nd nt /\
    length s = (nl + 1 + nd + 1 + nt)%nat.
Proof.
  intros [[l [d [t [-> [Hl [Hfl [Hd [Hfd [Ht Hft]]]]]]]]] [Hb1 Hb2]].
  exists (length l), (length d), (length t). split.
  - apply (shape_ok _ pre l d t post); try assumption.
    + simpl. apply app_nil_r.
    + reflexivity.
  - rewrite length_app. simpl. rewrite length_app. simpl. lia.
Qed.

(** A match of the email pattern is an address between word boundaries,
    at the leftmost place where one begins, and the longest there. *)
Lemma email_found text res :
  str_match text re_email = Some res ->
  exists pre post,
    text = pre ++ matched res ++ post /\
    bounded_email is_tld pre (matched res) post /\
    forall pre' s' post',
      text = pre' ++ s' ++ post' -> bounded_email is_tld pre' s' post' ->
      (length pre <= length pre')%nat /\
      (length pre' = length pre -> (length s' <= length (matched res))%nat).
Proof.
  unfold str_match. intros H. apply scan_some in H.
  destruct H as [p1 [p2 [y [-> [Hm [-> Hearlier]]]]]].
  set (x := mkState (rev p1 ++ []) p2 []) in *.
  destruct (match_at_email_some x y Hm) as [nl [nd [nt [Hok [Hy Hmax]]]]].
  destruct (ok_shape x nl nd nt Hok)
    as [l [d [t [post [Hr [Hll [Hld [Hlt [Hshape [Hb [Hb' Hpost]]]]]]]]]]].
  set (s := l ++ ch "@" :: d ++ ch "." :: t) in *.
  assert (Hp2 : p2 = s ++ post) by exact Hr.
  assert (Hlen : length s = (nl + 1 + nd + 1 + nt)%nat).
  { unfold s. rewrite length_app. simpl. rewrite length_app. simpl. lia. }
  assert (Ht : taken x y = s).
  { apply reach_taken. rewrite Hy, Hpost. exact Hr. }
  cbn [matched]. rewrite Ht.
  exists p1, post. split; [rewrite Hp2; reflexivity|]. split.
  - split; [exact Hshape|]. split.
    + unfold boundary. unfold bnd in Hb. cbn [x before rest] in Hb.
      rewrite app_nil_r, Hp2 in Hb. exact Hb.
    + unfold boundary. cbn [x before] in Hb'.
      rewrite app_nil_r in Hb'. rewrite rev_app_distr. exact Hb'.
  - intros pre' s' post' E Hocc.
    destruct (shape_ok_at pre' s' post' Hocc) as [nl' [nd' [nt' [Hok' Hlen']]]].
    destruct (Nat.lt_ge_cases (length pre') (length p1)) as [Hsh|Hge].
    + exfalso. symmetry in E.
      destruct (app_shorter pre' p1 (s' ++ post') p2 E Hsh) as [c [q [Hp1 Hs']]].
      pose proof (Hearlier pre' c q Hp1) as Hnone. rewrite <- Hs' in Hnone.
      exact (match_at_email_none _ nl' nd' nt' Hnone Hok').
    + split; [exact Hge|]. intros Heq. symmetry in E.
      destruct (app_same_length pre' p1 (s' ++ post') p2 E Heq) as [-> Hs'].
      rewrite Hs' in Hok'. fold x in Hok'.
      destruct (Hmax nl' nd' nt' Hok') as [-> Hlex].
      rewrite Hlen, Hlen'.
      destruct Hlex as [Hnd|[-> Hle]]; [|lia].
      destruct Hok as [_ [_ [_ HD]]]. destruct Hok' as [_ [_ [_ HD']]].
      pose proof (dot_barrier _ nd nt nd' nt' HD HD' Hnd). lia.
Qed.

Lemma email_missing text :
  str_match text re_email = None ->
  forall pre s post,
    text = pre ++ s ++ post -> ~ bounded_email is_tld pre s post.
Proof.
  unfold str_match. intros H pre s post E Hocc.
  destruct (shape_ok_at pre s post Hocc) as [nl [nd [nt [Hok _]]]].
  exact (match_at_email_none _ nl nd nt
           (scan_none_inv re_email text [] H pre (s ++ post) E) Hok).
Qed.

Lemma email_of_record text r :
  extractResumeData text = Ok r ->
  email r = matched_or_empty (str_match text re_email).
Proof.
  unfold extractResumeData.
  destruct (trim_of _) as [name|e]; cbn [bind]; [|discriminate].
  intros H. injection H as <-. reflexivity.
Qed.

(** In a text without the bar, the last class of the pattern is the
    class of the letters. *)
Lemma tld_letters t :
  ~ In (ch "|") t ->
  (Forall (fun c => is_tld c = true) t <-> Forall (fun c => is_letter c = true) t).
Proof.
  intros Hn. rewrite !Forall_forall. split; intros H c Hc.
  - specialize (H c Hc). unfold is_tld in H. apply orb_true_iff in H.
    destruct H as [H|H]; [exact H|]. apply N.eqb_eq in H. subst c.
    contradiction.
  - unfold is_tld. rewrite (H c Hc). reflexivity.
Qed.

Lemma bounded_email_letters pre s post :
  ~ In (ch "|") s ->
  (bounded_email is_tld pre s post <-> bounded_email is_letter pre s post).
Proof.
  intros Hn. unfold bounded_email, email_shape.
  split; intros [[l [d [t [E [Hl [Hfl [Hd [Hfd [Ht Hft]]]]]]]]] Hb];
    (split; [|exact Hb]); exists l, d, t;
    (split; [exact E|]); (split; [exact Hl|]); (split; [exact Hfl|]);
    (split; [exact Hd|]); (split; [exact Hfd|]); (split; [exact Ht|]);
    apply (tld_letters t); try assumption;
    intros Hin; apply Hn; subst s; rewrite in_app_iff; right; right;
    rewrite in_app_iff; right; right; exact Hin.
Qed.

(** ** The fuel of [split_loop] *)

Lemma match_at_remaining re x y :
  match_at re x = Some y -> (remaining y <= remaining x)%nat.
Proof.
  unfold match_at. intros H. apply m_forward in H.
  destruct H as [y' [Hr Hy]]. injection Hy as <-.
  apply reach_remaining. exact Hr.
Qed.

(** The fuel given to [split_loop] by [split_re] is never exhausted:
    any larger amount gives the same pieces. *)
Lemma split_loop_fuel re : forall f f' bef piece s,
  (2 * length s + (if truthy piece then 1 else 0) < f)%nat ->
  (2 * length s + (if truthy piece then 1 else 0) < f')%nat ->
  split_loop f re bef piece s = split_loop f' re bef piece s.
Proof.
  induction f as [|f IH]; intros f' bef piece s Hf Hf'; [lia|].
  destruct f' as [|f']; [lia|]. cbn [split_loop].
  destruct s as [|c s]; [reflexivity|]. cbn [length] in Hf, Hf'.
  assert (Hstep : split_loop f re (c :: bef) (c :: piece) s
                  = split_loop f' re (c :: bef) (c :: piece) s).
  { apply IH; cbn [truthy]; lia. }
  destruct (match_at re (mkState bef (c :: s) [])) as [y|] eqn:E;
    [|exact Hstep].
  pose proof (match_at_remaining re _ y E) as Hle.
  unfold remaining in Hle |- *. cbn [rest length] in Hle |- *.
  destruct (Nat.eqb (length (rest y)) (S (length s))) eqn:Eq.
  - apply Nat.eqb_eq in Eq. destruct (truthy piece) eqn:Ep; cbn [negb andb].
    + f_equal. apply IH; cbn [truthy]; lia.
    + exact Hstep.
  - apply Nat.eqb_neq in Eq. cbn [andb].
    f_equal. apply IH; cbn [truthy]; destruct (truthy piece); lia.
Qed.

(** ** The worked job description *)

Lemma jd_example_record :
  analyzeJobDescription jd_example =
  Ok (mkJob (u "Acme Corp")
        (u "Backend Engineer at Acme Corp. Must have experience with Docker and AWS.")
        [u "X years of experience"; u "AWS"; u "Docker"]).
Proof. vm_compute. reflexivity. Qed.

(** C3, as the code has it: on the job text of the example the company is
    "Acme Corp", captured by the "at" pattern; the role is the whole rest
    of the line after "looking for a" (neither "position:" nor "role:"
    occurs); and the requirements are the experience phrase, then "AWS",
    then "Docker". *)
Theorem C3_example_job_record :
  analyzeJobDescription jd_example =
    Ok (mkJob (u "Acme Corp")
          (u "Backend Engineer at Acme Corp. Must have experience with Docker and AWS.")
          [u "X years of experience"; u "AWS"; u "Docker"]) /\
  str_match jd_example re_position = None /\
  str_match jd_example re_role = None /\
  option_map (group 1) (str_match jd_example re_looking) =
    Some (u "Backend Engineer at Acme Corp. Must have experience with Docker and AWS.") /\
  option_map (group 1) (str_match jd_example re_at) = Some (u "Acme Corp").
Proof.
  split; [exact jd_example_record|].
  repeat split; vm_compute; reflexivity.
Qed.

(** C3 as stated fails: the role of the example is not "Backend Engineer". *)
Lemma C3_role_is_not_backend_engineer :
  ~ (exists r, analyzeJobDescription jd_example = Ok r /\
               role r = u "Backend Engineer").
Proof.
  intros [r [H Hr]]. rewrite jd_example_record in H.
  injection H as <-. vm_compute in Hr. discriminate.
Qed.

(** ** Blank input *)

Lemma filter_none {A} (f : A -> bool) l :
  (forall x, In x l -> f x = false) -> filter f l = [].
Proof.
  induction l as [|a l IH]; intros H; simpl; [reflexivity|].
  rewrite (H a (or_introl eq_refl)). apply IH. intros x Hx. apply H. right; exact Hx.
Qed.

(** C1 fails on the code: when every line of the text is blank (the empty
    text, or white space only), [extractResumeData] returns no record but
    raises a TypeError, from reading [lines[0]] of an empty array. *)
Theorem C1_blank_text_throws (text : jsstring) :
  all_blank text -> extractResumeData text = Throw TypeError.
Proof.
  intros H. unfold extractResumeData.
  rewrite filter_none; [reflexivity|].
  intros line Hl. rewrite (H line Hl). reflexivity.
Qed.

Lemma C1_blank_text_throws_witness :
  all_blank (u "") /\ extractResumeData (u "") = Throw TypeError.
Proof.
  assert (H : all_blank (u "")).
  { intros line [<-|[]]. reflexivity. }
  split; [exact H | exact (C1_blank_text_throws (u "") H)].
Defined.

(** White space only is blank as well. *)
Lemma extractResumeData_spaces :
  extractResumeData (u "   ") = Throw TypeError.
Proof. vm_compute. reflexivity. Qed.

(** A label with nothing but a space after it gives an empty company. *)
Lemma analyzeJobDescription_empty_company :
  analyzeJobDescription (u "company: ") =
  Ok (mkJob [] (u "the position") [u "Various skills and experiences"]).
Proof. vm_compute. reflexivity. Qed.

(** ** The job-analysis endpoint *)

(** C2 fails on the code: whenever the validation reports nothing, the
    handler reads the unbound name [jdText], and the request is answered
    with status 500 and the analysis error, never with a record.  This
    holds whatever the validation library lets pass. *)
Theorem C2_valid_request_answers_500 (development : bool)
    (validation_errors : list (string * JsValue) -> list JsValue)
    (body : list (string * JsValue)) :
  validation_errors body = [] ->
  status (analyze_jd_handler development validation_errors body) = 500%nat /\
  exists fields,
    json (analyze_jd_handler development validation_errors body) = VObj fields /\
    get_field fields "error" = str "Error analyzing job description".
Proof.
  intros H. unfold analyze_jd_handler. rewrite H. simpl.
  split; [reflexivity|]. eexists. split; reflexivity.
Qed.

Lemma C2_valid_request_answers_500_witness :
  status (analyze_jd_handler false (fun _ => []) example_request) = 500%nat.
Proof.
  exact (proj1 (C2_valid_request_answers_500 false (fun _ => [])
                  example_request eq_refl)).
Defined.

(** A request on which the validation reports an error is answered with
    status 400 and the list of errors. *)
Lemma analyze_jd_rejects_invalid development validation_errors body :
  validation_errors body <> [] ->
  analyze_jd_handler development validation_errors body =
  mkResponse 400
    (VObj [("error", str "Invalid job description");
           ("message", str "Job description must be at least 20 characters long");
           ("errors", VArr (validation_errors body))]%string).
Proof.
  intros H. unfold analyze_jd_handler. cbv zeta.
  destruct (validation_errors body); [contradiction|reflexivity].
Qed.

(** ** The promo code *)

(** C10: when the body's [promoCode] is the string "070605", the
    middleware logs the promo use and hands over to the next handler;
    it makes no payment fetch and produces no response, whatever the
    gateway would answer and whatever else the body holds. *)
Theorem C10_promo_code_passes
    (fetch : JsValue -> option (list (string * JsValue)))
    (body : list (string * JsValue)) :
  get_field body "promoCode" = str "070605" ->
  verifyPayment fetch body = ([LogInfo "Promo code used for free access"], Next).
Proof.
  intros H. unfold verifyPayment. rewrite H. reflexivity.
Qed.

Lemma C10_promo_code_passes_witness :
  verifyPayment (fun _ => None) [("promoCode"%string, str "070605")]
  = ([LogInfo "Promo code used for free access"], Next).
Proof.
  exact (C10_promo_code_passes (fun _ => None)
           [("promoCode"%string, str "070605")] eq_refl).
Defined.

(** ** Company precedence *)

Lemma group1_or_value text re res fallback :
  ends_in_group1 re -> str_match text re = Some res ->
  group1_or (Some res) fallback = Ok (trim (group 1 res)).
Proof.
  intros He Hm. destruct (group1_defined text re res He Hm) as [s Hs].
  unfold group1_or, group. rewrite Hs. reflexivity.
Qed.

Lemma company_of_record text r :
  analyzeJobDescription text = Ok r ->
  group1_or (or_else (str_match text re_at)
               (or_else (str_match text re_company) (str_match text re_about)))
    "the company" = Ok (company r).
Proof.
  unfold analyzeJobDescription. intros H.
  destruct (group1_or (or_else (str_match text re_at) _) _) as [c|e];
    simpl in H; [|discriminate].
  destruct (group1_or (or_else (str_match text re_position) _) _) as [c'|e];
    simpl in H; [|discriminate].
  injection H as <-. reflexivity.
Qed.

(** The order of the company patterns: on every job description a
    record is returned, and its company is the trimmed capture of the
    "at" pattern when that pattern matches; else that of the "company:"
    pattern when it matches; else that of the "about" pattern when it
    matches; else the placeholder "the company". *)
Lemma company_precedence (text : jsstring) :
  exists r, analyzeJobDescription text = Ok r /\
            company r = company_by_precedence text.
Proof.
  destruct (analyzeJobDescription_total text) as [c [ro H]].
  eexists. split; [exact H|].
  apply company_of_record in H. cbn beta in H.
  destruct company_patterns_group1 as [Ha [Hc Hb]].
  unfold company_by_precedence.
  destruct (str_match text re_at) as [ra|] eqn:Ea; cbn [or_else] in H.
  { rewrite (group1_or_value text re_at ra "the company" Ha Ea) in H.
    injection H as <-. reflexivity. }
  destruct (str_match text re_company) as [rc|] eqn:Ec; cbn [or_else] in H.
  { rewrite (group1_or_value text re_company rc "the company" Hc Ec) in H.
    injection H as <-. reflexivity. }
  destruct (str_match text re_about) as [rb|] eqn:Eb; cbn [or_else] in H.
  { rewrite (group1_or_value text re_about rb "the company" Hb Eb) in H.
    injection H as <-. reflexivity. }
  cbn [group1_or] in H. injection H as <-. reflexivity.
Qed.

(** C6 fails on the code: in "we work at home. company: Acme" no "at"
    is followed by a capitalized phrase, so the patterns as the claim
    states them give the company "Acme", from the "company:" pattern.
    The code returns "home": its "at" pattern asks for [A-Z] at the head
    of the phrase, but the flag [i] of the same pattern lets a small
    letter pass for it, and the "company:" pattern is never tried. *)
Theorem C6_phrase_need_not_be_capitalized :
  company_as_stated jd_lower_case = u "Acme" /\
  option_map (group 1) (str_match jd_lower_case re_at) = Some (u "home") /\
  str_match jd_lower_case re_at_as_stated = None /\
  analyzeJobDescription jd_lower_case =
  Ok (mkJob (u "home") (u "the position") [u "Various skills and experiences"]).
Proof. repeat split; vm_compute; reflexivity. Qed.

(** ** Requirements *)

Lemma fold_push_if text checks acc :
  fold_left (push_if text) checks acc =
  acc ++ map phrase (filter (present text) checks).
Proof.
  revert acc. induction checks as [|c checks IH]; intros acc; simpl.
  - rewrite app_nil_r. reflexivity.
  - rewrite IH. unfold push_if, present at 2.
    destruct (includes text (u (fst c))); simpl.
    + rewrite <- app_assoc. reflexivity.
    + reflexivity.
Qed.

Lemma build_requirements_filter text :
  build_requirements text = map phrase (filter (present text) check_order).
Proof.
  unfold build_requirements, check_order.
  rewrite !fold_push_if, filter_app, map_app. reflexivity.
Qed.

Lemma subseq_filter {A} (f : A -> bool) l : subseq (filter f l) l.
Proof.
  induction l as [|a l IH]; simpl; [constructor|].
  destruct (f a); constructor; exact IH.
Qed.

Lemma subseq_map {A B} (g : A -> B) xs ys :
  subseq xs ys -> subseq (map g xs) (map g ys).
Proof. induction 1; simpl; constructor; assumption. Qed.

Lemma requirements_of_record text r :
  analyzeJobDescription text = Ok r ->
  requirements r =
  or_placeholder (build_requirements text) "Various skills and experiences".
Proof.
  destruct (analyzeJobDescription_total text) as [c [ro H]].
  rewrite H. intros H'. injection H' as <-. reflexivity.
Qed.



(** ** Determinism *)

Lemma and_then_ok {A B} (c : Stateful.Run A) (f : A -> Stateful.Run B)
    st a st' :
  c st = (Ok a, st') -> Stateful.and_then c f st = f a st'.
Proof. intros H. unfold Stateful.and_then. rewrite H. reflexivity. Qed.

Lemma fold_left_mapped {A B C} (f : A -> C -> A) (g : B -> C) l : forall a,
  fold_left f (map g l) a = fold_left (fun acc x => f acc (g x)) l a.
Proof. induction l as [|x l IH]; intros a; [reflexivity|apply IH]. Qed.

Lemma alloc_then {B} c (f : nat -> Stateful.Run B) st :
  Stateful.and_then (Stateful.alloc c) f st = f (length st) (st ++ [c]).
Proof. reflexivity. Qed.

Lemma lift_then {A B} (a : A) (f : A -> Stateful.Run B) st :
  Stateful.and_then (Stateful.lift (Ok a)) f st = f a st.
Proof. reflexivity. Qed.

Lemma leaves_alone_ret {A} (a : A) : leaves_alone (Stateful.ret a) (Ok a).
Proof. intros st. exists []. rewrite app_nil_r. reflexivity. Qed.

Lemma leaves_alone_lift {A} (o : Outcome A) :
  leaves_alone (Stateful.lift o) o.
Proof. intros st. exists []. rewrite app_nil_r. reflexivity. Qed.

Lemma leaves_alone_then {A B} (c : Stateful.Run A)
    (f : A -> Stateful.Run B) a v :
  leaves_alone c (Ok a) -> leaves_alone (f a) v ->
  leaves_alone (Stateful.and_then c f) v.
Proof.
  intros Hc Hf st. destruct (Hc st) as [m1 H1].
  destruct (Hf (st ++ m1)) as [m2 H2]. exists (m1 ++ m2).
  rewrite (and_then_ok c f st a _ H1), H2, app_assoc. reflexivity.
Qed.

Lemma leaves_alone_throw {A B} (c : Stateful.Run A)
    (f : A -> Stateful.Run B) e :
  leaves_alone c (Throw e) -> leaves_alone (Stateful.and_then c f) (Throw e).
Proof.
  intros Hc st. destruct (Hc st) as [m1 H1]. exists m1.
  unfold Stateful.and_then. rewrite H1. reflexivity.
Qed.

Lemma nth_error_new {A} (l : list A) x more :
  nth_error (l ++ x :: more) (length l) = Some x.
Proof. induction l as [|a l IH]; [reflexivity|exact IH]. Qed.

Lemma update_new l c x more :
  Stateful.update (length l) c (l ++ x :: more) = l ++ c :: more.
Proof.
  induction l as [|a l IH]; [reflexivity|]. cbn [length app Stateful.update].
  rewrite IH. reflexivity.
Qed.

(** A match on a pattern literal is the match of the pattern from the
    start of the text: the new object has no flag that makes [exec] read
    its [lastIndex], and it is left as it was made. *)
Lemma match_literal_run text re :
  leaves_alone (Stateful.match_literal text re) (Ok (str_match text re)).
Proof.
  intros st. exists [Stateful.PatternCell re false false 0].
  unfold Stateful.match_literal, Stateful.literal.
  rewrite (and_then_ok _ _ st (length st)
             (st ++ [Stateful.PatternCell re false false 0]) eq_refl).
  unfold Stateful.exec. rewrite nth_error_new. cbn [orb].
  cbn [Nat.ltb Nat.leb firstn skipn rev]. unfold str_match.
  destruct (scan re [] text); reflexivity.
Qed.

Lemma split_literal_run line re :
  leaves_alone
    (Stateful.and_then (Stateful.literal re)
       (fun rx => Stateful.split_by rx line))
    (Ok (split_re line re)).
Proof.
  intros st. exists [Stateful.PatternCell re false false 0].
  unfold Stateful.literal.
  rewrite (and_then_ok _ _ st (length st)
             (st ++ [Stateful.PatternCell re false false 0]) eq_refl).
  unfold Stateful.split_by. rewrite nth_error_new. reflexivity.
Qed.

Lemma flat_map_run_pure {A B} (f : A -> Stateful.Run (list B))
    (g : A -> list B) l :
  (forall x, leaves_alone (f x) (Ok (g x))) ->
  leaves_alone (Stateful.flat_map_run f l) (Ok (flat_map g l)).
Proof.
  intros Hf. induction l as [|x l IH]; cbn [Stateful.flat_map_run flat_map].
  - apply leaves_alone_ret.
  - eapply leaves_alone_then; [apply Hf|].
    eapply leaves_alone_then; [exact IH|]. apply leaves_alone_ret.
Qed.

Lemma extract_skills_run text :
  leaves_alone (Stateful.extract_skills text) (Ok (extract_skills text)).
Proof.
  unfold Stateful.extract_skills, extract_skills.
  eapply leaves_alone_then; [apply match_literal_run|].
  destruct (str_match text re_skills) as [section|];
    [|apply leaves_alone_ret].
  eapply leaves_alone_then; [|apply leaves_alone_ret].
  apply (flat_map_run_pure _ (fun line => split_re line re_skill_sep)).
  intros line. apply split_literal_run.
Qed.

Lemma extract_lines_run text re :
  leaves_alone (Stateful.extract_lines text re) (Ok (extract_lines text re)).
Proof.
  unfold Stateful.extract_lines, extract_lines.
  eapply leaves_alone_then; [apply match_literal_run|].
  destruct (str_match text re); apply leaves_alone_ret.
Qed.

(** The resume extractor over the store ends as the function of the text
    does, and leaves the objects that were there alone. *)
Lemma extractResumeData_run text :
  leaves_alone (Stateful.extractResumeData text) (extractResumeData text).
Proof.
  unfold Stateful.extractResumeData, extractResumeData. cbv zeta.
  destruct (trim_of (nth_error
              (filter (fun line => truthy (trim line)) (split_on NL text)) 0))
    as [name|e].
  2:{ apply leaves_alone_throw. apply leaves_alone_lift. }
  eapply leaves_alone_then; [apply leaves_alone_lift|].
  eapply leaves_alone_then; [apply match_literal_run|].
  eapply leaves_alone_then; [apply match_literal_run|].
  eapply leaves_alone_then; [apply extract_skills_run|].
  eapply leaves_alone_then; [apply extract_lines_run|].
  eapply leaves_alone_then; [apply extract_lines_run|].
  cbn [bind]. apply leaves_alone_ret.
Qed.

Lemma or_match_run (a b : Stateful.Run (option MatchResult)) ra rb :
  leaves_alone a (Ok ra) -> leaves_alone b (Ok rb) ->
  leaves_alone (Stateful.or_match a b) (Ok (or_else ra rb)).
Proof.
  intros Ha Hb. unfold Stateful.or_match.
  eapply leaves_alone_then; [exact Ha|].
  destruct ra; [apply leaves_alone_ret|exact Hb].
Qed.

(** The pushes of a loop go to the array, wherever it stands in the
    store, and to nothing else. *)
Lemma push_loop_run text (l : list Stateful.Cell) more
    (A : Type) (word entry : A -> jsstring) checks : forall items,
  Stateful.for_each
    (fun check => Stateful.push_if text (length l) (word check) (entry check))
    checks (l ++ Stateful.ArrayCell items :: more) =
  (Ok tt,
   l ++ Stateful.ArrayCell
          (fold_left (fun acc check =>
                        if includes text (word check)
                        then acc ++ [entry check] else acc) checks items)
        :: more).
Proof.
  induction checks as [|c checks IH]; intros items;
    cbn [Stateful.for_each fold_left]; [reflexivity|].
  unfold Stateful.and_then, Stateful.push_if at 1.
  destruct (includes text (word c)).
  - unfold Stateful.push. rewrite nth_error_new, update_new. apply IH.
  - cbn [Stateful.ret]. apply IH.
Qed.

(** The job extractor over the store ends as the function of the text
    does; the array that it fills is its own, and the objects that were
    there are left alone. *)
Lemma analyzeJobDescription_run text :
  leaves_alone (Stateful.analyzeJobDescription text)
    (analyzeJobDescription text).
Proof.
  unfold Stateful.analyzeJobDescription, analyzeJobDescription. cbv zeta.
  eapply leaves_alone_then.
  { apply or_match_run; [apply match_literal_run|].
    apply or_match_run; apply match_literal_run. }
  eapply leaves_alone_then.
  { apply or_match_run; [apply match_literal_run|].
    apply or_match_run; [apply match_literal_run|].
    apply or_match_run; apply match_literal_run. }
  set (companyMatch := or_else (str_match text re_at) _).
  set (roleMatch := or_else (str_match text re_position) _).
  intros st.
  unfold Stateful.new_array. rewrite alloc_then.
  rewrite (and_then_ok _ _ _ tt _
             (push_loop_run text st [] _ (fun c => u (fst c))
                (fun c => u (snd c)) trigger_checks [])).
  set (first := fold_left _ trigger_checks []).
  rewrite alloc_then.
  rewrite <- app_assoc. cbn [app].
  assert (Hread : Stateful.read (length (st ++ [Stateful.ArrayCell first]))
                    (st ++ [Stateful.ArrayCell first;
                            Stateful.ArrayCell (map u skillKeywords)]) =
                  (Ok (map u skillKeywords),
                   st ++ [Stateful.ArrayCell first;
                          Stateful.ArrayCell (map u skillKeywords)])).
  { unfold Stateful.read.
    change (st ++ [Stateful.ArrayCell first;
                   Stateful.ArrayCell (map u skillKeywords)])
      with (st ++ [Stateful.ArrayCell first]
               ++ [Stateful.ArrayCell (map u skillKeywords)]).
    rewrite app_assoc, nth_error_new. reflexivity. }
  rewrite (and_then_ok _ _ _ _ _ Hread).
  rewrite (and_then_ok _ _ _ tt _
             (push_loop_run text st _ _ (fun s => s) (fun s => s)
                (map u skillKeywords) first)).
  set (all := fold_left _ (map u skillKeywords) first).
  assert (Hall : all = build_requirements text).
  { unfold all, first, build_requirements, push_if.
    rewrite !fold_left_mapped. reflexivity. }
  destruct (group1_or companyMatch "the company") as [company|e].
  2:{ eexists. reflexivity. }
  rewrite lift_then.
  destruct (group1_or roleMatch "the position") as [role|e].
  2:{ eexists. reflexivity. }
  rewrite lift_then.
  unfold Stateful.and_then, Stateful.read. rewrite nth_error_new.
  cbn [Stateful.ret bind]. rewrite Hall. eexists. reflexivity.
Qed.

(** C8: each extractor, run from any store of objects, ends with the
    record or the exception that the text alone decides, and leaves every
    object that was in the store as it was; so two stores give the same
    outcome, and a second call on the text, after the first or after a
    call of the other extractor, ends as the first did. *)
Theorem C8_extractors_deterministic (text : jsstring)
    (st st' : Stateful.Store) :
  (fst (Stateful.extractResumeData text st) = extractResumeData text /\
   fst (Stateful.analyzeJobDescription text st) = analyzeJobDescription text) /\
  (fst (Stateful.extractResumeData text st) =
   fst (Stateful.extractResumeData text st') /\
   fst (Stateful.analyzeJobDescription text st) =
   fst (Stateful.analyzeJobDescription text st')) /\
  ((exists made, snd (Stateful.extractResumeData text st) = st ++ made) /\
   (exists made, snd (Stateful.analyzeJobDescription text st) = st ++ made)) /\
  (fst (Stateful.extractResumeData text
          (snd (Stateful.extractResumeData text st))) =
   fst (Stateful.extractResumeData text st) /\
   fst (Stateful.analyzeJobDescription text
          (snd (Stateful.analyzeJobDescription text st))) =
   fst (Stateful.analyzeJobDescription text st) /\
   fst (Stateful.extractResumeData text
          (snd (Stateful.analyzeJobDescription text st))) =
   fst (Stateful.extractResumeData text st)).
Proof.
  assert (Hr : forall s, fst (Stateful.extractResumeData text s) =
                         extractResumeData text).
  { intros s. destruct (extractResumeData_run text s) as [made ->].
    reflexivity. }
  assert (Hj : forall s, fst (Stateful.analyzeJobDescription text s) =
                         analyzeJobDescription text).
  { intros s. destruct (analyzeJobDescription_run text s) as [made ->].
    reflexivity. }
  rewrite !Hr, !Hj. repeat split.
  - destruct (extractResumeData_run text st) as [made ->].
    exists made. reflexivity.
  - destruct (analyzeJobDescription_run text st) as [made ->].
    exists made. reflexivity.
Qed.

(** ** Skills sections *)








(** ** Email *)

Lemma not_in_app {A} (a : A) l1 l2 l3 :
  ~ In a (l1 ++ l2 ++ l3) -> ~ In a l2.
Proof.
  intros H Hin. apply H. rewrite !in_app_iff. right. left. exact Hin.
Qed.

Lemma shape_has_at tld s : email_shape tld s -> In (ch "@") s.
Proof.
  intros [l [d [t [-> _]]]]. rewrite in_app_iff. right. left. reflexivity.
Qed.

(** C5, as the code has it.  Call a part [s] of the text a bounded
    address when it reads local part, at sign, domain, dot and two or more
    letters, and both its ends are word boundaries.  For a text without
    the bar character: if the text has a bounded address, a record is
    returned whose email is a bounded address of the text, none begins
    further left, and none that begins at the same place is longer; if
    the text has no bounded address, the email of any record returned is
    the empty string. *)
Theorem C5_email_first_bounded_address (text : jsstring) :
  ~ In (ch "|") text ->
  ((exists pre s post,
      text = pre ++ s ++ post /\ bounded_email is_letter pre s post) ->
   exists r pre0 post0,
     extractResumeData text = Ok r /\
     text = pre0 ++ email r ++ post0 /\
     bounded_email is_letter pre0 (email r) post0 /\
     forall pre s post,
       text = pre ++ s ++ post -> bounded_email is_letter pre s post ->
       (length pre0 <= length pre)%nat /\
       (length pre = length pre0 -> (length s <= length (email r))%nat)) /\
  ((forall pre s post,
      text = pre ++ s ++ post -> ~ bounded_email is_letter pre s post) ->
   forall r, extractResumeData text = Ok r -> email r = []).
Proof.
  intros Hbar. split.
  - intros [pre [s [post [E Hocc]]]].
    destruct (extractResumeData_ok text (ch "@")) as [name Hok].
    { rewrite E, !in_app_iff. right. left.
      exact (shape_has_at _ _ (proj1 Hocc)). }
    { reflexivity. }
    assert (Hs : ~ In (ch "|") s) by (rewrite E in Hbar; exact (not_in_app _ _ _ _ Hbar)).
    apply (bounded_email_letters pre s post Hs) in Hocc.
    destruct (str_match text re_email) as [res|] eqn:Em.
    + destruct (email_found text res Em) as [pre0 [post0 [E0 [Hocc0 Hmax]]]].
      assert (Hs0 : ~ In (ch "|") (matched res))
        by (rewrite E0 in Hbar; exact (not_in_app _ _ _ _ Hbar)).
      eexists. exists pre0, post0. split; [exact Hok|].
      cbn [email matched_or_empty].
      split; [exact E0|].
      split; [apply (bounded_email_letters _ _ _ Hs0); exact Hocc0|].
      intros pre' s' post' E' Hocc'.
      assert (Hs' : ~ In (ch "|") s')
        by (rewrite E' in Hbar; exact (not_in_app _ _ _ _ Hbar)).
      apply (bounded_email_letters _ _ _ Hs') in Hocc'.
      destruct (Hmax pre' s' post' E' Hocc') as [Hle Hlong].
      split; [exact Hle|]. intros Heq. apply Hlong. exact Heq.
    + exfalso. exact (email_missing text Em pre s post E Hocc).
  - intros Hnone r Hr. rewrite (email_of_record text r Hr).
    destruct (str_match text re_email) as [res|] eqn:Em; [|reflexivity].
    exfalso.
    destruct (email_found text res Em) as [pre0 [post0 [E0 [Hocc0 _]]]].
    assert (Hs0 : ~ In (ch "|") (matched res))
      by (rewrite E0 in Hbar; exact (not_in_app _ _ _ _ Hbar)).
    apply (Hnone pre0 (matched res) post0 E0).
    apply (bounded_email_letters _ _ _ Hs0). exact Hocc0.
Qed.

Lemma contact_line_address :
  bounded_email is_letter (u "Jane Roe <") (u "jane.roe@example.co.uk") (u ">").
Proof.
  split; [|split; reflexivity].
  exists (u "jane.roe"), (u "example.co"), (u "uk").
  split; [reflexivity|]. split; [discriminate|].
  split; [repeat constructor|]. split; [discriminate|].
  split; [repeat constructor|]. split; [simpl; lia|repeat constructor].
Qed.

Lemma C5_email_first_bounded_address_witness :
  ~ In (ch "|") contact_line /\
  exists r pre0 post0,
    extractResumeData contact_line = Ok r /\
    contact_line = pre0 ++ email r ++ post0 /\
    bounded_email is_letter pre0 (email r) post0.
Proof.
  assert (Hbar : ~ In (ch "|") contact_line).
  { cbv. intros H. repeat (destruct H as [H|H]; [discriminate|]). exact H. }
  split; [exact Hbar|].
  destruct (proj1 (C5_email_first_bounded_address contact_line Hbar))
    as [r [pre0 [post0 [Hr [E [Hocc _]]]]]].
  { exists (u "Jane Roe <"), (u "jane.roe@example.co.uk"), (u ">").
    split; [reflexivity|exact contact_line_address]. }
  exists r, pre0, post0. auto.
Defined.

(** On the contact line the email is the address itself. *)
Lemma contact_line_email :
  exists r, extractResumeData contact_line = Ok r /\
            email r = u "jane.roe@example.co.uk".
Proof. eexists. split; vm_compute; reflexivity. Qed.

(** C5 as stated fails: "a@b.cd" has the shape of an address and stands
    in the text "a@b.cd5", yet the email of that text is empty, because
    no word boundary follows the address. *)
Lemma C5_digit_after_address :
  email_shape is_letter (u "a@b.cd") /\
  exists r, extractResumeData (u "a@b.cd" ++ u "5") = Ok r /\ email r = [].
Proof.
  split.
  - exists (u "a"), (u "b"), (u "cd").
    split; [reflexivity|]. split; [discriminate|].
    split; [repeat constructor|]. split; [discriminate|].
    split; [repeat constructor|]. split; [simpl; lia|repeat constructor].
  - eexists. split; vm_compute; reflexivity.
Qed.

(** * Further properties of the code *)

(** ** What [trim] leaves *)

Lemma trim_start_head s c tl : trim_start s = c :: tl -> is_space c = false.
Proof.
  induction s as [|a s IH]; cbn [trim_start]; [discriminate|].
  destruct (is_space a) eqn:E; [exact IH|].
  intros H. injection H as <- _. exact E.
Qed.

Lemma trim_start_split s :
  exists ws, s = ws ++ trim_start s /\ Forall (fun c => is_space c = true) ws.
Proof.
  induction s as [|a s [ws [IH Hws]]]; cbn [trim_start].
  - exists []. auto.
  - destruct (is_space a) eqn:E.
    + exists (a :: ws). split; [simpl; f_equal; exact IH|constructor; assumption].
    + exists []. auto.
Qed.

Lemma trim_start_fixed s :
  (forall c tl, s = c :: tl -> is_space c = false) -> trim_start s = s.
Proof.
  destruct s as [|a s]; [reflexivity|]. intros H.
  cbn [trim_start]. rewrite (H a s eq_refl). reflexivity.
Qed.

Lemma trim_end_split t :
  exists ws, t = trim_end t ++ ws /\ Forall (fun c => is_space c = true) ws.
Proof.
  unfold trim_end. destruct (trim_start_split (rev t)) as [ws [H Hws]].
  exists (rev ws). split.
  - rewrite <- (rev_involutive t) at 1. rewrite H at 1.
    rewrite rev_app_distr. reflexivity.
  - apply Forall_rev. exact Hws.
Qed.

Lemma trim_end_last t c tl :
  rev (trim_end t) = c :: tl -> is_space c = false.
Proof.
  unfold trim_end. rewrite rev_involutive. apply trim_start_head.
Qed.

Lemma trim_end_head t c tl :
  (forall c' tl', t = c' :: tl' -> is_space c' = false) ->
  trim_end t = c :: tl -> is_space c = false.
Proof.
  intros Ht H. destruct (trim_end_split t) as [ws [E _]].
  rewrite H in E. simpl in E. exact (Ht c _ E).
Qed.

(** [trim] leaves no white space at either end. *)
Lemma trim_trimmed s : trimmed (trim s).
Proof.
  unfold trim. split.
  - intros c tl H. apply (trim_end_head (trim_start s) c tl); [|exact H].
    intros c' tl'. apply trim_start_head.
  - intros c tl. apply trim_end_last.
Qed.

Lemma trim_end_fixed t :
  (forall c tl, rev t = c :: tl -> is_space c = false) -> trim_end t = t.
Proof.
  intros H. unfold trim_end. rewrite trim_start_fixed by exact H.
  apply rev_involutive.
Qed.

Lemma trimmed_fixed s : trimmed s -> trim s = s.
Proof.
  intros [Hh Hl]. unfold trim. rewrite (trim_start_fixed s Hh).
  apply trim_end_fixed. exact Hl.
Qed.

Lemma trim_idempotent s : trim (trim s) = trim s.
Proof. apply trimmed_fixed, trim_trimmed. Qed.

Lemma trim_start_incl s c : In c (trim_start s) -> In c s.
Proof.
  destruct (trim_start_split s) as [ws [E _]]. intros H.
  rewrite E. apply in_or_app. right. exact H.
Qed.

Lemma trim_incl s c : In c (trim s) -> In c s.
Proof.
  unfold trim. intros H. apply trim_start_incl.
  destruct (trim_end_split (trim_start s)) as [ws [E _]].
  rewrite E. apply in_or_app. left. exact H.
Qed.

(** [trim] keeps a first character that is not white space. *)
Lemma trim_keeps_head c s :
  is_space c = false -> exists tl, trim (c :: s) = c :: tl.
Proof.
  intros Hc. unfold trim. cbn [trim_start]. rewrite Hc.
  destruct (trim_end_split (c :: s)) as [ws [E Hws]].
  destruct (trim_end (c :: s)) as [|a tl] eqn:Et.
  - simpl in E. subst ws. inversion Hws; subst. congruence.
  - simpl in E. injection E as <- _. eauto.
Qed.

(** ** The fields of a resume record *)

Lemma filter_first {A} (f : A -> bool) : forall l a more,
  filter f l = a :: more ->
  exists l1 l2, l = l1 ++ a :: l2 /\
                Forall (fun x => f x = false) l1 /\ f a = true.
Proof.
  induction l as [|x l IH]; intros a more H; [discriminate|].
  cbn [filter] in H. destruct (f x) eqn:E.
  - injection H as <- _. exists [], l. auto.
  - destruct (IH a more H) as [l1 [l2 [-> [Hl1 Ha]]]].
    exists (x :: l1), l2. auto.
Qed.

Lemma extractResumeData_fields text r :
  extractResumeData text = Ok r ->
  exists l0 ls,
    filter (fun line => truthy (trim line)) (split_on NL text) = l0 :: ls /\
    r = mkResume (trim l0)
          (matched_or_empty (str_match text re_email))
          (matched_or_empty (str_match text re_phone))
          (or_placeholder (extract_lines text re_experience)
             "Various professional experiences")
          (or_placeholder (extract_lines text re_education)
             "Relevant educational background")
          (or_placeholder (extract_skills text) "Various professional skills").
Proof.
  unfold extractResumeData.
  destruct (filter (fun line => truthy (trim line)) (split_on NL text))
    as [|l0 ls]; cbn [nth_error trim_of bind]; [discriminate|].
  intros H. injection H as <-. eauto.
Qed.

Lemma truthy_nonempty s : truthy s = true <-> s <> [].
Proof. destruct s; simpl; split; congruence. Qed.

Lemma truthy_empty s : truthy s = false <-> s = [].
Proof. destruct s; simpl; split; congruence. Qed.

Lemma record_name_nonempty text r :
  extractResumeData text = Ok r -> name r <> [].
Proof.
  intros H. destruct (extractResumeData_fields text r H) as [l0 [ls [Hf ->]]].
  destruct (filter_first _ _ _ _ Hf) as [l1 [l2 [_ [_ Hl0]]]].
  cbn [name]. apply truthy_nonempty. exact Hl0.
Qed.

(** The name of a record is the first line of the text that is not
    blank, trimmed: it is not empty and has no white space at its ends. *)
Theorem name_is_first_nonblank_line (text : jsstring) (r : ResumeRecord) :
  extractResumeData text = Ok r ->
  exists blanks line after,
    split_on NL text = blanks ++ line :: after /\
    Forall (fun l => trim l = []) blanks /\
    name r = trim line /\ name r <> [] /\ trimmed (name r).
Proof.
  intros H. destruct (extractResumeData_fields text r H) as [l0 [ls [Hf ->]]].
  destruct (filter_first _ _ _ _ Hf) as [l1 [l2 [E [Hl1 Hl0]]]].
  exists l1, l0, l2. cbn [name]. split; [exact E|]. split; [|split; [reflexivity|split]].
  - eapply Forall_impl; [|exact Hl1]. intros l Hl. apply truthy_empty. exact Hl.
  - apply truthy_nonempty. exact Hl0.
  - apply trim_trimmed.
Qed.

Lemma name_is_first_nonblank_line_witness :
  exists blanks line after,
    split_on NL resume_skills_below = blanks ++ line :: after /\
    Forall (fun l => trim l = []) blanks /\
    u "Jane Roe" = trim line.
Proof.
  assert (H : extractResumeData resume_skills_below =
              Ok (mkResume (u "Jane Roe") [] []
                    [u "Various professional experiences"]
                    [u "B.S. Computer Science, MIT"]
                    [u "Rust"; u "Python"]))
    by (vm_compute; reflexivity).
  destruct (name_is_first_nonblank_line _ _ H)
    as [blanks [line [after [E [Hb [Hn _]]]]]].
  exists blanks, line, after. auto.
Defined.

(** A match is a part of the text, at the index it reports. *)
Lemma str_match_part text re res :
  str_match text re = Some res ->
  exists pre post, text = pre ++ matched res ++ post /\ length pre = index res.
Proof.
  unfold str_match. intros H. apply scan_some in H.
  destruct H as [p1 [p2 [y [-> [Hm [-> _]]]]]].
  unfold match_at in Hm. apply m_forward in Hm.
  destruct Hm as [y' [[s [Hr _]] Hy]]. injection Hy as ->.
  exists p1, (rest y). cbn [matched index]. split.
  - rewrite (reach_taken _ y s Hr). cbn [rest] in Hr. rewrite Hr. reflexivity.
  - cbn [length]. lia.
Qed.

Lemma matched_or_empty_part text re :
  exists pre post, text = pre ++ matched_or_empty (str_match text re) ++ post.
Proof.
  destruct (str_match text re) as [res|] eqn:E; cbn [matched_or_empty].
  - destruct (str_match_part text re res E) as [pre [post [H _]]]. eauto.
  - exists [], text. reflexivity.
Qed.

(** The email and the phone of a record stand in the text as they are
    returned: each is a contiguous part of the text. *)
Theorem email_and_phone_are_parts_of_text (text : jsstring) (r : ResumeRecord) :
  extractResumeData text = Ok r ->
  (exists pre post, text = pre ++ email r ++ post) /\
  (exists pre post, text = pre ++ phone r ++ post).
Proof.
  intros H. destruct (extractResumeData_fields text r H) as [l0 [ls [_ ->]]].
  cbn [email phone]. split; apply matched_or_empty_part.
Qed.

Lemma email_and_phone_are_parts_of_text_witness :
  exists r, extractResumeData contact_line = Ok r /\
            (exists pre post, contact_line = pre ++ email r ++ post) /\
            (exists pre post, contact_line = pre ++ phone r ++ post).
Proof.
  assert (H : exists r, extractResumeData contact_line = Ok r)
    by (eexists; vm_compute; reflexivity).
  destruct H as [r H]. exists r. split; [exact H|].
  exact (email_and_phone_are_parts_of_text contact_line r H).
Defined.

(** ** The entries of the three lists *)

Lemma kept_entries (n : nat) (l : list jsstring) e :
  In e (map trim
          (filter (fun s => truthy (trim s) && Nat.ltb n (length (trim s))) l)) ->
  (n < length e)%nat /\ trimmed e.
Proof.
  intros H. apply in_map_iff in H. destruct H as [s [<- Hs]].
  apply filter_In in Hs. destruct Hs as [_ Hs].
  apply andb_true_iff in Hs. destruct Hs as [_ Hs].
  apply Nat.ltb_lt in Hs. split; [exact Hs|apply trim_trimmed].
Qed.

Lemma or_placeholder_entries (P : jsstring -> Prop) xs fallback :
  Forall P xs -> P (u fallback) ->
  or_placeholder xs fallback <> [] /\ Forall P (or_placeholder xs fallback).
Proof.
  intros Hxs Hf. destruct xs as [|x xs]; cbn [or_placeholder].
  - split; [discriminate|]. constructor; [exact Hf|constructor].
  - split; [discriminate|exact Hxs].
Qed.

Lemma trimmed_literal s :
  match s with [] => true | c :: _ => negb (is_space c) end = true ->
  match rev s with [] => true | c :: _ => negb (is_space c) end = true ->
  trimmed s.
Proof.
  intros H1 H2. split; intros c tl E.
  - rewrite E in H1. apply negb_true_iff in H1. exact H1.
  - rewrite E in H2. apply negb_true_iff in H2. exact H2.
Qed.

(** In every record the three lists are not empty; every skill has more
    than two characters, every experience and education entry more than
    ten, and no entry has white space at its ends. *)
Theorem list_entries_are_long_and_trimmed (text : jsstring) (r : ResumeRecord) :
  extractResumeData text = Ok r ->
  (skills r <> [] /\
   Forall (fun e => (2 < length e)%nat /\ trimmed e) (skills r)) /\
  (experience r <> [] /\
   Forall (fun e => (10 < length e)%nat /\ trimmed e) (experience r)) /\
  (education r <> [] /\
   Forall (fun e => (10 < length e)%nat /\ trimmed e) (education r)).
Proof.
  intros H. destruct (extractResumeData_fields text r H) as [l0 [ls [_ ->]]].
  cbn [skills experience education].
  split; [|split]; apply or_placeholder_entries.
  - unfold extract_skills. destruct (str_match text re_skills); [|constructor].
    apply Forall_forall. intros e He. exact (kept_entries 2 _ e He).
  - split; [vm_compute; lia|apply trimmed_literal; reflexivity].
  - unfold extract_lines. destruct (str_match text re_experience); [|constructor].
    apply Forall_forall. intros e He. exact (kept_entries 10 _ e He).
  - split; [vm_compute; lia|apply trimmed_literal; reflexivity].
  - unfold extract_lines. destruct (str_match text re_education); [|constructor].
    apply Forall_forall. intros e He. exact (kept_entries 10 _ e He).
  - split; [vm_compute; lia|apply trimmed_literal; reflexivity].
Qed.

Lemma list_entries_are_long_and_trimmed_witness :
  exists r, extractResumeData resume_skills_below = Ok r /\
            Forall (fun e => (2 < length e)%nat /\ trimmed e) (skills r).
Proof.
  assert (H : exists r, extractResumeData resume_skills_below = Ok r)
    by (eexists; vm_compute; reflexivity).
  destruct H as [r H]. exists r. split; [exact H|].
  exact (proj2 (proj1 (list_entries_are_long_and_trimmed _ r H))).
Defined.

(** ** Sections that the text does not have *)

Lemma occurs_ci_false l : forall p1 p2,
  occurs_ci l (p1 ++ p2) = false -> lit_at true l p2 = false.
Proof.
  induction p1 as [|c p1 IH]; intros p2 H.
  - destruct p2; cbn [app occurs_ci] in H; apply orb_false_iff in H; tauto.
  - cbn [app occurs_ci] in H. apply orb_false_iff in H. apply IH. tauto.
Qed.

Lemma lit_at_app ic a : forall b s,
  lit_at ic (a ++ b) s = true -> lit_at ic b (skipn (length a) s) = true.
Proof.
  induction a as [|x a IH]; intros b s H; [exact H|].
  destruct s as [|c s]; cbn [app lit_at] in H; [discriminate|].
  apply andb_true_iff in H. cbn [length skipn]. apply IH. tauto.
Qed.

(** A literal that does not occur has no longer literal around it. *)
Lemma occurs_ci_longer a b text p1 p2 :
  occurs_ci b text = false -> text = p1 ++ p2 ->
  lit_at true (a ++ b) p2 = false.
Proof.
  intros H E. destruct (lit_at true (a ++ b) p2) eqn:El; [|reflexivity].
  apply lit_at_app in El.
  rewrite (occurs_ci_false b (p1 ++ firstn (length a) p2)
             (skipn (length a) p2)) in El; [discriminate|].
  rewrite <- app_assoc, firstn_skipn, <- E. exact H.
Qed.

Lemma section_re_absent h1 h2 h3 text :
  u h1 <> [] -> u h2 <> [] -> u h3 <> [] ->
  (forall p1 p2, text = p1 ++ p2 ->
     lit_at true (u h1) p2 = false /\ lit_at true (u h2) p2 = false /\
     lit_at true (u h3) p2 = false) ->
  str_match text (section_re h1 h2 h3) = None.
Proof.
  intros H1 H2 H3 Habs. unfold str_match. apply scan_none.
  intros p1 p2 E. destruct (Habs p1 p2 E) as [A1 [A2 A3]].
  unfold match_at, section_re. cbn [pattern ignoreCase seq]. cbn [m].
  unfold lit. rewrite !m_lit by assumption. cbn [rest].
  rewrite A1, A2, A3. reflexivity.
Qed.

Lemma skills_absent text :
  occurs_ci (u "skills") text = false -> extract_skills text = [].
Proof.
  intros H. unfold extract_skills, re_skills.
  rewrite section_re_absent; try (cbv; discriminate); [reflexivity|].
  intros p1 p2 E. split; [|split].
  - apply (occurs_ci_false _ p1). rewrite <- E. exact H.
  - exact (occurs_ci_longer (u "technical ") (u "skills") text p1 p2 H E).
  - exact (occurs_ci_longer (u "key ") (u "skills") text p1 p2 H E).
Qed.

Lemma lines_absent h1 h2 h3 text :
  u h1 <> [] -> u h2 <> [] -> u h3 <> [] ->
  occurs_ci (u h1) text = false -> occurs_ci (u h2) text = false ->
  occurs_ci (u h3) text = false ->
  extract_lines text (section_re h1 h2 h3) = [].
Proof.
  intros N1 N2 N3 H1 H2 H3. unfold extract_lines.
  rewrite section_re_absent; try assumption; [reflexivity|].
  intros p1 p2 E.
  split; [|split]; apply (occurs_ci_false _ p1); rewrite <- E; assumption.
Qed.

(** A text in which no heading word of a section occurs, in any letter
    case, gets the placeholder of that section. *)
Theorem absent_sections_give_placeholders (text : jsstring) (r : ResumeRecord) :
  extractResumeData text = Ok r ->
  (occurs_ci (u "skills") text = false ->
   skills r = [u "Various professional skills"]) /\
  (occurs_ci (u "experience") text = false ->
   occurs_ci (u "work history") text = false ->
   occurs_ci (u "employment history") text = false ->
   experience r = [u "Various professional experiences"]) /\
  (occurs_ci (u "education") text = false ->
   occurs_ci (u "academic background") text = false ->
   occurs_ci (u "qualifications") text = false ->
   education r = [u "Relevant educational background"]).
Proof.
  intros H. destruct (extractResumeData_fields text r H) as [l0 [ls [_ ->]]].
  cbn [skills experience education]. split; [|split].
  - intros Hs. rewrite (skills_absent text Hs). reflexivity.
  - intros A1 A2 A3. unfold re_experience.
    rewrite lines_absent; try assumption; try (cbv; discriminate). reflexivity.
  - intros A1 A2 A3. unfold re_education.
    rewrite lines_absent; try assumption; try (cbv; discriminate). reflexivity.
Qed.

Lemma absent_sections_give_placeholders_witness :
  exists r, extractResumeData resume_skills_below = Ok r /\
            experience r = [u "Various professional experiences"].
Proof.
  assert (H : exists r, extractResumeData resume_skills_below = Ok r)
    by (eexists; vm_compute; reflexivity).
  destruct H as [r H]. exists r. split; [exact H|].
  apply (proj1 (proj2 (absent_sections_give_placeholders _ r H)));
    vm_compute; reflexivity.
Defined.

(** ** Separators never reach a skill *)

Lemma skill_sep_class c :
  xorb false
    (class_mem false
       [CChar (ch ","); CChar (ch ";"); CChar 226; CChar 8364; CChar 162] c)
  = is_skill_sep c.
Proof.
  unfold class_mem, is_skill_sep, existsb, item_mem. cbn [xorb andb].
  rewrite !orb_false_r, !orb_assoc. reflexivity.
Qed.

Lemma greedy_from_zero_some ic r max x k z :
  k x = Some z -> m ic (RRep r 0 max true) x k <> None.
Proof.
  intros Hk. rewrite m_rep. destruct (max_is_zero max); [congruence|].
  cbv zeta. cbn [Nat.eqb negb].
  destruct (m ic r x _); cbn [or_else]; congruence.
Qed.

Lemma remaining_skip n x :
  remaining (skip n x) = (remaining x - n)%nat.
Proof. unfold remaining. rewrite rest_skip. apply length_skipn. Qed.

(** At a separator character the separator pattern matches, and the
    match is not empty. *)
Lemma skill_sep_matches x c tl :
  rest x = c :: tl -> is_skill_sep c = true ->
  exists y, match_at re_skill_sep x = Some y /\
            (remaining y < remaining x)%nat.
Proof.
  intros Hx Hc. unfold match_at, re_skill_sep. cbn [pattern ignoreCase seq].
  change (m false (RSeq (plus (RClass false
            [CChar (ch ","); CChar (ch ";"); CChar 226; CChar 8364; CChar 162]))
            (star (esc EscS))) x Some)
    with (m false (plus (RClass false
            [CChar (ch ","); CChar (ch ";"); CChar 226; CChar 8364; CChar 162]))
            x (fun y => m false (star (esc EscS)) y Some)).
  unfold plus.
  rewrite (greedy_run false _ _ (one_char_class false false _) _ x _ _ Hx).
  set (k := fun y => m false (star (esc EscS)) y Some).
  set (n := run_len _ (c :: tl)).
  assert (Hn : (1 <= n)%nat).
  { unfold n. cbn [run_len]. rewrite skill_sep_class, Hc. lia. }
  destruct (try_down k n 1 x) as [z|] eqn:E.
  - exists z. split; [reflexivity|].
    apply try_down_some in E. destruct E as [j [Hj [Hk _]]].
    unfold k in Hk. apply m_forward in Hk.
    destruct Hk as [y' [Hr Hy]]. injection Hy as ->.
    apply reach_remaining in Hr. rewrite remaining_skip in Hr.
    assert (1 <= remaining x)%nat by (unfold remaining; rewrite Hx; simpl; lia).
    lia.
  - exfalso. pose proof (proj1 (try_down_none _ _ _ _) E 1%nat ltac:(lia)) as Hk.
    unfold k, star in Hk.
    exact (greedy_from_zero_some false _ None _ Some _ eq_refl Hk).
Qed.

Lemma split_loop_no_sep : forall f bef piece s,
  (2 * length s + (if truthy piece then 1 else 0) < f)%nat ->
  Forall (fun c => is_skill_sep c = false) piece ->
  Forall (Forall (fun c => is_skill_sep c = false))
    (split_loop f re_skill_sep bef piece s).
Proof.
  induction f as [|f IH]; intros bef piece s Hf Hp; [lia|].
  cbn [split_loop]. destruct s as [|c s].
  { constructor; [apply Forall_rev; exact Hp|constructor]. }
  cbn [length] in Hf.
  assert (Hstep : is_skill_sep c = false ->
            Forall (Forall (fun c => is_skill_sep c = false))
              (split_loop f re_skill_sep (c :: bef) (c :: piece) s)).
  { intros Hc. apply IH; [cbn [truthy]; lia|constructor; assumption]. }
  destruct (match_at re_skill_sep (mkState bef (c :: s) [])) as [y|] eqn:E.
  - pose proof (match_at_remaining _ _ y E) as Hle.
    destruct (Nat.eqb (remaining y) (remaining (mkState bef (c :: s) []))
              && negb (truthy piece)) eqn:Eb.
    + apply Hstep. destruct (is_skill_sep c) eqn:Ec; [|reflexivity].
      destruct (skill_sep_matches (mkState bef (c :: s) []) c s eq_refl Ec)
        as [y' [Hy' Hlt]].
      rewrite E in Hy'. injection Hy' as <-.
      apply andb_true_iff in Eb. destruct Eb as [Eb _].
      apply Nat.eqb_eq in Eb. lia.
    + constructor; [apply Forall_rev; exact Hp|].
      apply IH; [|constructor]. cbn [truthy].
      unfold remaining in *. cbn [rest length] in *.
      apply andb_false_iff in Eb. destruct Eb as [Eb|Eb].
      * apply Nat.eqb_neq in Eb. lia.
      * apply negb_false_iff in Eb. rewrite Eb in Hf. lia.
  - apply Hstep. destruct (is_skill_sep c) eqn:Ec; [|reflexivity].
    destruct (skill_sep_matches (mkState bef (c :: s) []) c s eq_refl Ec)
      as [y' [Hy' _]].
    congruence.
Qed.

Lemma split_re_no_sep line :
  Forall (Forall (fun c => is_skill_sep c = false)) (split_re line re_skill_sep).
Proof.
  unfold split_re. destruct line as [|c line].
  - destruct (match_at re_skill_sep _); repeat constructor.
  - apply split_loop_no_sep; [cbn [truthy]; lia|constructor].
Qed.

(** No skill of a record holds a comma, a semicolon or another character
    of the separator class. *)
Theorem skills_hold_no_separator (text : jsstring) (r : ResumeRecord) :
  extractResumeData text = Ok r ->
  Forall (fun skill => forall c, In c skill -> is_skill_sep c = false)
    (skills r).
Proof.
  intros H. destruct (extractResumeData_fields text r H) as [l0 [ls [_ ->]]].
  cbn [skills].
  assert (Hs : Forall (fun skill => forall c, In c skill -> is_skill_sep c = false)
                 (extract_skills text)).
  { unfold extract_skills. destruct (str_match text re_skills); [|constructor].
    apply Forall_forall. intros e He. apply in_map_iff in He.
    destruct He as [s [<- Hs]]. apply filter_In in Hs. destruct Hs as [Hs _].
    apply in_flat_map in Hs. destruct Hs as [line [_ Hs]].
    pose proof (split_re_no_sep line) as Hall.
    rewrite Forall_forall in Hall. specialize (Hall s Hs).
    rewrite Forall_forall in Hall.
    intros c Hc. apply Hall. apply trim_incl. exact Hc. }
  destruct (extract_skills text) as [|e es]; cbn [or_placeholder]; [|exact Hs].
  constructor; [|constructor]. intros c Hc. cbv in Hc.
  repeat (destruct Hc as [Hc|Hc]; [subst c; reflexivity|]). destruct Hc.
Qed.

Lemma skills_hold_no_separator_witness :
  exists r, extractResumeData resume_skills_below = Ok r /\
    Forall (fun skill => forall c, In c skill -> is_skill_sep c = false)
      (skills r).
Proof.
  assert (H : exists r, extractResumeData resume_skills_below = Ok r)
    by (eexists; vm_compute; reflexivity).
  destruct H as [r H]. exists r. split; [exact H|].
  exact (skills_hold_no_separator _ r H).
Defined.

(** ** The email on any text *)

(** On every text, the bar included: the email of a record is empty
    exactly when no part of the text is an address between word
    boundaries whose last part is made of letters and bars; otherwise it
    is such a part, the leftmost, and the longest that begins there. *)
Theorem email_on_any_text (text : jsstring) (r : ResumeRecord) :
  extractResumeData text = Ok r ->
  (email r = [] /\
   forall pre s post, text = pre ++ s ++ post ->
     ~ bounded_email is_tld pre s post) \/
  (email r <> [] /\
   exists pre0 post0,
     text = pre0 ++ email r ++ post0 /\
     bounded_email is_tld pre0 (email r) post0 /\
     forall pre s post,
       text = pre ++ s ++ post -> bounded_email is_tld pre s post ->
       (length pre0 <= length pre)%nat /\
       (length pre = length pre0 -> (length s <= length (email r))%nat)).
Proof.
  intros H. rewrite (email_of_record text r H).
  destruct (str_match text re_email) as [res|] eqn:E; cbn [matched_or_empty].
  - right. destruct (email_found text res E) as [pre0 [post0 [E0 [Hocc Hmax]]]].
    split.
    + intros Hm. pose proof (shape_has_at _ _ (proj1 Hocc)) as Hat.
      rewrite Hm in Hat. destruct Hat.
    + exists pre0, post0. split; [exact E0|]. split; [exact Hocc|].
      intros pre s post Es Hs. destruct (Hmax pre s post Es Hs) as [Hle Hlong].
      split; [exact Hle|]. intros Heq. apply Hlong. exact Heq.
  - left. split; [reflexivity|]. exact (email_missing text E).
Qed.

Lemma email_on_any_text_witness :
  exists r, extractResumeData (u "write to a@b.c|d today") = Ok r /\
            email r = u "a@b.c|d".
Proof.
  assert (H : extractResumeData (u "write to a@b.c|d today") =
              Ok (mkResume (u "write to a@b.c|d today") (u "a@b.c|d") []
                    [u "Various professional experiences"]
                    [u "Relevant educational background"]
                    [u "Various professional skills"]))
    by (vm_compute; reflexivity).
  eexists. split; [exact H|].
  destruct (email_on_any_text _ _ H) as [[He _]|[_ _]]; [discriminate He|].
  reflexivity.
Defined.

(** ** Company and role *)

Lemma capital_class_letter c :
  class_mem true [CRange (ch "A") (ch "Z")] c = true -> is_letter c = true.
Proof.
  unfold class_mem, existsb, item_mem. rewrite orb_false_r. cbn [andb].
  change (in_range (ch "A") (ch "Z")) with is_upper. unfold is_letter.
  intros H. apply orb_true_iff in H. destruct H as [H|H]; [rewrite H; reflexivity|].
  apply orb_true_iff in H.
  destruct (canon_cases c) as [[Hl Ec]|[Hl Ec]];
    destruct (to_lower_cases c) as [[Hu El]|[Hu El]];
    rewrite ?Hl, ?Hu; try reflexivity; try apply orb_true_r.
  rewrite Ec, El, Hu in H. destruct H; discriminate.
Qed.

(** The capture of a capitalized phrase begins with a letter. *)
Lemma capitalized_group text re r1 r2 res :
  pattern re = RSeq r1 (RSeq r2 (RGroup 1 capitalized_phrase)) ->
  ignoreCase re = true ->
  str_match text re = Some res ->
  exists c tl, group 1 res = c :: tl /\ is_letter c = true.
Proof.
  intros Hp Hi H. unfold str_match in H. apply scan_result in H.
  destruct H as [bef [s [y [Hm ->]]]]. unfold match_at in Hm.
  rewrite Hp, Hi in Hm. cbn [m] in Hm.
  apply m_forward in Hm. destruct Hm as [y1 [_ Hm]].
  apply m_forward in Hm. destruct Hm as [y2 [_ Hm]].
  unfold capitalized_phrase in Hm. cbn [seq m] in Hm.
  destruct (rest y2) as [|c tl] eqn:Ey; [discriminate|].
  cbn [xorb] in Hm.
  destruct (class_mem true [CRange (ch "A") (ch "Z")] c) eqn:Ec; [|discriminate].
  apply (m_forward true (star _)) in Hm. destruct Hm as [w [[s' [Hr _]] Hw]].
  injection Hw as <-.
  rewrite (advance_cons y2 c tl Ey) in Hr. cbn [rest] in Hr.
  exists c, s'. split; [|exact (capital_class_letter c Ec)].
  unfold group. cbn [groups caps set_cap cap_get Nat.eqb].
  apply (reach_taken y2 w (c :: s')). rewrite Ey, Hr. reflexivity.
Qed.

Lemma letter_no_space c : is_letter c = true -> is_space c = false.
Proof.
  unfold is_letter. intros H. apply orb_true_iff in H.
  apply letter_not_space.
  destruct H as [H|H]; [apply is_upper_range in H|apply is_lower_range in H]; lia.
Qed.

Lemma capitalized_company text re r1 r2 res :
  pattern re = RSeq r1 (RSeq r2 (RGroup 1 capitalized_phrase)) ->
  ignoreCase re = true ->
  str_match text re = Some res ->
  exists c tl, trim (group 1 res) = c :: tl /\ is_letter c = true.
Proof.
  intros Hp Hi H.
  destruct (capitalized_group text re r1 r2 res Hp Hi H) as [c [tl [E Hc]]].
  rewrite E. destruct (trim_keeps_head c tl (letter_no_space c Hc)) as [tl' Ht].
  eauto.
Qed.

Lemma company_of_any_record text r :
  analyzeJobDescription text = Ok r -> company r = company_by_precedence text.
Proof.
  intros H. apply company_of_record in H. cbn beta in H.
  destruct company_patterns_group1 as [Ha [Hc Hb]].
  unfold company_by_precedence.
  destruct (str_match text re_at) as [ra|] eqn:Ea; cbn [or_else] in H.
  { rewrite (group1_or_value text re_at ra "the company" Ha Ea) in H.
    injection H as <-. reflexivity. }
  destruct (str_match text re_company) as [rc|] eqn:Ec; cbn [or_else] in H.
  { rewrite (group1_or_value text re_company rc "the company" Hc Ec) in H.
    injection H as <-. reflexivity. }
  destruct (str_match text re_about) as [rb|] eqn:Eb; cbn [or_else] in H.
  { rewrite (group1_or_value text re_about rb "the company" Hb Eb) in H.
    injection H as <-. reflexivity. }
  cbn [group1_or] in H. injection H as <-. reflexivity.
Qed.

(** The company of a record is empty only when it was taken from the
    "company:" pattern: taken from the "at" or the "about" pattern it
    begins with a letter, and the placeholder is not empty. *)
Theorem company_empty_only_from_label (text : jsstring) (r : JobRecord) :
  analyzeJobDescription text = Ok r ->
  (str_match text re_at <> None \/ str_match text re_company = None ->
   exists c tl, company r = c :: tl /\ is_letter c = true) /\
  (company r = [] ->
   str_match text re_at = None /\
   exists res, str_match text re_company = Some res /\ trim (group 1 res) = []).
Proof.
  intros H. rewrite (company_of_any_record text r H).
  unfold company_by_precedence.
  destruct (str_match text re_at) as [ra|] eqn:Ea.
  { destruct (capitalized_company text re_at _ _ ra eq_refl eq_refl Ea)
      as [c [tl [E Hc]]].
    split; [intros _; eauto|]. rewrite E. discriminate. }
  destruct (str_match text re_company) as [rc|] eqn:Ec.
  { split; [intros [Hn|Hn]; congruence|]. intros E. split; [reflexivity|eauto]. }
  destruct (str_match text re_about) as [rb|] eqn:Eb.
  { destruct (capitalized_company text re_about _ _ rb eq_refl eq_refl Eb)
      as [c [tl [E Hc]]].
    split; [intros _; eauto|]. rewrite E. discriminate. }
  split; [|discriminate]. intros _. eexists. eexists. split; reflexivity.
Qed.

Lemma company_empty_only_from_label_witness :
  exists r, analyzeJobDescription jd_example = Ok r /\
            exists c tl, company r = c :: tl /\ is_letter c = true.
Proof.
  destruct (analyzeJobDescription_total jd_example) as [c [ro H]].
  eexists. split; [exact H|].
  apply (proj1 (company_empty_only_from_label _ _ H)).
  left. vm_compute. discriminate.
Defined.

Lemma role_of_record text r :
  analyzeJobDescription text = Ok r ->
  group1_or (or_else (str_match text re_position)
               (or_else (str_match text re_role)
                  (or_else (str_match text re_looking)
                     (str_match text re_seeking))))
    "the position" = Ok (role r).
Proof.
  unfold analyzeJobDescription. intros H.
  destruct (group1_or (or_else (str_match text re_at) _) _) as [c|e];
    simpl in H; [|discriminate].
  destruct (group1_or (or_else (str_match text re_position) _) _) as [c'|e];
    simpl in H; [|discriminate].
  injection H as <-. reflexivity.
Qed.

(** The capture of the rest of a line holds no line break. *)
Lemma rest_of_line_group text re r1 r2 res :
  pattern re = RSeq r1 (RSeq r2 (RGroup 1 (plus not_newline))) ->
  str_match text re = Some res ->
  ~ In NL (group 1 res).
Proof.
  intros Hp H. unfold str_match in H. apply scan_result in H.
  destruct H as [bef [s [y [Hm ->]]]]. unfold match_at in Hm.
  rewrite Hp in Hm. cbn [m] in Hm.
  apply m_forward in Hm. destruct Hm as [y1 [_ Hm]].
  apply m_forward in Hm. destruct Hm as [y2 [_ Hm]].
  unfold plus, not_newline in Hm.
  rewrite (greedy_run _ _ _ (one_char_class _ true [CChar NL]) _ y2 _ _ eq_refl)
    in Hm.
  apply try_down_some in Hm. destruct Hm as [j [[_ Hj] [Hk _]]].
  injection Hk as <-.
  destruct (run_len_prefix _ _ j Hj) as [l [rt [Hr [Hl Hf]]]].
  unfold group. cbn [groups caps set_cap cap_get Nat.eqb].
  rewrite (reach_taken y2 (skip j y2) l)
    by (rewrite (skip_rest_tail j y2 l rt Hr Hl); exact Hr).
  intros Hin. rewrite Forall_forall in Hf. specialize (Hf NL Hin).
  cbv beta in Hf. unfold class_mem, existsb, item_mem in Hf.
  rewrite N.eqb_refl in Hf. discriminate.
Qed.

(** On every job description a record is returned, and its role is the
    trimmed capture of the first of the patterns of "position:", "role:",
    "looking for a" and "seeking a" that matches, tried in this order;
    the placeholder "the position" when none matches.  The role holds no
    line break and has no white space at its ends. *)
Lemma role_by_patterns (text : jsstring) :
  exists r, analyzeJobDescription text = Ok r /\
            role r = role_by_precedence text /\
            ~ In NL (role r) /\ trimmed (role r).
Proof.
  destruct (analyzeJobDescription_total text) as [c [ro H]].
  eexists. split; [exact H|].
  apply role_of_record in H. cbn beta in H. cbn [role] in *.
  destruct role_patterns_group1 as [Hp [Hr [Hl Hs]]].
  unfold role_by_precedence.
  assert (Hline : forall re r1 r2 res,
            pattern re = RSeq r1 (RSeq r2 (RGroup 1 (plus not_newline))) ->
            str_match text re = Some res ->
            ~ In NL (trim (group 1 res)) /\ trimmed (trim (group 1 res))).
  { intros re r1 r2 res Hpat Hm. split; [|apply trim_trimmed].
    intros Hin. apply trim_incl in Hin.
    exact (rest_of_line_group text re r1 r2 res Hpat Hm Hin). }
  destruct (str_match text re_position) as [m1|] eqn:E1; cbn [or_else] in H.
  { rewrite (group1_or_value text re_position m1 "the position" Hp E1) in H.
    injection H as <-. split; [reflexivity|].
    exact (Hline re_position _ _ m1 eq_refl E1). }
  destruct (str_match text re_role) as [m2|] eqn:E2; cbn [or_else] in H.
  { rewrite (group1_or_value text re_role m2 "the position" Hr E2) in H.
    injection H as <-. split; [reflexivity|].
    exact (Hline re_role _ _ m2 eq_refl E2). }
  destruct (str_match text re_looking) as [m3|] eqn:E3; cbn [or_else] in H.
  { rewrite (group1_or_value text re_looking m3 "the position" Hl E3) in H.
    injection H as <-. split; [reflexivity|].
    exact (Hline re_looking _ _ m3 eq_refl E3). }
  destruct (str_match text re_seeking) as [m4|] eqn:E4; cbn [or_else] in H.
  { rewrite (group1_or_value text re_seeking m4 "the position" Hs E4) in H.
    injection H as <-. split; [reflexivity|].
    exact (Hline re_seeking _ _ m4 eq_refl E4). }
  cbn [group1_or] in H. injection H as <-. split; [reflexivity|].
  split; [|apply trimmed_literal; reflexivity].
  cbv. intros Hin. repeat (destruct Hin as [Hin|Hin]; [discriminate|]). exact Hin.
Qed.

(** ** What [includes] means *)

Lemma starts_with_spec p : forall s,
  starts_with p s = true <-> exists tl, s = p ++ tl.
Proof.
  induction p as [|x p IH]; intros s.
  - split; [intros _; exists s; reflexivity|reflexivity].
  - destruct s as [|y s]; cbn [starts_with].
    + split; [discriminate|intros [tl H]; discriminate].
    + rewrite andb_true_iff, N.eqb_eq, IH. split.
      * intros [-> [tl ->]]. exists tl. reflexivity.
      * intros [tl H]. injection H as -> ->. eauto.
Qed.

Lemma includes_spec p : forall s,
  includes s p = true <-> exists pre tl, s = pre ++ p ++ tl.
Proof.
  induction s as [|c s IH]; cbn [includes].
  - rewrite orb_false_r, starts_with_spec. split.
    + intros [tl H]. exists [], tl. exact H.
    + intros [pre [tl H]]. destruct pre; [eauto|discriminate].
  - rewrite orb_true_iff, starts_with_spec, IH. split.
    + intros [[tl H]|[pre [tl H]]].
      * exists [], tl. exact H.
      * exists (c :: pre), tl. simpl. f_equal. exact H.
    + intros [pre [tl H]]. destruct pre as [|c' pre].
      * left. eauto.
      * right. simpl in H. injection H as _ H. eauto.
Qed.

(** A text that includes a keyword includes every part of the keyword. *)
Lemma includes_part s a p b :
  includes s (a ++ p ++ b) = true -> includes s p = true.
Proof.
  rewrite !includes_spec. intros [pre [tl H]].
  exists (pre ++ a), (b ++ tl). rewrite H, <- !app_assoc. reflexivity.
Qed.

(** ** The requirements as a whole *)

Lemma subseq_in {A} (xs ys : list A) a : subseq xs ys -> In a xs -> In a ys.
Proof.
  induction 1; intros Hin; simpl in *; tauto.
Qed.

Lemma subseq_nodup {A} (xs ys : list A) : subseq xs ys -> NoDup ys -> NoDup xs.
Proof.
  induction 1; intros Hn; [constructor| |].
  - inversion Hn; auto.
  - inversion Hn; subst. constructor; [|auto].
    intros Hin. eauto using subseq_in.
Qed.

Lemma subseq_length {A} (xs ys : list A) :
  subseq xs ys -> (length xs <= length ys)%nat.
Proof. induction 1; simpl; lia. Qed.

Lemma phrases_distinct : NoDup (map phrase check_order).
Proof.
  cbv.
  repeat (constructor;
          [intros H; repeat (destruct H as [H|H]; [discriminate H|]); exact H|]).
  constructor.
Qed.

Lemma nodup_map_inj {A B} (f : A -> B) l a b :
  NoDup (map f l) -> In a l -> In b l -> f a = f b -> a = b.
Proof.
  induction l as [|x l IH]; intros Hn Ha Hb E; [destruct Ha|].
  simpl in Hn. inversion Hn as [|? ? Hx Hl]; subst.
  destruct Ha as [->|Ha], Hb as [->|Hb]; auto.
  - exfalso. apply Hx. rewrite E. apply in_map. exact Hb.
  - exfalso. apply Hx. rewrite <- E. apply in_map. exact Ha.
Qed.

(** A phrase is among the requirements exactly when its trigger occurs. *)
Lemma requirement_listed text c :
  In c check_order ->
  (In (phrase c) (build_requirements text) <-> present text c = true).
Proof.
  intros Hc. rewrite build_requirements_filter. split.
  - intros H. apply in_map_iff in H. destruct H as [c' [E Hc']].
    apply filter_In in Hc'. destruct Hc' as [Hin Hp].
    rewrite <- (nodup_map_inj phrase check_order c' c phrases_distinct Hin Hc E).
    exact Hp.
  - intros H. apply in_map. apply filter_In. auto.
Qed.

Lemma placeholder_is_no_phrase c :
  In c check_order -> phrase c <> u "Various skills and experiences".
Proof.
  intros Hc E. apply (in_map phrase) in Hc. rewrite E in Hc. cbv in Hc.
  repeat (destruct Hc as [Hc|Hc]; [discriminate Hc|]). exact Hc.
Qed.

Lemma listed_in_record text r c :
  analyzeJobDescription text = Ok r -> In c check_order ->
  (In (phrase c) (requirements r) <-> present text c = true).
Proof.
  intros H Hc. rewrite (requirements_of_record text r H).
  rewrite <- (requirement_listed text c Hc).
  destruct (build_requirements text) as [|e es]; cbn [or_placeholder];
    [|reflexivity].
  split; [|intros []]. intros [E|[]]. symmetry in E.
  exact (placeholder_is_no_phrase c Hc E).
Qed.

(** The requirements of a record never repeat an entry and have between
    one and thirty entries; a keyword is listed exactly when the text
    includes it, so "Java" is listed whenever "JavaScript" is, and "SQL"
    whenever "NoSQL" is. *)
Theorem requirements_as_a_whole (text : jsstring) (r : JobRecord) :
  analyzeJobDescription text = Ok r ->
  NoDup (requirements r) /\
  (1 <= length (requirements r) <= 30)%nat /\
  (forall skill, In skill skillKeywords ->
     (In (u skill) (requirements r) <-> includes text (u skill) = true)) /\
  (In (u "JavaScript") (requirements r) -> In (u "Java") (requirements r)) /\
  (In (u "NoSQL") (requirements r) -> In (u "SQL") (requirements r)).
Proof.
  intros H.
  assert (Hkw : forall skill, In skill skillKeywords ->
            (In (u skill) (requirements r) <-> includes text (u skill) = true)).
  { intros skill Hs.
    apply (listed_in_record text r (skill, skill) H).
    unfold check_order. apply in_or_app. right.
    apply in_map_iff. exists skill. auto. }
  split; [|split; [|split; [exact Hkw|split]]].
  - rewrite (requirements_of_record text r H), build_requirements_filter.
    destruct (filter (present text) check_order) as [|c cs] eqn:E;
      cbn [or_placeholder map]; [repeat constructor; intros []|].
    change (phrase c :: map phrase cs) with (map phrase (c :: cs)).
    rewrite <- E.
    exact (subseq_nodup _ _ (subseq_map phrase _ _ (subseq_filter _ _))
             phrases_distinct).
  - rewrite (requirements_of_record text r H), build_requirements_filter.
    destruct (filter (present text) check_order) as [|c cs] eqn:E;
      cbn [or_placeholder map]; [simpl; lia|].
    split; [simpl; lia|].
    change (phrase c :: map phrase cs) with (map phrase (c :: cs)).
    rewrite <- E.
    exact (subseq_length _ _ (subseq_map phrase _ _ (subseq_filter _ _))).
  - intros Hjs. apply (Hkw "JavaScript"%string) in Hjs; [|cbv; tauto].
    apply (Hkw "Java"%string); [cbv; tauto|].
    exact (includes_part text [] (u "Java") (u "Script") Hjs).
  - intros Hjs. apply (Hkw "NoSQL"%string) in Hjs; [|cbv; tauto].
    apply (Hkw "SQL"%string); [cbv; tauto|].
    apply (includes_part text (u "No") (u "SQL") []).
    rewrite app_nil_r. exact Hjs.
Qed.

Lemma requirements_as_a_whole_witness :
  exists r, analyzeJobDescription jd_example = Ok r /\
            NoDup (requirements r) /\
            (1 <= length (requirements r) <= 30)%nat.
Proof.
  destruct (analyzeJobDescription_total jd_example) as [c [ro H]].
  eexists. split; [exact H|].
  destruct (requirements_as_a_whole _ _ H) as [Hn [Hl _]]. auto.
Defined.

(** ** Payment without the promo code *)

Lemma verifyPayment_without_promo
    (fetch : JsValue -> option (list (string * JsValue)))
    (body : list (string * JsValue)) :
  strict_eq_str (get_field body "promoCode") "070605" = false ->
  exists r, snd (verifyPayment fetch body) = Respond r /\
            (status r = 403%nat \/ status r = 500%nat).
Proof.
  intros Hp. unfold verifyPayment. rewrite Hp.
  destruct (is_truthy (get_field body "paymentId")); cbn [negb];
    [|eexists; split; [reflexivity|left; reflexivity]].
  destruct (fetch (get_field body "paymentId")) as [payment|];
    [|eexists; split; [reflexivity|right; reflexivity]].
  destruct (strict_eq_str (get_field payment "status") "captured");
    cbn [negb]; eexists; (split; [reflexivity|]); [right|left]; reflexivity.
Qed.

(** A body without the promo code is never handed on to the generation
    handler: the middleware answers it itself, with status 403 or 500.
    A captured payment is answered with 500, because the [Payment] model
    that records it is not declared. *)
Theorem payment_never_passes_without_promo
    (fetch : JsValue -> option (list (string * JsValue)))
    (body : list (string * JsValue)) :
  strict_eq_str (get_field body "promoCode") "070605" = false ->
  (exists r, snd (verifyPayment fetch body) = Respond r /\
             (status r = 403%nat \/ status r = 500%nat)) /\
  (forall payment,
     is_truthy (get_field body "paymentId") = true ->
     fetch (get_field body "paymentId") = Some payment ->
     strict_eq_str (get_field payment "status") "captured" = true ->
     exists r, snd (verifyPayment fetch body) = Respond r /\
               status r = 500%nat).
Proof.
  intros Hp. split; [exact (verifyPayment_without_promo fetch body Hp)|].
  unfold verifyPayment. rewrite Hp.
  - intros payment Ht Hf Hc. rewrite Ht, Hf, Hc. cbn [negb].
    eexists. split; reflexivity.
Qed.

Lemma payment_never_passes_without_promo_witness :
  exists r,
    snd (verifyPayment
           (fun _ => Some [("status"%string, str "captured")])
           [("paymentId"%string, str "pay_1")]) = Respond r /\
    status r = 500%nat.
Proof.
  apply (proj2 (payment_never_passes_without_promo
                  (fun _ => Some [("status"%string, str "captured")])
                  [("paymentId"%string, str "pay_1")] eq_refl)
           [("status"%string, str "captured")]); reflexivity.
Defined.

(** Without promo code and without a payment id the answer is 403
    "Payment required", and the gateway is not asked. *)
Theorem missing_payment_id_is_refused
    (fetch : JsValue -> option (list (string * JsValue)))
    (body : list (string * JsValue)) :
  strict_eq_str (get_field body "promoCode") "070605" = false ->
  is_truthy (get_field body "paymentId") = false ->
  verifyPayment fetch body =
  ([], payment_error 403 "Payment required"
         "Please complete payment to generate cover letter").
Proof.
  intros Hp Hi. unfold verifyPayment. rewrite Hp, Hi. reflexivity.
Qed.

Lemma missing_payment_id_is_refused_witness :
  verifyPayment (fun _ => None) [] =
  ([], payment_error 403 "Payment required"
         "Please complete payment to generate cover letter").
Proof.
  exact (missing_payment_id_is_refused (fun _ => None) [] eq_refl eq_refl).
Defined.

(** ** The upload endpoint *)

Lemma split_on_incl c : forall s line,
  In line (split_on NL s) -> In c line -> In c s.
Proof.
  induction s as [|a s IH]; intros line Hl Hc.
  - destruct Hl as [<-|[]]. destruct Hc.
  - cbn [split_on] in Hl. destruct (a =? NL).
    + destruct Hl as [<-|Hl]; [destruct Hc|]. right. eauto.
    + destruct (split_on NL s) as [|piece more] eqn:Es.
      * destruct Hl as [<-|[]]. destruct Hc as [->|[]]. left. reflexivity.
      * destruct Hl as [<-|Hl].
        -- destruct Hc as [->|Hc]; [left; reflexivity|].
           right. apply (IH piece); [left; reflexivity|exact Hc].
        -- right. apply (IH line); [right; exact Hl|exact Hc].
Qed.

(** [extractResumeData] returns a record exactly on the texts that hold
    a character that is not white space. *)
Lemma extractResumeData_returns_iff text :
  (exists r, extractResumeData text = Ok r) <->
  (exists c, In c text /\ is_space c = false).
Proof.
  split.
  - intros [r H]. destruct (extractResumeData_fields text r H) as [l0 [ls [Hf _]]].
    destruct (filter_first _ _ _ _ Hf) as [l1 [l2 [E [_ Hl0]]]].
    destruct (trim l0) as [|c tl] eqn:Et; [discriminate|].
    exists c. split.
    + apply (split_on_incl c text l0).
      * rewrite E. apply in_or_app. right. left. reflexivity.
      * apply trim_incl. rewrite Et. left. reflexivity.
    + destruct (trim_trimmed l0) as [Hh _]. exact (Hh c tl Et).
  - intros [c [Hin Hc]]. destruct (extractResumeData_ok text c Hin Hc) as [n H].
    eauto.
Qed.

(** The upload is answered with status 200 exactly when a file came, its
    parser gave a text, and the text holds a character that is not white
    space; the answer then carries the record of that text. *)
Theorem upload_succeeds_iff_text_not_blank (development : bool)
    (pdf extractRawText : list N -> Parsed)
    (type_error_message : JsError -> JsValue)
    (file : option UploadedFile) :
  let answer :=
    upload_handler development pdf extractRawText type_error_message file in
  (status answer = 200%nat <->
   exists f text c,
     file = Some f /\ parse_file pdf extractRawText f = ParsedText text /\
     In c text /\ is_space c = false) /\
  (status answer = 200%nat ->
   exists f text r,
     file = Some f /\ parse_file pdf extractRawText f = ParsedText text /\
     extractResumeData text = Ok r /\
     json answer = VObj [("success", VBool true);
                         ("data", resume_to_json r)]%string).
Proof.
  cbv zeta. unfold upload_handler.
  destruct file as [f|]; cbn [status json].
  2:{ split; [split|]; [intros H; discriminate H| |intros H; discriminate H].
      intros [f [t [c [H _]]]]. discriminate. }
  destruct (parse_file pdf extractRawText f) as [text|msg] eqn:Ep;
    cbn [status json upload_failed].
  2:{ split; [split|]; [intros H; discriminate H| |intros H; discriminate H].
      intros [f' [t [c [Hf [H _]]]]]. injection Hf as <-. congruence. }
  destruct (extractResumeData text) as [r|e] eqn:Er;
    cbn [status json upload_failed].
  - split; [split|].
    + intros _. destruct (proj1 (extractResumeData_returns_iff text))
        as [c [Hin Hc]]; [eauto|].
      exists f, text, c. auto.
    + reflexivity.
    + intros _. exists f, text, r. auto.
  - split; [split|]; [intros H; discriminate H| |intros H; discriminate H].
    intros [f' [t [c [Hf [Ht [Hin Hc]]]]]].
    injection Hf as <-. rewrite Ep in Ht. injection Ht as <-.
    destruct (proj2 (extractResumeData_returns_iff text)) as [r Hr]; [eauto|].
    congruence.
Qed.

Lemma upload_succeeds_iff_text_not_blank_witness :
  status (upload_handler false (fun _ => ParsedText contact_line)
            (fun _ => ParseFailed VUndefined) (fun _ => VUndefined)
            (Some (mkFile (u "application/pdf") []))) = 200%nat.
Proof.
  apply (proj1 (upload_succeeds_iff_text_not_blank false
                  (fun _ => ParsedText contact_line)
                  (fun _ => ParseFailed VUndefined) (fun _ => VUndefined)
                  (Some (mkFile (u "application/pdf") [])))).
  exists (mkFile (u "application/pdf") []), contact_line, (ch "J").
  repeat split; try reflexivity. left. reflexivity.
Defined.

Lemma extractResumeData_blank text :
  all_blank text -> extractResumeData text = Throw TypeError.
Proof.
  intros H. unfold extractResumeData.
  rewrite filter_none; [reflexivity|].
  intros line Hl. rewrite (H line Hl). reflexivity.
Qed.

(** A document whose text is blank (a scan without text, say) is
    answered with status 500 "Error processing resume": the TypeError of
    [extractResumeData] is caught by the handler. *)
Theorem upload_of_blank_document_answers_500 (development : bool)
    (pdf extractRawText : list N -> Parsed)
    (type_error_message : JsError -> JsValue)
    (f : UploadedFile) (text : jsstring) :
  parse_file pdf extractRawText f = ParsedText text ->
  all_blank text ->
  upload_handler development pdf extractRawText type_error_message (Some f)
  = mkResponse 500
      (VObj [("error", str "Error processing resume");
             ("message", str "Could not parse your resume file");
             ("details", if development then type_error_message TypeError
                         else VUndefined)]%string).
Proof.
  intros Hp Hb. unfold upload_handler. rewrite Hp.
  rewrite (extractResumeData_blank text Hb). reflexivity.
Qed.

Lemma upload_of_blank_document_answers_500_witness :
  status (upload_handler false (fun _ => ParsedText [])
            (fun _ => ParsedText []) (fun _ => VUndefined)
            (Some (mkFile (u "application/pdf") []))) = 500%nat.
Proof.
  rewrite (upload_of_blank_document_answers_500 false (fun _ => ParsedText [])
             (fun _ => ParsedText []) (fun _ => VUndefined)
             (mkFile (u "application/pdf") []) [] eq_refl).
  - reflexivity.
  - intros line [<-|[]]. reflexivity.
Defined.

(** ** The generation endpoint *)

Section GenerateFacts.
Variable key : option jsstring.
Variable development : bool.
Variable now : jsstring.
Variable post : jsstring -> PostResult.
Variable number_to_string : N -> jsstring.
Variable type_error_text : string -> JsValue -> JsValue.

Let handler := generate_handler key development now post number_to_string
                 type_error_text.
Let prompt_of := build_prompt number_to_string.
Let cover := generateCoverLetter post number_to_string.
Let text_of := to_string number_to_string.

Lemma to_string_cases : forall v,
  if printable v then exists s, text_of v = Some s else text_of v = None.
Proof.
  unfold text_of. fix IH 1. intros [| |b|n|s|items|fields].
  - eexists; reflexivity.
  - eexists; reflexivity.
  - destruct b; eexists; reflexivity.
  - eexists; reflexivity.
  - eexists; reflexivity.
  - cbn [printable to_string].
    assert (H : if forallb printable items
                then exists l,
                  all_some (map (fun x => match x with
                                          | VUndefined | VNull => Some []
                                          | _ => to_string number_to_string x
                                          end) items) = Some l
                else all_some (map (fun x => match x with
                                             | VUndefined | VNull => Some []
                                             | _ => to_string number_to_string x
                                             end) items) = None).
    { induction items as [|x more IHm]; [exists []; reflexivity|].
      cbn [forallb map all_some]. specialize (IH x).
      destruct x; cbn [printable andb] in *;
        try (destruct (forallb printable more);
             [destruct IHm as [l ->]|rewrite IHm];
             try (destruct IH as [t ->]); try (eexists; reflexivity);
             reflexivity).
      - destruct (forallb printable items).
        + destruct IH as [t ->]. cbn [andb].
          destruct (forallb printable more);
            [destruct IHm as [l ->]; eexists; reflexivity|rewrite IHm; reflexivity].
        + rewrite IH. reflexivity.
      - destruct (negb (has_field fields "toString")).
        + destruct IH as [t ->]. cbn [andb].
          destruct (forallb printable more);
            [destruct IHm as [l ->]; eexists; reflexivity|rewrite IHm; reflexivity].
        + rewrite IH. reflexivity. }
    destruct (forallb printable items).
    + destruct H as [l ->]. eexists; reflexivity.
    + rewrite H. reflexivity.
  - cbn [printable to_string].
    destruct (has_field fields "toString"); [reflexivity|eexists; reflexivity].
Qed.

Lemma pieces_cases items :
  if forallb printable items
  then exists l, all_some (map (piece number_to_string) items) = Some l
  else all_some (map (piece number_to_string) items) = None.
Proof.
  induction items as [|x more IH]; [exists []; reflexivity|].
  cbn [forallb map all_some].
  assert (Hx : if printable x
               then exists s, piece number_to_string x = Some s
               else piece number_to_string x = None).
  { pose proof (to_string_cases x) as H. unfold text_of in H.
    destruct x; try exact H; eexists; reflexivity. }
  destruct (printable x); cbn [andb].
  - destruct Hx as [s ->]. destruct (forallb printable more).
    + destruct IH as [l ->]. eexists; reflexivity.
    + rewrite IH. reflexivity.
  - rewrite Hx. reflexivity.
Qed.

Lemma string_of_cases site v :
  if printable v
  then exists s, string_of number_to_string site v = Done s
  else string_of number_to_string site v = Failed (TypeErrorAt site v).
Proof.
  unfold string_of. pose proof (to_string_cases v) as H. unfold text_of in H.
  destruct (printable v); [destruct H as [s ->]; eauto|rewrite H; reflexivity].
Qed.

Lemma join_of_cases site v sep :
  if joinable v
  then exists s, join_of number_to_string site v sep = Done s
  else join_of number_to_string site v sep = Failed (TypeErrorAt site v).
Proof.
  unfold joinable.
  destruct v; cbn [is_array andb join_of]; try reflexivity.
  pose proof (pieces_cases items) as H. cbn [printable].
  destruct (forallb printable items);
    [destruct H as [l ->]; eauto|rewrite H; reflexivity].
Qed.

Lemma phone_printable v :
  printable (if is_truthy v then v else str "Not specified") = printable v.
Proof. destruct v as [| |[|]|n|[|c s]|items|fields]; try reflexivity.
  cbn [is_truthy]. destruct (negb (n =? 0)); reflexivity.
Qed.

(** The prompt is built exactly when its values all have a text;
    otherwise a TypeError is raised. *)
Lemma build_prompt_cases resumeData jdData tone :
  if prompt_ready resumeData tone
  then exists prompt, prompt_of resumeData jdData tone = Done prompt
  else exists site v,
    prompt_of resumeData jdData tone = Failed (TypeErrorAt site v).
Proof.
  unfold prompt_of, build_prompt, prompt_ready.
  pose proof (string_of_cases "name" (prop resumeData "name")) as H1.
  destruct (printable (prop resumeData "name")); cbn [andb];
    [destruct H1 as [s1 ->]|rewrite H1; eexists; eexists; reflexivity].
  cbn [then_].
  pose proof (string_of_cases "email" (prop resumeData "email")) as H2.
  destruct (printable (prop resumeData "email")); cbn [andb];
    [destruct H2 as [s2 ->]|rewrite H2; eexists; eexists; reflexivity].
  cbn [then_].
  pose proof (string_of_cases "phone"
                (if is_truthy (prop resumeData "phone")
                 then prop resumeData "phone" else str "Not specified")) as H3.
  rewrite phone_printable in H3.
  destruct (printable (prop resumeData "phone")); cbn [andb];
    [destruct H3 as [s3 ->]|rewrite H3; eexists; eexists; reflexivity].
  cbn [then_].
  pose proof (join_of_cases "experience" (prop resumeData "experience") "; ")
    as H4.
  destruct (joinable (prop resumeData "experience")); cbn [andb];
    [destruct H4 as [s4 ->]|rewrite H4; eexists; eexists; reflexivity].
  cbn [then_].
  pose proof (join_of_cases "education" (prop resumeData "education") "; ")
    as H5.
  destruct (joinable (prop resumeData "education")); cbn [andb];
    [destruct H5 as [s5 ->]|rewrite H5; eexists; eexists; reflexivity].
  cbn [then_].
  pose proof (join_of_cases "skills" (prop resumeData "skills") ", ") as H6.
  destruct (joinable (prop resumeData "skills")); cbn [andb];
    [destruct H6 as [s6 ->]|rewrite H6; eexists; eexists; reflexivity].
  cbn [then_].
  pose proof (string_of_cases "tone" tone) as H7.
  destruct (printable tone);
    [destruct H7 as [s7 ->]|rewrite H7; eexists; eexists; reflexivity].
  cbn [then_]. eexists; reflexivity.
Qed.

Lemma cover_posts resumeData jdData tone :
  match prompt_of resumeData jdData tone with
  | Done prompt => fst (cover resumeData jdData tone) = [prompt]
  | Failed _ => fst (cover resumeData jdData tone) = []
  end.
Proof.
  unfold cover, generateCoverLetter, prompt_of.
  destruct (build_prompt number_to_string resumeData jdData tone) as [p|f];
    [|reflexivity].
  destruct (post p) as [data|resp msg]; [|reflexivity].
  destruct (is_truthy (candidate_text data)); reflexivity.
Qed.

Lemma call_analyze_string v :
  is_string v = true -> exists jd, call_analyze v = Ok jd.
Proof.
  destruct v; try discriminate. intros _. cbn [call_analyze].
  destruct (analyzeJobDescription_total s) as [c [r H]]. eauto.
Qed.

Lemma call_analyze_other v :
  is_string v = false -> call_analyze v = Throw TypeError.
Proof. destruct v; try discriminate; reflexivity. Qed.

Lemma handler_fst_of_cover resumeData jdData tone posted :
  fst (cover resumeData jdData tone) = posted ->
  fst (match cover resumeData jdData tone with
       | (posted, Failed f) =>
           (posted, generation_failed development number_to_string
                      type_error_text f)
       | (posted, Done coverLetter) =>
           (posted,
            Some (mkResponse 200
                    (VObj [("success", VBool true);
                           ("data", VObj [("coverLetter", coverLetter);
                                          ("generatedAt", VStr now)])]%string)))
       end) = posted.
Proof.
  destruct (cover resumeData jdData tone) as [p [c|f]]; exact (fun H => H).
Qed.

(** The checks of the handler, in its order, against the flat condition. *)
Lemma handler_reaches_model (body : list (string * JsValue)) :
  let resumeData := get_field body "resumeData" in
  let tone := match get_field body "tone" with
              | VUndefined => str "formal" | t => t end in
  (ready_to_generate key body = true ->
   exists jd prompt,
     call_analyze (get_field body "jobDescription") = Ok jd /\
     prompt_of resumeData jd tone = Done prompt /\
     handler body =
     match cover resumeData jd tone with
     | (posted, Failed f) =>
         (posted, generation_failed development number_to_string
                    type_error_text f)
     | (posted, Done coverLetter) =>
         (posted,
          Some (mkResponse 200
                  (VObj [("success", VBool true);
                         ("data", VObj [("coverLetter", coverLetter);
                                        ("generatedAt", VStr now)])]%string)))
     end) /\
  (ready_to_generate key body = false -> fst (handler body) = []).
Proof.
  cbv zeta. unfold ready_to_generate, handler, generate_handler. cbv zeta.
  destruct (is_truthy (get_field body "resumeData")); cbn [negb orb andb];
    [|split; [discriminate|reflexivity]].
  destruct (is_truthy (get_field body "jobDescription")); cbn [negb orb andb];
    [|split; [discriminate|reflexivity]].
  destruct (is_truthy (prop (get_field body "resumeData") "name"));
    cbn [negb orb andb]; [|split; [discriminate|reflexivity]].
  destruct (is_truthy (prop (get_field body "resumeData") "email"));
    cbn [negb orb andb]; [|split; [discriminate|reflexivity]].
  fold (key_set key).
  destruct (key_set key); cbn [negb andb]; [|split; [discriminate|reflexivity]].
  destruct (is_string (get_field body "jobDescription")) eqn:Es; cbn [andb].
  2:{ rewrite (call_analyze_other _ Es). split; [discriminate|reflexivity]. }
  destruct (call_analyze_string _ Es) as [jd ->].
  set (tone := match get_field body "tone" with
               | VUndefined => str "formal" | t => t end).
  assert (Et : prompt_ready (get_field body "resumeData")
                 (get_field body "tone") =
               prompt_ready (get_field body "resumeData") tone)
    by (subst tone; destruct (get_field body "tone"); reflexivity).
  rewrite Et.
  fold (cover (get_field body "resumeData") jd tone).
  pose proof (cover_posts (get_field body "resumeData") jd tone) as Hc.
  pose proof (build_prompt_cases (get_field body "resumeData") jd tone) as Hb.
  destruct (prompt_ready (get_field body "resumeData") tone).
  - destruct Hb as [p Hp]. split; [intros _|discriminate].
    exists jd, p. auto.
  - destruct Hb as [site [v Hp]]. rewrite Hp in Hc.
    split; [discriminate|intros _].
    apply handler_fst_of_cover. exact Hc.
Qed.

Lemma handler_posts (body : list (string * JsValue)) :
  (ready_to_generate key body = true ->
   exists prompt, fst (handler body) = [prompt]) /\
  (ready_to_generate key body = false -> fst (handler body) = []).
Proof.
  destruct (handler_reaches_model body) as [Hy Hn]. split; [|exact Hn].
  intros Hr. destruct (Hy Hr) as [jd [p [_ [Hp ->]]]]. exists p.
  apply handler_fst_of_cover.
  pose proof (cover_posts (get_field body "resumeData") jd
                (match get_field body "tone" with
                 | VUndefined => str "formal" | t => t end)) as Hc.
  rewrite Hp in Hc. exact Hc.
Qed.

(** The handler posts a prompt to the model exactly for the bodies that
    are ready, and then exactly one; for every other body nothing is
    posted. *)
Theorem generate_posts_iff_ready (body : list (string * JsValue)) :
  (ready_to_generate key body = true ->
   exists prompt, fst (handler body) = [prompt]) /\
  (ready_to_generate key body = false -> fst (handler body) = []).
Proof. exact (handler_posts body). Qed.

(** For a body that is ready, the answer follows what the model gave:
    status 200 with the text of the first part of the first candidate and
    the time of the answer when that text is truthy; status 500 when it
    is missing or empty. On a rejected request without an error body the
    status is 500; with one it is 400, unless the message of that error
    has no text, and then the handler sends no answer at all. *)
Theorem generate_answer_follows_model (body : list (string * JsValue)) :
  ready_to_generate key body = true ->
  exists prompt,
    fst (handler body) = [prompt] /\
    match post prompt with
    | PostOk data =>
        if is_truthy (candidate_text data)
        then snd (handler body) =
             Some (mkResponse 200
                     (VObj [("success", VBool true);
                            ("data", VObj [("coverLetter", candidate_text data);
                                           ("generatedAt", VStr now)])]%string))
        else exists r, snd (handler body) = Some r /\ status r = 500%nat
    | PostRejected response message =>
        let error := opt_prop (opt_prop response "data") "error" in
        if is_truthy error
        then if printable (prop error "message")
             then exists r, snd (handler body) = Some r /\ status r = 400%nat
             else snd (handler body) = None
        else exists r, snd (handler body) = Some r /\ status r = 500%nat
    end.
Proof.
  intros Hr. destruct (proj1 (handler_reaches_model body) Hr)
    as [jd [p [_ [Hp ->]]]].
  exists p. unfold cover, generateCoverLetter. unfold prompt_of in Hp.
  rewrite Hp. destruct (post p) as [data|response message].
  - destruct (is_truthy (candidate_text data)); cbn [fst snd];
      (split; [reflexivity|]); [reflexivity|].
    eexists. split; reflexivity.
  - cbn [fst snd]. split; [reflexivity|]. cbv zeta.
    unfold generation_failed. cbn [api_error].
    destruct (is_truthy (opt_prop (opt_prop response "data") "error"));
      [|eexists; split; reflexivity].
    pose proof (to_string_cases
                  (prop (opt_prop (opt_prop response "data") "error")
                     "message")) as Ht.
    unfold text_of in Ht.
    destruct (printable (prop (opt_prop (opt_prop response "data") "error")
                           "message")).
    + destruct Ht as [s ->]. eexists. split; reflexivity.
    + rewrite Ht. reflexivity.
Qed.

Lemma strings_printable l : forallb printable (map VStr l) = true.
Proof. induction l as [|x l IH]; [reflexivity|exact IH]. Qed.

(** A record returned by [extractResumeData] and sent on with a job
    description: without an email in the resume text the handler refuses
    it with status 400 "Incomplete resume" and posts nothing; with an
    email, and the key configured, it posts exactly one prompt. *)
Theorem extracted_record_needs_an_email (text jd : jsstring) (r : ResumeRecord) :
  extractResumeData text = Ok r -> jd <> [] ->
  (email r = [] ->
   handler (body_of r jd) =
   ([], Some (simple_error 400 "Incomplete resume"
                "Resume must include name and email"))) /\
  (email r <> [] -> key_set key = true ->
   exists prompt, fst (handler (body_of r jd)) = [prompt]).
Proof.
  intros Hr Hjd.
  pose proof (record_name_nonempty text r Hr) as Hname.
  apply truthy_nonempty in Hname. apply truthy_nonempty in Hjd.
  split.
  - intros He. unfold handler, generate_handler, body_of. cbv zeta.
    cbn [get_field String.eqb Ascii.eqb Bool.eqb resume_to_json prop is_truthy].
    rewrite Hname, Hjd, He. reflexivity.
  - intros He Hk. apply truthy_nonempty in He.
    apply handler_posts.
    unfold ready_to_generate, prompt_ready, joinable, body_of. cbv zeta.
    cbn [get_field String.eqb Ascii.eqb Bool.eqb resume_to_json prop is_truthy
         is_array is_string printable].
    rewrite Hname, Hjd, He, Hk, !strings_printable. reflexivity.
Qed.

(** Without the promo code the route posts nothing to the model and
    answers with a payment error of status 403 or 500, whatever the
    gateway says about the payment. *)
Theorem route_without_promo_never_generates
    (fetch : JsValue -> option (list (string * JsValue)))
    (body : list (string * JsValue)) :
  strict_eq_str (get_field body "promoCode") "070605" = false ->
  exists r,
    generate_route key development now post number_to_string type_error_text
      fetch body = ([], Some r) /\
    (status r = 403%nat \/ status r = 500%nat).
Proof.
  intros Hp. unfold generate_route.
  destruct (verifyPayment_without_promo fetch body Hp) as [r [Hr Hs]].
  rewrite Hr. exists r. auto.
Qed.

End GenerateFacts.

Lemma generate_posts_iff_ready_witness :
  exists prompt,
    fst (generate_handler (Some (u "k")) false [] (fun _ => PostOk model_answer)
           (fun _ => []) (fun _ _ => VUndefined)
           (body_of contact_record jd_example)) = [prompt].
Proof.
  apply (proj1 (generate_posts_iff_ready (Some (u "k")) false []
                  (fun _ => PostOk model_answer) (fun _ => [])
                  (fun _ _ => VUndefined)
                  (body_of contact_record jd_example))).
  vm_compute. reflexivity.
Defined.

Lemma generate_answer_follows_model_witness :
  snd (generate_handler (Some (u "k")) false []
         (fun _ => PostRejected rejection_without_text VUndefined)
         (fun _ => []) (fun _ _ => VUndefined)
         (body_of contact_record jd_example)) = None.
Proof.
  destruct (generate_answer_follows_model (Some (u "k")) false []
              (fun _ => PostRejected rejection_without_text VUndefined)
              (fun _ => []) (fun _ _ => VUndefined)
              (body_of contact_record jd_example) eq_refl)
    as [prompt [_ H]].
  exact H.
Defined.

Lemma extracted_record_needs_an_email_witness :
  exists prompt,
    fst (generate_handler (Some (u "k")) false [] (fun _ => PostOk model_answer)
           (fun _ => []) (fun _ _ => VUndefined)
           (body_of contact_record jd_example)) = [prompt].
Proof.
  apply (proj2 (extracted_record_needs_an_email (Some (u "k")) false []
                  (fun _ => PostOk model_answer) (fun _ => [])
                  (fun _ _ => VUndefined) contact_line jd_example
                  contact_record ltac:(vm_compute; reflexivity)
                  ltac:(discriminate))).
  - discriminate.
  - reflexivity.
Defined.

Lemma route_without_promo_never_generates_witness :
  exists r,
    generate_route (Some (u "k")) false [] (fun _ => PostOk model_answer)
      (fun _ => []) (fun _ _ => VUndefined)
      (fun _ => Some [("status"%string, str "captured")])
      (("paymentId"%string, str "pay_1") :: body_of contact_record jd_example)
    = ([], Some r) /\
    (status r = 403%nat \/ status r = 500%nat).
Proof.
  apply (route_without_promo_never_generates (Some (u "k")) false []
           (fun _ => PostOk model_answer) (fun _ => [])
           (fun _ _ => VUndefined)
           (fun _ => Some [("status"%string, str "captured")])
           (("paymentId"%string, str "pay_1")
              :: body_of contact_record jd_example)).
  reflexivity.
Defined.

(** * The second server *)

(** ** extractName *)

Lemma digit_match_at bef s :
  match_at Variant2.re_digit (mkState bef s []) =
  match s with
  | c :: tl => if is_digit c then Some (mkState (c :: bef) tl []) else None
  | [] => None
  end.
Proof.
  unfold match_at, Variant2.re_digit. cbn [pattern ignoreCase m rest].
  destruct s as [|c tl]; [reflexivity|].
  unfold class_mem. cbn [existsb item_mem andb orb xorb].
  rewrite !orb_false_r. reflexivity.
Qed.

Lemma digit_match s :
  str_match s Variant2.re_digit = None <-> Forall (fun c => is_digit c = false) s.
Proof.
  unfold str_match. split.
  - intros H. apply Forall_forall. intros c Hc.
    apply in_split in Hc. destruct Hc as [p1 [p2 ->]].
    pose proof (scan_none_inv _ _ _ H p1 (c :: p2) eq_refl) as Hm.
    rewrite digit_match_at in Hm.
    destruct (is_digit c); [discriminate|reflexivity].
  - intros H. apply scan_none. intros p1 p2 ->.
    rewrite digit_match_at. destruct p2 as [|c tl]; [reflexivity|].
    rewrite Forall_forall in H.
    rewrite (H c) by (apply in_or_app; right; left; reflexivity).
    reflexivity.
Qed.

Lemma split_on_cons c s : exists piece more, split_on c s = piece :: more.
Proof.
  induction s as [|a s [piece [more IH]]]; cbn [split_on]; [eauto|].
  destruct (a =? c); [eauto|]. rewrite IH. eauto.
Qed.

Lemma split_on_two c s :
  Nat.leb 2 (length (split_on c s)) = true <-> In c s.
Proof.
  induction s as [|a s IH]; cbn [split_on].
  - split; [discriminate|intros []].
  - destruct (a =? c) eqn:E.
    + apply N.eqb_eq in E. subst a. split; [intros _; left; reflexivity|].
      intros _. destruct (split_on_cons c s) as [piece [more ->]]. reflexivity.
    + apply N.eqb_neq in E.
      destruct (split_on_cons c s) as [piece [more Hs]]. rewrite Hs in *.
      cbn [length] in *. rewrite IH. split; [right; assumption|].
      intros [H|H]; [contradiction|exact H].
Qed.

Lemma name_like_spec t :
  Variant2.name_like t = true <-> looks_like_name t.
Proof.
  unfold Variant2.name_like, looks_like_name.
  rewrite !andb_true_iff, truthy_nonempty, split_on_two, negb_true_iff.
  assert (Hd : match str_match t Variant2.re_digit with
               | Some _ => true
               | None => false
               end = false <-> forall c, In c t -> is_digit c = false).
  { rewrite <- Forall_forall, <- digit_match.
    destruct (str_match t Variant2.re_digit); split; congruence. }
  rewrite Hd. tauto.
Qed.

Lemma first_name_like_cases lines :
  (exists earlier line later,
     lines = earlier ++ line :: later /\
     Forall (fun l => ~ looks_like_name (trim l)) earlier /\
     looks_like_name (trim line) /\
     Variant2.first_name_like lines = trim line) \/
  (Forall (fun l => ~ looks_like_name (trim l)) lines /\
   Variant2.first_name_like lines = u "Your Name").
Proof.
  induction lines as [|l lines IH]; [right; split; [constructor|reflexivity]|].
  cbn [Variant2.first_name_like].
  destruct (Variant2.name_like (trim l)) eqn:E.
  - left. exists [], l, lines. apply name_like_spec in E.
    repeat split; try apply E. constructor.
  - assert (Hl : ~ looks_like_name (trim l)).
    { intros H. apply name_like_spec in H. congruence. }
    destruct IH as [[earlier [line [later [-> [He [Hn Hr]]]]]]|[Ha Hr]].
    + left. exists (l :: earlier), line, later. repeat split; try apply Hn.
      * constructor; assumption.
      * exact Hr.
    + right. split; [constructor; assumption|exact Hr].
Qed.

(** The name is the trimmed first line that, trimmed, is not empty,
    holds a space and holds no digit; when the text has no such line,
    and so on every blank text, it is "Your Name". *)
Theorem extractName_is_first_name_like_line (text : jsstring) :
  (exists earlier line later,
     split_on NL text = earlier ++ line :: later /\
     Forall (fun l => ~ looks_like_name (trim l)) earlier /\
     looks_like_name (trim line) /\
     Variant2.extractName text = trim line) \/
  (Forall (fun l => ~ looks_like_name (trim l)) (split_on NL text) /\
   Variant2.extractName text = u "Your Name").
Proof. exact (first_name_like_cases (split_on NL text)). Qed.

(** Whatever the text, the name is not empty, has no white space at its
    ends, holds a space and holds no digit: the fallback passes the test
    of the lines as well. *)
Theorem extractName_always_looks_like_a_name (text : jsstring) :
  looks_like_name (Variant2.extractName text) /\
  trimmed (Variant2.extractName text).
Proof.
  unfold Variant2.extractName.
  destruct (first_name_like_cases (split_on NL text))
    as [[earlier [line [later [_ [_ [Hn ->]]]]]]|[_ ->]].
  - split; [exact Hn|apply trim_trimmed].
  - split.
    + apply name_like_spec. vm_compute. reflexivity.
    + apply trimmed_literal; reflexivity.
Qed.

(** ** Captures stay through the rest of a pattern *)

Lemma defined_set_cap n n' s y : defined n y -> defined n (set_cap n' s y).
Proof.
  intros [t H]. unfold defined, set_cap. cbn [caps cap_get].
  destruct (Nat.eqb n' n); eauto.
Qed.

Lemma caps_advance x : caps (advance x) = caps x.
Proof. unfold advance. destruct (rest x); reflexivity. Qed.

Lemma defined_advance n x : defined n x -> defined n (advance x).
Proof. unfold defined. rewrite caps_advance. exact (fun H => H). Qed.

Lemma rep_keeps mr : keeps mr ->
  forall fuel min max greedy, keeps (rep mr fuel min max greedy).
Proof.
  intros Hm fuel. induction fuel as [|f IH]; intros min max greedy x k z H.
  - discriminate.
  - simpl in H. destruct (max_is_zero max).
    + exists x. split; [apply reach_refl|]. split; [auto|exact H].
    + assert (Hd : forall z,
        mr x (fun y => if Nat.eqb min 0 && Nat.eqb (remaining y) (remaining x)
                       then None
                       else rep mr f (Nat.pred min) (max_pred max) greedy y k)
          = Some z ->
        exists y, reach x y /\ (forall n, defined n x -> defined n y) /\
                  k y = Some z).
      { intros z' H'. apply Hm in H'. destruct H' as [y [Hxy [Hc Hy]]].
        destruct (Nat.eqb min 0 && Nat.eqb (remaining y) (remaining x));
          [discriminate|].
        apply IH in Hy. destruct Hy as [y' [Hyy' [Hc' Hk]]].
        exists y'. split; [eapply reach_trans; eauto|]. split; [auto|exact Hk]. }
      destruct (negb (Nat.eqb min 0)); [auto|].
      destruct greedy; apply or_else_some in H;
        destruct H as [H | [_ H]]; auto;
        exists x; (split; [apply reach_refl|]); (split; [auto|exact H]).
Qed.

Lemma m_keeps ic r : keeps (m ic r).
Proof.
  induction r; intros x k z H; simpl in H.
  - exists x. split; [apply reach_refl|]. split; [auto|exact H].
  - destruct (rest x) as [|c' tl] eqn:E; [discriminate|].
    destruct (char_match ic c c'); [|discriminate].
    exists (advance x). split; [eapply reach_advance; eauto|].
    split; [intros n; apply defined_advance|exact H].
  - destruct (rest x) as [|c tl] eqn:E; [discriminate|].
    destruct (xorb neg (class_mem ic items c)); [|discriminate].
    exists (advance x). split; [eapply reach_advance; eauto|].
    split; [intros n; apply defined_advance|exact H].
  - apply IHr1 in H. destruct H as [y [Hxy [Hc H]]].
    apply IHr2 in H. destruct H as [y' [Hyy' [Hc' H]]].
    exists y'. split; [eapply reach_trans; eauto|]. split; [auto|exact H].
  - apply or_else_some in H. destruct H as [H | [_ H]]; auto.
  - apply IHr in H. destruct H as [y [Hxy [Hc H]]].
    exists (set_cap n (taken x y) y). split.
    + unfold set_cap. apply reach_same_pos. exact Hxy.
    + split; [|exact H]. intros n' Hd. apply defined_set_cap. auto.
  - eapply rep_keeps; eauto.
  - destruct (m ic r x Some) as [y|] eqn:E; [|discriminate].
    exists (mkState (before x) (rest x) (caps y)). split; [exists []; simpl; auto|].
    split; [|exact H]. intros n Hd.
    apply IHr in E. destruct E as [y' [_ [Hc Hy]]]. injection Hy as ->.
    exact (Hc n Hd).
  - destruct (xorb _ _); [|discriminate].
    exists x. split; [apply reach_refl|]. split; [auto|exact H].
  - destruct (rest x); [|discriminate].
    exists x. split; [apply reach_refl|]. split; [auto|exact H].
Qed.

(** A capture group followed by more of the pattern has a value whenever
    the pattern matches. *)
Lemma inner_group_set ic r1 r2 g t x z :
  m ic (RSeq r1 (RSeq r2 (RSeq (RGroup 1 g) t))) x Some = Some z ->
  defined 1 z.
Proof.
  cbn [m]. intros H.
  apply m_forward in H. destruct H as [y1 [_ H]].
  apply m_forward in H. destruct H as [y2 [_ H]].
  apply m_forward in H. destruct H as [y3 [_ H]].
  apply m_keeps in H. destruct H as [y4 [_ [Hc H]]]. injection H as <-.
  apply Hc. exists (taken y2 y3). cbn [set_cap caps cap_get Nat.eqb].
  reflexivity.
Qed.

Lemma inner_group_defined text re res r1 r2 g t :
  pattern re = RSeq r1 (RSeq r2 (RSeq (RGroup 1 g) t)) ->
  str_match text re = Some res ->
  exists s, cap_get 1 (groups res) = Some s.
Proof.
  intros Hp H. apply scan_result in H.
  destruct H as [bef [s [y [Hm ->]]]]. unfold match_at in Hm.
  rewrite Hp in Hm. cbn [groups]. exact (inner_group_set _ _ _ _ _ _ _ Hm).
Qed.

(** ** extractSection *)

Lemma sectionRegex_shape section :
  pattern (Variant2.sectionRegex section) =
  RSeq (lit section)
    (RSeq (plus (RClass false [CEsc EscS; CChar (ch ":")]))
       (RSeq (RGroup 1 (plus_lazy any_char))
          (RAlt (seq [RChar NL; RChar NL]) REnd))).
Proof. reflexivity. Qed.

Lemma extractSection_total text section :
  exists s, Variant2.extractSection text section = Ok s.
Proof.
  unfold Variant2.extractSection.
  destruct (str_match text (Variant2.sectionRegex section)) as [res|] eqn:E;
    [|eauto].
  destruct (inner_group_defined _ _ _ _ _ _ _ (sectionRegex_shape section) E)
    as [s ->].
  cbn [trim_of]. eauto.
Qed.

Lemma sectionRegex_absent text section :
  occurs_ci (u section) text = false ->
  str_match text (Variant2.sectionRegex section) = None.
Proof.
  intros H. unfold str_match. apply scan_none. intros p1 p2 ->.
  unfold match_at. rewrite sectionRegex_shape.
  cbn [Variant2.sectionRegex ignoreCase]. cbn [m]. unfold lit.
  assert (Hl : u section <> []).
  { intros E. rewrite E in H. destruct (p1 ++ p2); discriminate H. }
  rewrite (m_lit true (u section) _ _ Hl). cbn [rest].
  rewrite (occurs_ci_false _ _ _ H). reflexivity.
Qed.

(** [[\s:]] accepts the same characters with and without [i]. *)
Lemma gap_class c :
  class_mem true [CEsc EscS; CChar (ch ":")] c = is_gap c.
Proof.
  unfold class_mem, existsb, item_mem, esc_mem, is_gap. rewrite orb_false_r.
  cbn [andb].
  destruct (is_space c) eqn:E; [reflexivity|]. cbn [orb].
  change (ch ":") with 58.
  destruct (N.eqb_spec 58 c) as [Ec|Ec]; [apply orb_true_r|].
  destruct (canon_cases c) as [[Hl ->]|[_ ->]];
    destruct (to_lower_cases c) as [[Hu ->]|[_ ->]];
    try apply is_lower_range in Hl; try apply is_upper_range in Hu;
    rewrite ?E, ?letter_not_space by lia; cbn [orb];
    repeat match goal with
           | |- context [N.eqb ?a ?b] =>
               destruct (N.eqb_spec a b); [exfalso; lia|]
           end; reflexivity.
Qed.

(** The end of a section: the blank line or the end of the text. *)
Lemma section_stop_fails y :
  stops (rest y) = false ->
  m true (RAlt (seq [RChar NL; RChar NL]) REnd) y Some = None.
Proof.
  intros H. cbn [seq m].
  destruct (rest y) as [|a [|b tl]] eqn:Ey; [discriminate| |].
  - rewrite char_match_plain by (unfold NL; lia).
    destruct (NL =? a); cbn [or_else].
    + rewrite (advance_cons y a [] Ey). reflexivity.
    + reflexivity.
  - cbn [stops] in H. rewrite char_match_plain by (unfold NL; lia).
    destruct (NL =? a); cbn [andb or_else] in *; [|reflexivity].
    rewrite (advance_cons y a (b :: tl) Ey). cbn [rest].
    rewrite char_match_plain by (unfold NL; lia). rewrite H. reflexivity.
Qed.

Lemma section_stop_holds y :
  stops (rest y) = true ->
  exists z, m true (RAlt (seq [RChar NL; RChar NL]) REnd) y Some = Some z /\
            caps z = caps y.
Proof.
  intros H. cbn [seq m].
  destruct (rest y) as [|a [|b tl]] eqn:Ey; [| discriminate |].
  - exists y. split; reflexivity.
  - cbn [stops] in H. apply andb_true_iff in H. destruct H as [Ha Hb].
    rewrite char_match_plain by (unfold NL; lia). rewrite Ha.
    rewrite (advance_cons y a (b :: tl) Ey). cbn [rest].
    rewrite char_match_plain by (unfold NL; lia). rewrite Hb.
    cbn [or_else]. eexists. split; [reflexivity|].
    unfold advance. cbn [rest caps]. reflexivity.
Qed.

(** From the section word on, the pattern takes the word, the run of
    white space and colons, and the body up to the first place where the
    text stops. *)
Lemma section_found_at x section w gap body tail :
  rest x = w ++ gap ++ body ++ tail ->
  u section <> [] -> same_ci w (u section) ->
  gap <> [] -> Forall (fun c => is_gap c = true) gap ->
  (exists c b, body = c :: b /\ is_gap c = false) ->
  (forall b1 c b2, body = b1 ++ c :: b2 -> b1 <> [] ->
     stops (c :: b2 ++ tail) = false) ->
  stops tail = true ->
  exists y, match_at (Variant2.sectionRegex section) x = Some y /\
            caps y = (1%nat, body) :: caps x.
Proof.
  intros Hx Hne Hw Hgne Hgap [c0 [b0 [Hbody Hc0]]] Hin Hstop.
  unfold match_at. rewrite sectionRegex_shape.
  cbn [Variant2.sectionRegex ignoreCase]. cbn [m]. unfold lit.
  rewrite (m_lit true (u section) _ _ Hne), Hx, (lit_at_same_ci _ w _ Hw).
  rewrite <- (same_ci_length _ _ Hw).
  set (y1 := skip (length w) x).
  assert (Hy1 : rest y1 = gap ++ body ++ tail)
    by (eapply skip_rest_tail; eauto).
  assert (Hc1 : caps y1 = caps x)
    by (unfold y1; rewrite (skip_rest _ _ _ _ Hx eq_refl); reflexivity).
  unfold plus.
  rewrite (greedy_run true _ _ (one_char_class true false _) _ y1 _ _ Hy1).
  rewrite run_len_app.
  2:{ eapply Forall_impl; [|exact Hgap]. intros c Hc. cbv beta.
      rewrite gap_class, Hc. reflexivity. }
  2:{ right. exists c0, (b0 ++ tail). rewrite Hbody. split; [reflexivity|].
      cbv beta. rewrite gap_class, Hc0. reflexivity. }
  set (y2 := skip (length gap) y1).
  assert (Hy2 : rest y2 = body ++ tail)
    by (eapply skip_rest_tail; eauto).
  assert (Hc2 : caps y2 = caps x).
  { unfold y2. rewrite (skip_rest _ _ _ _ Hy1 eq_refl). exact Hc1. }
  set (k2 := fun y => m true (plus_lazy any_char) y
                        (fun y' => m true (RAlt (RSeq (RChar NL) (RChar NL)) REnd)
                                     (set_cap 1 (taken y y') y') Some)).
  assert (Hk2 : exists z, k2 y2 = Some z /\ caps z = (1%nat, body) :: caps x).
  { unfold k2, plus_lazy, any_char.
    rewrite (lazy_run true _ _ (one_char_class true true []) _ y2 _ _ eq_refl).
    rewrite run_len_all by reflexivity.
    set (y3 := set_cap 1 body (skip (length body) y2)).
    assert (Hy3 : rest y3 = tail).
    { unfold y3. cbn [set_cap rest]. eapply skip_rest_tail; eauto. }
    destruct (section_stop_holds y3) as [z [Hz Hcz]].
    { rewrite Hy3. exact Hstop. }
    exists z. split.
    - apply (try_up_first _ _ _ _ (length body)).
      + rewrite Hy2, length_app. rewrite Hbody. cbn [length]. lia.
      + intros j Hj.
        assert (Hs : body = firstn j body ++ skipn j body)
          by (symmetry; apply firstn_skipn).
        destruct (skipn j body) as [|c s2] eqn:Es.
        { apply (f_equal (@length _)) in Es. rewrite length_skipn in Es.
          simpl in Es. lia. }
        assert (Hyj : rest y2 = firstn j body ++ (c :: s2 ++ tail)).
        { rewrite Hy2. rewrite Hs at 1. rewrite <- app_assoc. reflexivity. }
        apply section_stop_fails. cbn [set_cap rest].
        rewrite (skip_rest_tail j y2 _ _ Hyj)
          by (apply firstn_length_le; lia).
        apply (Hin (firstn j body) c s2 Hs).
        intros E. apply (f_equal (@length _)) in E.
        rewrite firstn_length_le in E by lia. simpl in E. lia.
      + rewrite (reach_taken y2 (skip (length body) y2) body).
        * exact Hz.
        * rewrite (skip_rest_tail _ _ _ _ Hy2 eq_refl). exact Hy2.
    - rewrite Hcz. unfold y3. cbn [set_cap caps].
      rewrite (skip_rest _ _ _ _ Hy2 eq_refl). cbn [caps]. rewrite Hc2.
      reflexivity. }
  destruct Hk2 as [z [Hz Hcz]]. exists z. split; [|exact Hcz].
  apply try_down_some. exists (length gap). split; [|split].
  - destruct gap; [contradiction|]. cbn [length]. lia.
  - exact Hz.
  - intros j' Hj'. lia.
Qed.

(** A text in which the section word occurs in no letter case has no
    such section: the answer is the word with " section not detected". *)
Theorem extractSection_without_the_word (text : jsstring) (section : string) :
  plain_word section = true ->
  occurs_ci (u section) text = false ->
  Variant2.extractSection text section =
  Ok (u section ++ u " section not detected").
Proof.
  intros _ H. unfold Variant2.extractSection.
  rewrite (sectionRegex_absent text section H). reflexivity.
Qed.

Lemma extractSection_without_the_word_witness :
  Variant2.extractSection (u "Jane Roe") "education" =
  Ok (u "education section not detected").
Proof.
  apply (extractSection_without_the_word (u "Jane Roe") "education");
    reflexivity.
Defined.

(** The section is what stands between the first occurrence of the
    section word, with the white space and colons after it, and the first
    blank line or the end of the text, trimmed. *)
Theorem extractSection_up_to_blank_line (section : string)
    (pre w gap body tail : jsstring) :
  plain_word section = true ->
  u section <> [] ->
  same_ci w (u section) ->
  (forall p1 c p2, pre = p1 ++ c :: p2 ->
     lit_at true (u section) (c :: p2 ++ w ++ gap ++ body ++ tail) = false) ->
  gap <> [] -> Forall (fun c => is_gap c = true) gap ->
  (exists c b, body = c :: b /\ is_gap c = false) ->
  (forall b1 c b2, body = b1 ++ c :: b2 -> b1 <> [] ->
     stops (c :: b2 ++ tail) = false) ->
  stops tail = true ->
  Variant2.extractSection (pre ++ w ++ gap ++ body ++ tail) section =
  Ok (trim body).
Proof.
  intros _ Hne Hw Hpre Hgne Hgap Hbody Hin Hstop.
  unfold Variant2.extractSection, str_match.
  rewrite scan_skip.
  - destruct (section_found_at
                (mkState (rev pre ++ []) (w ++ gap ++ body ++ tail) [])
                section w gap body tail eq_refl Hne Hw Hgne Hgap Hbody Hin
                Hstop) as [y [Hm Hc]].
    rewrite (scan_here _ _ _ y Hm). cbn [groups]. rewrite Hc.
    cbn [caps cap_get Nat.eqb trim_of]. reflexivity.
  - intros p1 c p2 E. unfold match_at. rewrite sectionRegex_shape.
    cbn [Variant2.sectionRegex ignoreCase]. cbn [m]. unfold lit.
    rewrite (m_lit true (u section) _ _ Hne). cbn [rest].
    rewrite (Hpre p1 c p2 E). reflexivity.
Qed.

Lemma word_not_before_ok l s : forall pre,
  word_not_before l pre s = true ->
  forall p1 c p2, pre = p1 ++ c :: p2 ->
    lit_at true l (c :: p2 ++ s) = false.
Proof.
  induction pre as [|a pre IH]; intros H p1 c p2 E.
  - destruct p1; discriminate.
  - cbn [word_not_before] in H. apply andb_true_iff in H.
    destruct H as [Ha Hp]. apply negb_true_iff in Ha.
    destruct p1 as [|b p1]; cbn [app] in E; injection E as -> ->.
    + exact Ha.
    + exact (IH Hp p1 c p2 eq_refl).
Qed.

Lemma never_stops_ok tail : forall s,
  never_stops s tail = true ->
  forall b1 c b2, s = b1 ++ c :: b2 -> stops (c :: b2 ++ tail) = false.
Proof.
  induction s as [|a s IH]; intros H b1 c b2 E.
  - destruct b1; discriminate.
  - cbn [never_stops] in H. apply andb_true_iff in H.
    destruct H as [Ha Hs]. apply negb_true_iff in Ha.
    destruct b1 as [|b b1]; cbn [app] in E; injection E as -> ->.
    + exact Ha.
    + exact (IH Hs b1 c b2 eq_refl).
Qed.

Lemma extractSection_up_to_blank_line_witness :
  Variant2.extractSection resume_with_education "education" =
  Ok (u "B.S. Computer Science, MIT" ++ [NL] ++ u "2015").
Proof.
  apply (extractSection_up_to_blank_line "education"
           (u "Jane Roe" ++ [NL]) (u "EDUCATION") (u ":" ++ [NL])
           (u "B.S. Computer Science, MIT" ++ [NL] ++ u "2015")
           ([NL; NL] ++ u "Hobbies: chess")).
  - reflexivity.
  - discriminate.
  - reflexivity.
  - apply word_not_before_ok. vm_compute. reflexivity.
  - discriminate.
  - repeat constructor.
  - eexists. eexists. split; reflexivity.
  - intros b1 c b2 E Hb. destruct b1 as [|b b1]; [contradiction|].
    cbn [app] in E. injection E as _ E.
    revert E. apply never_stops_ok. vm_compute. reflexivity.
  - reflexivity.
Defined.

(** ** The points of a requirement line *)

Lemma bullet_match_at bef s :
  match_at Variant2.re_bullet (mkState bef s []) =
  match s with
  | c :: tl => if is_bullet c then Some (mkState (c :: bef) tl []) else None
  | [] => None
  end.
Proof.
  unfold match_at, Variant2.re_bullet. cbn [pattern ignoreCase m rest].
  destruct s as [|c tl]; [reflexivity|].
  unfold class_mem, is_bullet. cbn [existsb item_mem andb orb xorb].
  rewrite !orb_false_r. reflexivity.
Qed.

Lemma split_when_cons p s : exists piece more, split_when p s = piece :: more.
Proof.
  induction s as [|a s [piece [more IH]]]; cbn [split_when]; [eauto|].
  destruct (p a); [eauto|]. rewrite IH. eauto.
Qed.

(** Splitting at the hyphens and bullets gives the pieces between them. *)
Lemma split_loop_bullet : forall f bef piece s,
  (length s < f)%nat ->
  split_loop f Variant2.re_bullet bef piece s =
  match split_when is_bullet s with
  | p :: more => (rev piece ++ p) :: more
  | [] => [rev piece]
  end.
Proof.
  induction f as [|f IH]; intros bef piece s Hf; [lia|].
  cbn [split_loop]. destruct s as [|c s].
  { cbn [split_when]. rewrite app_nil_r. reflexivity. }
  cbn [length] in Hf. rewrite bullet_match_at. cbn [split_when].
  destruct (is_bullet c).
  - unfold remaining. cbn [rest length before].
    replace (Nat.eqb (length s) (S (length s))) with false
      by (symmetry; apply Nat.eqb_neq; lia).
    cbn [andb]. rewrite IH by lia. rewrite app_nil_r.
    destruct (split_when_cons is_bullet s) as [p [more ->]]. reflexivity.
  - rewrite IH by lia.
    destruct (split_when_cons is_bullet s) as [p [more ->]].
    cbn [rev]. rewrite <- app_assoc. reflexivity.
Qed.

Lemma split_re_bullet line :
  split_re line Variant2.re_bullet = split_when is_bullet line.
Proof.
  unfold split_re. destruct line as [|c line].
  - rewrite bullet_match_at. reflexivity.
  - rewrite split_loop_bullet by lia.
    destruct (split_when_cons is_bullet (c :: line)) as [p [more ->]].
    reflexivity.
Qed.

Lemma split_when_none p s :
  (forall c, In c s -> p c = false) -> split_when p s = [s].
Proof.
  induction s as [|a s IH]; intros H; [reflexivity|].
  cbn [split_when]. rewrite (H a) by (left; reflexivity).
  rewrite IH by (intros c Hc; apply H; right; exact Hc). reflexivity.
Qed.

(** A piece after the first stands between two separators, or between a
    separator and the end, and holds no separator. *)
Lemma split_when_later p : forall s piece,
  In piece (skipn 1 (split_when p s)) ->
  exists pre c post,
    s = pre ++ c :: piece ++ post /\ p c = true /\
    (forall a, In a piece -> p a = false) /\
    (post = [] \/ exists c' t, post = c' :: t /\ p c' = true).
Proof.
  assert (Hfirst : forall s, exists first more,
            split_when p s = first :: more /\
            (forall a, In a first -> p a = false) /\
            ((more = [] /\ s = first) \/
             exists c' t, s = first ++ c' :: t /\ p c' = true /\
                          more = split_when p t)).
  { induction s as [|a s [first [more [E [Hf Hm]]]]].
    - exists [], []. split; [reflexivity|]. split; [intros a []|auto].
    - cbn [split_when]. destruct (p a) eqn:Ea.
      + exists [], (split_when p s). split; [reflexivity|].
        split; [intros b []|]. right. exists a, s. auto.
      + rewrite E. exists (a :: first), more. split; [reflexivity|]. split.
        * intros b [<-|Hb]; [exact Ea|exact (Hf b Hb)].
        * destruct Hm as [[-> ->]|[c' [t [-> [Hc ->]]]]]; [left; auto|].
          right. exists c', t. auto. }
  induction s as [|a s IH]; intros piece Hin; [destruct Hin|].
  cbn [split_when] in Hin. destruct (p a) eqn:Ea.
  - cbn [skipn] in Hin.
    destruct (Hfirst s) as [first [more [E [Hf Hm]]]]. rewrite E in Hin.
    destruct Hin as [<-|Hin].
    + exists [], a. destruct Hm as [[-> ->]|[c' [t [-> [Hc ->]]]]].
      * exists []. rewrite app_nil_r. auto.
      * exists (c' :: t). split; [reflexivity|]. split; [exact Ea|].
        split; [exact Hf|]. right. eauto.
    + assert (Hin' : In piece (skipn 1 (split_when p s)))
        by (rewrite E; exact Hin).
      destruct (IH piece Hin') as [pre [c [post [-> H]]]].
      exists (a :: pre), c, post. split; [reflexivity|exact H].
  - destruct (split_when_cons p s) as [first [more E]]. rewrite E in Hin.
    cbn [skipn] in Hin.
    assert (Hin' : In piece (skipn 1 (split_when p s)))
      by (rewrite E; exact Hin).
    destruct (IH piece Hin') as [pre [c [post [-> H]]]].
    exists (a :: pre), c, post. split; [reflexivity|exact H].
Qed.

Lemma split_when_first p piece post :
  (forall a, In a piece -> p a = false) ->
  (post = [] \/ exists c' t, post = c' :: t /\ p c' = true) ->
  exists more, split_when p (piece ++ post) = piece :: more.
Proof.
  intros Hp Hpost. induction piece as [|a piece IH]; cbn [app].
  - destruct Hpost as [->|[c' [t [-> Hc]]]]; cbn [split_when]; [eauto|].
    rewrite Hc. eauto.
  - cbn [split_when]. rewrite (Hp a) by (left; reflexivity).
    destruct IH as [more ->]; [intros b Hb; apply Hp; right; exact Hb|].
    eauto.
Qed.

Lemma in_skipn_1 {A} (x : A) l : In x (skipn 1 l) -> In x l.
Proof. destruct l; [exact (fun H => H)|]. cbn [skipn]. right. assumption. Qed.

Lemma split_when_piece p piece post c : forall pre,
  p c = true ->
  (forall a, In a piece -> p a = false) ->
  (post = [] \/ exists c' t, post = c' :: t /\ p c' = true) ->
  In piece (skipn 1 (split_when p (pre ++ c :: piece ++ post))).
Proof.
  intros pre Hc Hp Hpost. induction pre as [|a pre IH]; cbn [app split_when].
  - rewrite Hc. cbn [skipn].
    destruct (split_when_first p piece post Hp Hpost) as [more ->].
    left. reflexivity.
  - destruct (p a).
    + cbn [skipn]. apply in_skipn_1. exact IH.
    + destruct (split_when_cons p (pre ++ c :: piece ++ post))
        as [first [more E]].
      rewrite E in *. exact IH.
Qed.

Lemma points_spec line e :
  In e (Variant2.points line) <-> point_of line e.
Proof.
  unfold Variant2.points, point_of. rewrite split_re_bullet, filter_In,
    in_map_iff, truthy_nonempty.
  split.
  - intros [[piece [<- Hin]] Hne].
    destruct (split_when_later _ _ _ Hin) as [pre [c [post [-> [Hc [Hp Hq]]]]]].
    exists pre, c, piece, post. auto 6.
  - intros [pre [c [piece [post [-> [Hc [Hp [Hq [-> Hne]]]]]]]]].
    split; [|exact Hne]. exists piece. split; [reflexivity|].
    apply split_when_piece; assumption.
Qed.

Lemma company_v2_shape :
  pattern Variant2.re_company =
  RSeq (RAlt (lit "at") (lit "from"))
    (RSeq (plus (esc EscS))
       (RSeq (RGroup 1 (seq [RClass false [CRange (ch "A") (ch "Z")];
                             plus (RClass false Variant2.company_class)]))
          (RAlt (esc EscS) REnd))).
Proof. reflexivity. Qed.

Lemma role_v2_shape :
  pattern Variant2.re_role =
  RSeq (RAlt (lit "looking for") (RAlt (lit "seeking") (lit "position of")))
    (RSeq (plus (esc EscS))
       (RSeq (RGroup 1 (plus (RClass false [CRange (ch "a") (ch "z");
                                            CRange (ch "A") (ch "Z");
                                            CEsc EscS])))
          (RAlt (seq [esc EscS; RChar (ch "t"); RChar (ch "o")]) REnd))).
Proof. reflexivity. Qed.

Lemma group1_or_inner text re fallback r1 r2 g t :
  pattern re = RSeq r1 (RSeq r2 (RSeq (RGroup 1 g) t)) ->
  exists s, group1_or (str_match text re) fallback = Ok s.
Proof.
  intros Hp. destruct (str_match text re) as [res|] eqn:E; cbn [group1_or];
    [|eauto].
  destruct (inner_group_defined _ _ _ _ _ _ _ Hp E) as [s ->].
  cbn [trim_of]. eauto.
Qed.

Lemma job_analysis_fields toLowerCase jd :
  exists company role,
    Variant2.analyzeJobDescription toLowerCase jd =
    Ok (mkJob company role
          (or_placeholder
             (flat_map Variant2.points
                (filter (Variant2.mentions_requirement toLowerCase)
                   (split_on NL jd)))
             "Key requirements not explicitly listed")).
Proof.
  unfold Variant2.analyzeJobDescription. cbv zeta.
  destruct (group1_or_inner jd Variant2.re_company "Company Name Not Found"
              _ _ _ _ company_v2_shape) as [c ->].
  destruct (group1_or_inner jd Variant2.re_role "Job Role Not Found"
              _ _ _ _ role_v2_shape) as [r ->].
  cbn [bind]. eauto.
Qed.

(** The job analysis of the second server returns on every text. Its
    requirements are never empty: they are the points of the lines that
    mention a requirement, each the trimmed text after a hyphen or
    bullet, or else the one placeholder. A text without hyphen and
    bullet has no points, whatever it says. *)
Theorem requirements_are_points_after_bullets
    (toLowerCase : jsstring -> jsstring) (jd : jsstring) :
  exists r,
    Variant2.analyzeJobDescription toLowerCase jd = Ok r /\
    requirements r <> [] /\
    (forall line e,
       In line (split_on NL jd) ->
       Variant2.mentions_requirement toLowerCase line = true ->
       point_of line e -> In e (requirements r)) /\
    (requirements r = [u "Key requirements not explicitly listed"] \/
     Forall (fun e => exists line,
               In line (split_on NL jd) /\
               Variant2.mentions_requirement toLowerCase line = true /\
               point_of line e) (requirements r)) /\
    ((forall c, In c jd -> is_bullet c = false) ->
     requirements r = [u "Key requirements not explicitly listed"]).
Proof.
  destruct (job_analysis_fields toLowerCase jd) as [company [role H]].
  eexists. split; [exact H|]. cbn [requirements].
  set (reqs := flat_map Variant2.points
                 (filter (Variant2.mentions_requirement toLowerCase)
                    (split_on NL jd))).
  assert (Hin : forall e, In e reqs <->
            exists line, In line (split_on NL jd) /\
              Variant2.mentions_requirement toLowerCase line = true /\
              point_of line e).
  { intros e. unfold reqs. rewrite in_flat_map. split.
    - intros [line [Hl He]]. apply filter_In in Hl. apply points_spec in He.
      exists line. tauto.
    - intros [line [Hl [Hm He]]]. exists line. split.
      + apply filter_In. auto.
      + apply points_spec. exact He. }
  split; [|split; [|split]].
  - destruct reqs; discriminate.
  - intros line e Hl Hm He.
    assert (Hr : In e reqs) by (apply Hin; eauto).
    destruct reqs; [destruct Hr|exact Hr].
  - destruct reqs as [|e0 es] eqn:E; [left; reflexivity|right].
    cbn [or_placeholder]. apply Forall_forall. intros e He. apply Hin.
    exact He.
  - intros Hnb. destruct reqs as [|e0 es] eqn:E; [reflexivity|exfalso].
    destruct (proj1 (Hin e0) ltac:(left; reflexivity))
      as [line [Hl [_ [pre [c [piece [post [-> [Hc _]]]]]]]]].
    assert (Hcj : In c jd).
    { apply (split_on_incl c jd _ Hl). apply in_or_app. right. left.
      reflexivity. }
    rewrite (Hnb c Hcj) in Hc. discriminate.
Qed.

Lemma requirements_are_points_after_bullets_witness :
  exists r,
    Variant2.analyzeJobDescription (map to_lower) jd_with_bullets = Ok r /\
    In (u "AWS") (requirements r).
Proof.
  destruct (requirements_are_points_after_bullets (map to_lower)
              jd_with_bullets) as [r [H [_ [Hp _]]]].
  exists r. split; [exact H|].
  apply (Hp (u "Requirements: - Docker - AWS ")).
  - left. reflexivity.
  - reflexivity.
  - exists (u "Requirements: - Docker "), (ch "-"), (u " AWS "), [].
    split; [reflexivity|]. split; [reflexivity|]. split.
    + intros a Ha. cbv in Ha.
      repeat (destruct Ha as [Ha|Ha]; [subst a; reflexivity|]). destruct Ha.
    + split; [left; reflexivity|]. split; [reflexivity|discriminate].
Defined.

(** ** parseResumeText *)

Lemma parseResumeText_fields text :
  exists experience education,
    Variant2.parseResumeText text =
    Ok (Variant2.mkData (Variant2.extractName text)
          (option_map matched (str_match text re_email))
          (option_map matched (str_match text Variant2.re_phone))
          (or_placeholder
             (filter (fun skill => includes text skill)
                (map u Variant2.commonSkills))
             "Skills not detected")
          experience education).
Proof.
  unfold Variant2.parseResumeText. cbv zeta.
  destruct (extractSection_total text "experience") as [e1 ->].
  destruct (extractSection_total text "education") as [e2 ->].
  cbn [bind]. eauto.
Qed.

Lemma common_skills_distinct : NoDup (map u Variant2.commonSkills).
Proof.
  cbv.
  repeat (constructor;
          [intros H; repeat (destruct H as [H|H]; [discriminate H|]); exact H|]).
  constructor.
Qed.

Lemma option_map_part text re e :
  option_map matched (str_match text re) = Some e ->
  exists pre post, text = pre ++ e ++ post.
Proof.
  destruct (str_match text re) as [res|] eqn:E; [|discriminate].
  intros H. injection H as <-.
  destruct (str_match_part text re res E) as [pre [post [H _]]]. eauto.
Qed.

(** The resume parser of the second server returns on every text. The
    name is that of [extractName]; the email and the phone, when not
    null, are parts of the text; the skills are the common skills the
    text includes, in the order of the list and without repeats, or else
    the one placeholder, so that "Java" is listed whenever "JavaScript"
    is. *)
Theorem parseResumeText_always_returns (text : jsstring) :
  exists r,
    Variant2.parseResumeText text = Ok r /\
    Variant2.name r = Variant2.extractName text /\
    (forall e, Variant2.email r = Some e ->
       exists pre post, text = pre ++ e ++ post) /\
    (forall p, Variant2.phone r = Some p ->
       exists pre post, text = pre ++ p ++ post) /\
    NoDup (Variant2.skills r) /\
    (Variant2.skills r = [u "Skills not detected"] \/
     subseq (Variant2.skills r) (map u Variant2.commonSkills)) /\
    (forall skill, In skill Variant2.commonSkills ->
       (In (u skill) (Variant2.skills r) <-> includes text (u skill) = true)) /\
    (In (u "JavaScript") (Variant2.skills r) ->
     In (u "Java") (Variant2.skills r)).
Proof.
  destruct (parseResumeText_fields text) as [experience [education H]].
  eexists. split; [exact H|].
  cbn [Variant2.name Variant2.email Variant2.phone Variant2.skills].
  set (found := filter (fun skill => includes text skill)
                  (map u Variant2.commonSkills)).
  assert (Hsub : subseq found (map u Variant2.commonSkills))
    by apply subseq_filter.
  assert (Hkw : forall skill, In skill Variant2.commonSkills ->
            (In (u skill) (or_placeholder found "Skills not detected") <->
             includes text (u skill) = true)).
  { intros skill Hs.
    assert (Hf : In (u skill) found <-> includes text (u skill) = true).
    { unfold found. rewrite filter_In. split; [tauto|]. intros Hi.
      split; [apply in_map; exact Hs|exact Hi]. }
    rewrite <- Hf. destruct found as [|e es]; cbn [or_placeholder];
      [|reflexivity].
    split; [|intros []]. intros [E|[]]. exfalso.
    apply (in_map u) in Hs. rewrite <- E in Hs. cbv in Hs.
    repeat (destruct Hs as [Hs|Hs]; [discriminate Hs|]). exact Hs. }
  split; [reflexivity|]. split; [apply option_map_part|].
  split; [apply option_map_part|]. split; [|split; [|split; [exact Hkw|]]].
  - destruct found as [|e es] eqn:E; cbn [or_placeholder];
      [repeat constructor; intros []|].
    exact (subseq_nodup _ _ Hsub common_skills_distinct).
  - destruct found as [|e es]; cbn [or_placeholder]; [left|right];
      [reflexivity|exact Hsub].
  - intros Hjs. apply (Hkw "JavaScript"%string) in Hjs; [|cbv; tauto].
    apply (Hkw "Java"%string); [cbv; tauto|].
    exact (includes_part text [] (u "Java") (u "Script") Hjs).
Qed.

Lemma parseResumeText_always_returns_witness :
  exists r,
    Variant2.parseResumeText contact_line = Ok r /\
    exists pre post,
      contact_line = pre ++ u "jane.roe@example.co.uk" ++ post.
Proof.
  destruct (parseResumeText_always_returns contact_line)
    as [r [H [_ [He _]]]].
  exists r. split; [exact H|]. apply He.
  assert (E : exists r', Variant2.parseResumeText contact_line = Ok r' /\
                         Variant2.email r' = Some (u "jane.roe@example.co.uk"))
    by (eexists; split; vm_compute; reflexivity).
  destruct E as [r' [H' E]]. rewrite H in H'. injection H' as <-. exact E.
Defined.

(** ** The handlers of the second server *)

Section UploadFacts.
Variable pdf : list N -> Parsed.
Variable extractRawText : list N -> Parsed.
Variable type_error_message : JsError -> JsValue.

Let upload :=
  Variant2.upload_handler pdf extractRawText type_error_message.

(** A document that yields text is never answered with an error of the
    server: empty text is refused with status 400, and any other text,
    blank or not, is parsed and answered with status 200. *)
Theorem upload_v2_never_fails_on_text (f : UploadedFile) (text : jsstring) :
  parse_file pdf extractRawText f = ParsedText text ->
  (text = [] ->
   upload (Some f) =
   Variant2.error_response 400 (str "Could not extract text from file")) /\
  (text <> [] ->
   exists r, Variant2.parseResumeText text = Ok r /\
             upload (Some f) = mkResponse 200 (Variant2.resume_to_json r)).
Proof.
  intros Hp. unfold upload, Variant2.upload_handler. rewrite Hp. split.
  - intros ->. reflexivity.
  - intros Hne. apply truthy_nonempty in Hne. rewrite Hne. cbn [negb].
    destruct (parseResumeText_fields text) as [e1 [e2 H]]. rewrite H.
    eexists. split; reflexivity.
Qed.

End UploadFacts.

Section AnalyzeFacts.
Variable toLowerCase : jsstring -> jsstring.
Variable type_error_message : JsError -> JsValue.

Let analyze := Variant2.analyze_jd_handler toLowerCase type_error_message.

(** The job analysis endpoint answers 200 with the analysis exactly when
    the job description is a string that is not empty, and 400
    otherwise; it never answers 500. *)
Theorem analyze_jd_v2_never_fails (body : list (string * JsValue)) :
  (forall jd, get_field body "jobDescription" = VStr jd -> jd <> [] ->
     exists r, Variant2.analyzeJobDescription toLowerCase jd = Ok r /\
               analyze body = mkResponse 200 (job_to_json r)) /\
  ((forall jd, get_field body "jobDescription" = VStr jd -> jd = []) ->
   analyze body =
   Variant2.error_response 400 (str "Invalid job description format")).
Proof.
  unfold analyze, Variant2.analyze_jd_handler. cbv zeta. split.
  - intros jd -> Hne. apply truthy_nonempty in Hne. rewrite Hne. cbn [negb].
    destruct (job_analysis_fields toLowerCase jd) as [c [r H]]. rewrite H.
    eexists. split; reflexivity.
  - intros H. destruct (get_field body "jobDescription") as [| |b|n|s|l|l];
      try reflexivity.
    rewrite (H s eq_refl). reflexivity.
Qed.

End AnalyzeFacts.

Section GenerationFacts.
Variable generateContent : jsstring -> option JsValue.
Variable number_to_string : N -> jsstring.

Let generate := Variant2.generate_handler generateContent number_to_string.

Lemma generate_v2_checks body :
  passes_checks body = false ->
  status (generate body) = 400%nat.
Proof.
  unfold passes_checks, generate, Variant2.generate_handler. cbv zeta.
  destruct (is_truthy (get_field body "resumeData")); cbn [andb negb orb];
    [|reflexivity].
  destruct (is_truthy (get_field body "jobDescription")); cbn [andb negb orb];
    [|reflexivity].
  unfold Variant2.validTones.
  destruct (get_field body "tone"); try discriminate;
    intros H; rewrite H; reflexivity.
Qed.

Lemma generate_v2_checked body :
  passes_checks body = true ->
  generate body =
  match Variant2.generateCoverLetter generateContent number_to_string
          (get_field body "resumeData") (get_field body "jobDescription")
          (match get_field body "tone" with
           | VUndefined => str "formal"
           | t => t
           end) with
  | Variant2.Text coverLetter =>
      mkResponse 200 (VObj [("coverLetter"%string, coverLetter)])
  | Variant2.GenerationError message =>
      Variant2.error_response 500
        (Variant2.message_or (str message) "Failed to generate cover letter")
  end.
Proof.
  unfold passes_checks, generate, Variant2.generate_handler. cbv zeta.
  destruct (is_truthy (get_field body "resumeData")); cbn [andb negb orb];
    [|discriminate].
  destruct (is_truthy (get_field body "jobDescription")); cbn [andb negb orb];
    [|discriminate].
  unfold Variant2.validTones.
  destruct (get_field body "tone"); try discriminate;
    intros H; try rewrite H; reflexivity.
Qed.

Lemma generation_error_message resumeData jobDescription tone message :
  Variant2.generateCoverLetter generateContent number_to_string
    resumeData jobDescription tone = Variant2.GenerationError message ->
  message =
  "Failed to generate cover letter. Please check your API key and try again."%string.
Proof.
  unfold Variant2.generateCoverLetter. cbv zeta.
  destruct (Variant2.build_prompt number_to_string resumeData jobDescription
              tone) as [prompt|f].
  - destruct (generateContent prompt); [discriminate|].
    intros H. injection H as <-. reflexivity.
  - intros H. injection H as <-. reflexivity.
Qed.

(** Every answer of the generation endpoint has status 200, 400 or 500;
    it is 400 exactly when the request fails the checks; and every 500
    carries the same message about the API key, whatever went wrong. *)
Theorem generate_v2_failures_look_alike (body : list (string * JsValue)) :
  (status (generate body) = 200%nat \/ status (generate body) = 400%nat \/
   status (generate body) = 500%nat) /\
  (status (generate body) = 400%nat <-> passes_checks body = false) /\
  (status (generate body) = 500%nat ->
   generate body =
   Variant2.error_response 500
     (str "Failed to generate cover letter. Please check your API key and try again.")).
Proof.
  destruct (passes_checks body) eqn:E.
  - rewrite (generate_v2_checked body E).
    destruct (Variant2.generateCoverLetter _ _ _ _ _) as [t|msg] eqn:G.
    + cbn [status]. split; [auto|]. split; [split; discriminate|discriminate].
    + rewrite (generation_error_message _ _ _ _ G).
      cbn [status Variant2.error_response]. split; [auto|].
      split; [split; discriminate|]. intros _. reflexivity.
  - rewrite (generate_v2_checks body E). split; [auto|].
    split; [tauto|discriminate].
Qed.

(** Resume data whose skills are not an array never reach the model: a
    request that passes the checks is answered with the 500 about the
    API key, whatever the model would say. *)
Theorem generate_v2_needs_a_skills_array (body : list (string * JsValue)) :
  passes_checks body = true ->
  is_array (prop (get_field body "resumeData") "skills") = false ->
  generate body =
  Variant2.error_response 500
    (str "Failed to generate cover letter. Please check your API key and try again.").
Proof.
  intros Hc Hs. rewrite (generate_v2_checked body Hc).
  unfold Variant2.generateCoverLetter, Variant2.build_prompt. cbv zeta.
  destruct (string_of number_to_string "tone" _) as [t|f]; cbn [then_];
    [|reflexivity].
  destruct (string_of number_to_string "name" _) as [n|f]; cbn [then_];
    [|reflexivity].
  assert (Hj : join_of number_to_string "skills"
                 (prop (get_field body "resumeData") "skills") ", " =
               Failed (TypeErrorAt "skills"
                         (prop (get_field body "resumeData") "skills"))).
  { destruct (prop (get_field body "resumeData") "skills");
      try discriminate; reflexivity. }
  rewrite Hj. reflexivity.
Qed.

End GenerationFacts.

Lemma upload_v2_never_fails_on_text_witness :
  exists r,
    Variant2.parseResumeText contact_line = Ok r /\
    Variant2.upload_handler (fun _ => ParsedText contact_line)
      (fun _ => ParseFailed VUndefined) (fun _ => VUndefined)
      (Some (mkFile (u "application/pdf") [])) =
    mkResponse 200 (Variant2.resume_to_json r).
Proof.
  apply (proj2 (upload_v2_never_fails_on_text
                  (fun _ => ParsedText contact_line)
                  (fun _ => ParseFailed VUndefined) (fun _ => VUndefined)
                  (mkFile (u "application/pdf") []) contact_line eq_refl)).
  discriminate.
Defined.

Lemma analyze_jd_v2_never_fails_witness :
  exists r,
    Variant2.analyzeJobDescription (map to_lower) jd_with_bullets = Ok r /\
    Variant2.analyze_jd_handler (map to_lower) (fun _ => VUndefined)
      [("jobDescription"%string, VStr jd_with_bullets)] =
    mkResponse 200 (job_to_json r).
Proof.
  apply (proj1 (analyze_jd_v2_never_fails (map to_lower) (fun _ => VUndefined)
                  [("jobDescription"%string, VStr jd_with_bullets)])
           jd_with_bullets eq_refl).
  discriminate.
Defined.

Lemma generate_v2_failures_look_alike_witness :
  Variant2.generate_handler (fun _ => None) (fun _ => [])
    request_without_skills =
  Variant2.error_response 500
    (str "Failed to generate cover letter. Please check your API key and try again.").
Proof.
  apply (proj2 (proj2 (generate_v2_failures_look_alike (fun _ => None)
                         (fun _ => []) request_without_skills))).
  reflexivity.
Defined.

Lemma generate_v2_needs_a_skills_array_witness :
  Variant2.generate_handler (fun _ => Some (str "Dear Hiring Manager"))
    (fun _ => []) request_without_skills =
  Variant2.error_response 500
    (str "Failed to generate cover letter. Please check your API key and try again.").
Proof.
  apply (generate_v2_needs_a_skills_array
           (fun _ => Some (str "Dear Hiring Manager")) (fun _ => [])
           request_without_skills); reflexivity.
Defined.

(** ** The file filter and the parsers *)

Lemma str_eqb_eq a : forall b, str_eqb a b = true <-> a = b.
Proof.
  induction a as [|x a IH]; intros [|y b]; cbn [str_eqb];
    try (split; [discriminate|discriminate]); [tauto|].
  rewrite andb_true_iff, N.eqb_eq, IH. split.
  - intros [-> ->]. reflexivity.
  - intros H. injection H as -> ->. auto.
Qed.

(** A file that the upload filter lets through is a PDF, and goes to the
    PDF parser, or a Word document, and goes to the other one: the
    branch that only asks whether the file is a PDF never meets a third
    kind of file. *)
Theorem accepted_file_is_pdf_or_docx
    (pdf extractRawText : list N -> Parsed) (file : UploadedFile) :
  fileFilter file = true ->
  (mimetype file = u "application/pdf" /\
   parse_file pdf extractRawText file = pdf (buffer file)) \/
  (mimetype file =
   u "application/vnd.openxmlformats-officedocument.wordprocessingml.document" /\
   parse_file pdf extractRawText file = extractRawText (buffer file)).
Proof.
  unfold fileFilter, parse_file, ALLOWED_FILE_TYPES. cbn [existsb].
  rewrite orb_false_r, orb_true_iff, !str_eqb_eq. intros [H|H].
  - left. split; [auto|]. rewrite <- H. 
    rewrite (proj2 (str_eqb_eq _ _) eq_refl). reflexivity.
  - right. split; [auto|]. rewrite <- H. reflexivity.
Qed.

Lemma accepted_file_is_pdf_or_docx_witness :
  parse_file (fun _ => ParsedText contact_line)
    (fun _ => ParseFailed VUndefined) (mkFile (u "application/pdf") []) =
  ParsedText contact_line.
Proof.
  destruct (accepted_file_is_pdf_or_docx (fun _ => ParsedText contact_line)
              (fun _ => ParseFailed VUndefined)
              (mkFile (u "application/pdf") []) eq_refl) as [[_ H]|[H _]].
  - exact H.
  - discriminate H.
Defined.

(** ** The request log *)

(** The model of the request log is not declared, so the logging
    middleware fails on every request: it logs "Request logging failed:"
    once and hands the request on, whatever the database would do. *)
Theorem every_request_logs_a_failure (create_resolves : bool) :
  log_request create_resolves =
  ([LogError "Request logging failed:"], Next).
Proof. reflexivity. Qed.

(** ** The role after its label *)

(** [[^\n]] accepts the same characters with and without [i]. *)
Lemma not_newline_class c :
  xorb true (class_mem true [CChar NL] c) = negb (NL =? c).
Proof.
  unfold class_mem, existsb, item_mem. rewrite orb_false_r. cbn [andb xorb].
  unfold NL. destruct (N.eqb_spec 10 c) as [E|E]; [reflexivity|].
  cbn [orb negb].
  destruct (canon_cases c) as [[Hl ->]|[_ ->]];
    destruct (to_lower_cases c) as [[Hu ->]|[_ ->]];
    try apply is_lower_range in Hl; try apply is_upper_range in Hu;
    repeat match goal with
           | |- context [N.eqb ?a ?b] =>
               destruct (N.eqb_spec a b); [exfalso; lia|]
           end; reflexivity.
Qed.

(** From a label on, its pattern takes the label, the white space after
    it, line breaks included, and the text from there to the end of
    the line. *)
Lemma label_found_at x label w ws line tail :
  rest x = w ++ ws ++ line ++ tail ->
  u label <> [] -> same_ci w (u label) ->
  Forall (fun a => is_space a = true) ws ->
  (exists c l, line = c :: l /\ is_space c = false) ->
  ~ In NL line ->
  (tail = [] \/ exists t, tail = NL :: t) ->
  exists y, match_at (label_re label) x = Some y /\
            caps y = (1%nat, line) :: caps x.
Proof.
  intros Hx Hne Hw Hws [c0 [l0 [Hline Hc0]]] Hnl Htail.
  unfold match_at, label_re. cbn [pattern ignoreCase seq]. cbn [m].
  unfold lit. rewrite (m_lit true (u label) _ _ Hne), Hx,
    (lit_at_same_ci _ w _ Hw).
  rewrite <- (same_ci_length _ _ Hw).
  set (y1 := skip (length w) x).
  assert (Hy1 : rest y1 = ws ++ line ++ tail)
    by (eapply skip_rest_tail; eauto).
  assert (Hc1 : caps y1 = caps x)
    by (unfold y1; rewrite (skip_rest _ _ _ _ Hx eq_refl); reflexivity).
  set (y2 := skip (length ws) y1).
  assert (Hy2 : rest y2 = line ++ tail)
    by (eapply skip_rest_tail; eauto).
  assert (Hc2 : caps y2 = caps x).
  { unfold y2. rewrite (skip_rest _ _ _ _ Hy1 eq_refl). exact Hc1. }
  exists (set_cap 1 line (skip (length line) y2)). split.
  - eapply star_space; [exact Hy1|exact Hws| |].
    { right. exists c0, (l0 ++ tail). rewrite Hline. auto. }
    fold y2. unfold plus, not_newline.
    rewrite (greedy_run true _ _ (one_char_class true true [CChar NL])
               _ y2 _ _ Hy2).
    rewrite run_len_app.
    + apply try_down_some. exists (length line). split; [|split].
      * rewrite Hline. cbn [length]. lia.
      * rewrite (reach_taken y2 (skip (length line) y2) line);
          [reflexivity|].
        rewrite (skip_rest_tail _ _ _ _ Hy2 eq_refl). exact Hy2.
      * intros j' Hj'. lia.
    + apply Forall_forall. intros c Hc. cbv beta.
      rewrite not_newline_class. apply negb_true_iff, N.eqb_neq.
      intros <-. exact (Hnl Hc).
    + destruct Htail as [->|[t ->]]; [left; reflexivity|].
      right. exists NL, t. split; [reflexivity|]. cbv beta.
      rewrite not_newline_class, N.eqb_refl. reflexivity.
  - cbn [set_cap caps]. rewrite (skip_rest _ _ _ _ Hy2 eq_refl). cbn [caps].
    rewrite Hc2. reflexivity.
Qed.

(** The role is the text that follows the first "position:" of the job
    description, in any letter case: the white space after the label is
    passed over, line breaks included, and the role is what stands from
    the next character to the end of its line, trimmed, on the line of
    the label or on a later one.  No other pattern is asked. *)
Theorem role_is_the_text_after_position (pre w ws line tail : jsstring) :
  (forall p1 c p2, pre = p1 ++ c :: p2 ->
     lit_at true (u "position:") (c :: p2 ++ w ++ ws ++ line ++ tail) = false) ->
  same_ci w (u "position:") ->
  Forall (fun a => is_space a = true) ws ->
  (exists c l, line = c :: l /\ is_space c = false) ->
  ~ In NL line ->
  (tail = [] \/ exists t, tail = NL :: t) ->
  exists r,
    analyzeJobDescription (pre ++ w ++ ws ++ line ++ tail) = Ok r /\
    role r = trim line /\ role r <> [].
Proof.
  intros Hpre Hw Hws Hline Hnl Htail.
  set (text := pre ++ w ++ ws ++ line ++ tail).
  assert (Hm : exists res, str_match text re_position = Some res /\
                           cap_get 1 (groups res) = Some line).
  { unfold str_match, text. change re_position with (label_re "position:").
    rewrite scan_skip.
    - destruct (label_found_at
                  (mkState (rev pre ++ []) (w ++ ws ++ line ++ tail) [])
                  "position:" w ws line tail eq_refl ltac:(discriminate)
                  Hw Hws Hline Hnl Htail) as [y [Hy Hc]].
      rewrite (scan_here _ _ _ y Hy). eexists. split; [reflexivity|].
      cbn [groups]. rewrite Hc. reflexivity.
    - intros p1 c p2 E. unfold match_at, label_re.
      cbn [pattern ignoreCase seq]. cbn [m]. unfold lit.
      rewrite (m_lit true (u "position:") _ _ ltac:(discriminate)).
      cbn [rest]. rewrite (Hpre p1 c p2 E). reflexivity. }
  destruct Hm as [res [Hm Hg]].
  destruct (analyzeJobDescription_total text) as [c [ro H]].
  eexists. split; [exact H|].
  apply role_of_record in H. cbn beta in H. cbn [role] in *.
  rewrite Hm in H. cbn [or_else group1_or] in H. rewrite Hg in H.
  cbn [trim_of] in H. injection H as <-. split; [reflexivity|].
  destruct Hline as [c0 [l0 [-> Hc0]]].
  destruct (trim_keeps_head c0 l0 Hc0) as [tl ->]. discriminate.
Qed.

Lemma role_is_the_text_after_position_witness :
  exists r,
    analyzeJobDescription jd_label_alone = Ok r /\
    role r = u "Senior Developer".
Proof.
  destruct (role_is_the_text_after_position (u "Hiring now." ++ [NL])
              (u "Position:") (u " " ++ [NL; NL] ++ u "  ")
              (u "Senior Developer ") (NL :: u "Role: other"))
    as [r [H [Hr _]]].
  - apply word_not_before_ok. vm_compute. reflexivity.
  - reflexivity.
  - repeat constructor.
  - eexists. eexists. split; reflexivity.
  - cbv. intros H. repeat (destruct H as [H|H]; [discriminate|]). exact H.
  - right. eexists. reflexivity.
  - exists r. split; [exact H|]. rewrite Hr. vm_compute. reflexivity.
Defined.
